(** * strapi-provider-upload-local-secure: path safety, URL signing, delete
      reconciliation and the private-access gate

    A shallow embedding of [src/utils/path.ts], [src/utils/strings.ts],
    [src/utils/mime.ts], [src/utils/url.ts] and [src/index.ts].

    JavaScript strings are sequences of UTF-16 code units; they are modelled
    as lists of [N].  The Node.js platform functions the provider calls
    ([path.resolve], [path.extname], [Buffer.from(_, 'base64url')], ...) are
    modelled for POSIX from their documented behaviour; the functions whose
    tables are too large to write down (Unicode normalisation, HMAC-SHA256,
    URL parsing) are fields of a [Platform] record.

    The first part holds the definitions: the platform, the provider, a
    concrete platform to run it on, and the predicates of the statements.
    The second part holds the properties. *)

From Stdlib Require Import List NArith ZArith Lia Bool String Ascii.
From Stdlib Require Import DecimalString.
From Stdlib Require DecimalZ.
Import ListNotations.

(* ------------------------------------------------------------------ *)
(** ** JavaScript strings *)

Module Js.

Local Open Scope N_scope.

Definition codeunit := N.
Definition jsstring := list codeunit.

(** An ASCII literal as a JavaScript string. *)
Definition str (s : string) : jsstring :=
  map N_of_ascii (list_ascii_of_string s).

Definition SLASH : codeunit := 47.
Definition BACKSLASH : codeunit := 92.
Definition DOT : codeunit := 46.
Definition HYPHEN : codeunit := 45.
Definition SPACE : codeunit := 32.
Definition LF : codeunit := 10.

Fixpoint eqs (a b : jsstring) : bool :=
  match a, b with
  | [], [] => true
  | x :: a', y :: b' => (x =? y)%N && eqs a' b'
  | _, _ => false
  end.

(** [!s] for a string: the empty string is the only falsy one. *)
Definition falsy (s : jsstring) : bool :=
  match s with [] => true | _ => false end.

Definition truthy (s : jsstring) : bool := negb (falsy s).

(** [s.startsWith(p)] *)
Fixpoint startsWith (s p : jsstring) {struct p} : bool :=
  match p, s with
  | [], _ => true
  | x :: p', y :: s' => (x =? y)%N && startsWith s' p'
  | _ :: _, [] => false
  end.

(** [s.endsWith(p)] *)
Definition endsWith (s p : jsstring) : bool :=
  startsWith (rev s) (rev p).

(** [s.includes(p)] *)
Fixpoint includes (s p : jsstring) : bool :=
  startsWith s p ||
  match s with
  | [] => false
  | _ :: s' => includes s' p
  end.

(** [s.split(c)] for a one-unit separator: never the empty list. *)
Fixpoint split (c : codeunit) (s : jsstring) : list jsstring :=
  match s with
  | [] => [[]]
  | x :: r =>
      if (x =? c)%N then [] :: split c r
      else match split c r with
           | h :: t => (x :: h) :: t
           | [] => [[x]]
           end
  end.

(** [parts.join(sep)] *)
Fixpoint join (sep : jsstring) (parts : list jsstring) : jsstring :=
  match parts with
  | [] => []
  | [p] => p
  | p :: rest => p ++ sep ++ join sep rest
  end.

(** [s.slice(0, n)] *)
Definition slice0 (n : nat) (s : jsstring) : jsstring := firstn n s.

(** ECMAScript WhiteSpace and LineTerminator code units: what [trim] strips
    and what [\s] matches. *)
Definition isWhiteSpace (c : codeunit) : bool :=
  ((9 <=? c) && (c <=? 13) || (c =? 32) || (c =? 160) || (c =? 5760)
   || (8192 <=? c) && (c <=? 8202) || (c =? 8232) || (c =? 8233)
   || (c =? 8239) || (c =? 8287) || (c =? 12288) || (c =? 65279))%N.

Fixpoint dropWhile (f : codeunit -> bool) (s : jsstring) : jsstring :=
  match s with
  | [] => []
  | x :: r => if f x then dropWhile f r else s
  end.

Definition dropWhileEnd (f : codeunit -> bool) (s : jsstring) : jsstring :=
  rev (dropWhile f (rev s)).

(** [s.trim()] *)
Definition trim (s : jsstring) : jsstring :=
  dropWhileEnd isWhiteSpace (dropWhile isWhiteSpace s).

(** [s.replace(/c/g, d)] for single code units. *)
Definition replaceUnit (c d : codeunit) (s : jsstring) : jsstring :=
  map (fun x => if (x =? c)%N then d else x) s.

(** [s.replace(/[^set]/g, '')]: keep the code units of the set. *)
Definition keep (f : codeunit -> bool) (s : jsstring) : jsstring :=
  filter f s.

(** [s.replace(/X+/g, r)] for a class X of code units: every maximal run of
    units of the class becomes one copy of [r].  [inRun] tells that the
    previous unit belonged to the class. *)
Fixpoint replaceRunsFrom (inRun : bool) (f : codeunit -> bool) (r : jsstring)
  (s : jsstring) : jsstring :=
  match s with
  | [] => []
  | x :: rest =>
      if f x then (if inRun then [] else r) ++ replaceRunsFrom true f r rest
      else x :: replaceRunsFrom false f r rest
  end.

Definition replaceRuns := replaceRunsFrom false.

End Js.

(* ------------------------------------------------------------------ *)
(** ** Results of calls that may throw *)

Inductive exn : Type :=
| RangeError        (* ERR_CRYPTO_TIMING_SAFE_EQUAL_LENGTH *)
| IOError           (* a rejected fs call: ENOENT, EISDIR, ENOTEMPTY, ... *)
| ServiceError      (* thrown by a Strapi service or by the query engine *)
| URIError          (* new URL / decodeURIComponent on malformed input *)
| Error (msg : Js.jsstring).

Inductive result (A : Type) : Type :=
| Ok (a : A)
| Throw (e : exn).

Arguments Ok {A} a.
Arguments Throw {A} e.

(* ------------------------------------------------------------------ *)
(** ** The platform

    What the provider takes from the JavaScript engine and from Node.js
    without the provider's source saying how it is computed. *)

Record Platform : Type := {
  (** [s.normalize('NFD')] *)
  normalizeNFD : Js.jsstring -> Js.jsstring;
  (** [s.toLowerCase()] *)
  toLowerCase : Js.jsstring -> Js.jsstring;
  (** case folding of a RegExp with the [i] flag *)
  canonicalize : Js.codeunit -> Js.codeunit;
  (** [crypto.createHmac('sha256', key).update(msg).digest()], as bytes *)
  hmacSha256 : Js.jsstring -> Js.jsstring -> list N;
  (** [process.cwd()] *)
  cwd : Js.jsstring;
  (** [new URL(raw).pathname] *)
  urlPathname : Js.jsstring -> result Js.jsstring;
  (** [decodeURIComponent(s)] *)
  decodeURIComponent : Js.jsstring -> result Js.jsstring
}.

(* ------------------------------------------------------------------ *)
(** ** Node.js [path] (POSIX) *)

Module NodePath.
Import Js.
Local Open Scope N_scope.

Definition sep : jsstring := [SLASH].

Definition isSlash (c : codeunit) : bool := c =? SLASH.
Definition notSlash (c : codeunit) : bool := negb (isSlash c).
Definition notDot (c : codeunit) : bool := negb (c =? DOT).

Definition isAbsolute (p : jsstring) : bool :=
  match p with
  | c :: _ => isSlash c
  | [] => false
  end.

Definition isDot (s : jsstring) : bool := eqs s [DOT].
Definition isDotDot (s : jsstring) : bool := eqs s [DOT; DOT].

(** [normalizeString], segment by segment.  [res] holds the segments kept
    so far, last one first.  An empty segment and [.] are dropped; [..]
    removes the last kept segment, unless there is none or it is [..]
    itself, and then [..] is kept only when [allowAboveRoot]. *)
Fixpoint normalizeSegments (allowAboveRoot : bool) (res : list jsstring)
  (segs : list jsstring) : list jsstring :=
  match segs with
  | [] => rev res
  | s :: rest =>
      if falsy s || isDot s then normalizeSegments allowAboveRoot res rest
      else if isDotDot s then
        match res with
        | last :: res' =>
            if isDotDot last
            then normalizeSegments allowAboveRoot
                   (if allowAboveRoot then s :: res else res) rest
            else normalizeSegments allowAboveRoot res' rest
        | [] =>
            normalizeSegments allowAboveRoot
              (if allowAboveRoot then [s] else []) rest
        end
      else normalizeSegments allowAboveRoot (s :: res) rest
  end.

Definition normalizeString (path : jsstring) (allowAboveRoot : bool)
  : jsstring :=
  join sep (normalizeSegments allowAboveRoot [] (split SLASH path)).

(** The loop of [path.resolve], from the last argument to the first and then
    the working directory, until an absolute path has been prepended. *)
Fixpoint resolveLoop (paths : list jsstring) (resolvedPath : jsstring)
  : jsstring * bool :=
  match paths with
  | [] => (resolvedPath, false)
  | p :: rest =>
      if falsy p then resolveLoop rest resolvedPath
      else
        let resolvedPath' := p ++ sep ++ resolvedPath in
        if isAbsolute p then (resolvedPath', true)
        else resolveLoop rest resolvedPath'
  end.

(** [path.resolve(...args)] *)
Definition resolve (P : Platform) (args : list jsstring) : jsstring :=
  let (resolvedPath, resolvedAbsolute) :=
    resolveLoop (rev args ++ [cwd P]) [] in
  let n := normalizeString resolvedPath (negb resolvedAbsolute) in
  if resolvedAbsolute then SLASH :: n
  else if falsy n then [DOT] else n.

(** [path.normalize(p)] *)
Definition normalize (p : jsstring) : jsstring :=
  if falsy p then [DOT]
  else
    let isAbs := isAbsolute p in
    let trailing := endsWith p sep in
    let n := normalizeString p (negb isAbs) in
    if falsy n then
      if isAbs then sep else if trailing then [DOT; SLASH] else [DOT]
    else
      let n' := if trailing then n ++ sep else n in
      if isAbs then SLASH :: n' else n'.

(** [path.join(...args)] *)
Definition join (args : list jsstring) : jsstring :=
  let joined := Js.join sep (filter truthy args) in
  if falsy joined then [DOT] else normalize joined.

(** [path.dirname(p)]: the scan runs from the last unit down to index 1. *)
Definition dirname (p : jsstring) : jsstring :=
  match p with
  | [] => [DOT]
  | c0 :: t =>
      let none := if isSlash c0 then sep else [DOT] in
      let afterSlashes := dropWhile isSlash (rev t) in
      match afterSlashes, dropWhile notSlash afterSlashes with
      | [], _ => none
      | _, [] => none
      | _, _ :: before =>
          if isSlash c0 && falsy before then [SLASH; SLASH]
          else c0 :: rev before
      end
  end.

Fixpoint takeWhile (f : codeunit -> bool) (s : jsstring) : jsstring :=
  match s with
  | [] => []
  | x :: r => if f x then x :: takeWhile f r else []
  end.

(** The last path component, trailing separators ignored. *)
Definition basePart (p : jsstring) : jsstring :=
  rev (takeWhile notSlash (dropWhile isSlash (rev p))).

(** [path.extname(p)]: from the last dot of the last component, unless there
    is no dot, the component starts at that dot, or the component is [..]. *)
Definition extname (p : jsstring) : jsstring :=
  let rb := rev (basePart p) in
  match dropWhile notDot rb with
  | [] => []
  | _ :: preRev =>
      let ext := DOT :: rev (takeWhile notDot rb) in
      if falsy preRev then []
      else if isDot preRev && isDot ext then []
      else ext
  end.

(** The segments of a resolved absolute path. *)
Definition segmentsOf (abs : jsstring) : list jsstring :=
  filter truthy (split SLASH abs).

Fixpoint dropCommon (a b : list jsstring) : list jsstring * list jsstring :=
  match a, b with
  | x :: a', y :: b' => if eqs x y then dropCommon a' b' else (a, b)
  | _, _ => (a, b)
  end.

(** [path.relative(from, to)]: one [..] for every segment of [from] below the
    common ancestor, then the segments of [to] below it. *)
Definition relative (P : Platform) (from to : jsstring) : jsstring :=
  let (up, down) :=
    dropCommon (segmentsOf (resolve P [from])) (segmentsOf (resolve P [to])) in
  Js.join sep (map (fun _ => [DOT; DOT]) up ++ down).

End NodePath.

(* ------------------------------------------------------------------ *)
(** ** [src/utils/strings.ts] *)

Module Strings.
Import Js.
Local Open Scope N_scope.

(** [getStringOrUndefined(v)], for a value that is a string or undefined. *)
Definition getStringOrUndefined (v : option jsstring) : option jsstring :=
  match v with
  | Some s => if truthy (trim s) then Some s else None
  | None => None
  end.

(** The characters of [/[.*+?^${}()|[\]\\]/]. *)
Definition isRegexSyntax (c : codeunit) : bool :=
  existsb (N.eqb c) (str ".*+?^${}()|[]\").

(** [escapeRegexLiteral(s)] *)
Definition escapeRegexLiteral (s : jsstring) : jsstring :=
  flat_map (fun c => if isRegexSyntax c then [BACKSLASH; c] else [c]) s.

End Strings.

(* ------------------------------------------------------------------ *)
(** ** [src/utils/mime.ts] *)

Module Mime.
Import Js Strings.

(** [normalizeExt(ext)] *)
Definition normalizeExt (ext : option jsstring) : option jsstring :=
  match getStringOrUndefined ext with
  | None => None
  | Some raw => Some (if startsWith raw [DOT] then raw else DOT :: raw)
  end.

(** [extFromMime(mime)] *)
Definition extFromMime (P : Platform) (mime : option jsstring)
  : option jsstring :=
  match getStringOrUndefined mime with
  | None => None
  | Some m0 =>
      let m := toLowerCase P m0 in
      if falsy m then None
      else if eqs m (str "image/jpeg") || eqs m (str "image/jpg")
      then Some (str ".jpg")
      else if eqs m (str "image/png") then Some (str ".png")
      else if eqs m (str "image/webp") then Some (str ".webp")
      else if eqs m (str "image/gif") then Some (str ".gif")
      else if eqs m (str "image/svg+xml") then Some (str ".svg")
      else if eqs m (str "application/pdf") then Some (str ".pdf")
      else None
  end.

End Mime.

(* ------------------------------------------------------------------ *)
(** ** [src/utils/url.ts] *)

Module Url.
Import Js Strings.
Local Open Scope N_scope.

Definition isWordChar (c : codeunit) : bool :=
  ((48 <=? c) && (c <=? 57)) || ((65 <=? c) && (c <=? 90))
  || ((97 <=? c) && (c <=? 122)) || (c =? 95).

(** [/^\w+:\/\//.test(raw)] *)
Definition hasScheme (raw : jsstring) : bool :=
  match raw with
  | c :: _ => isWordChar c && startsWith (dropWhile isWordChar raw) (str "://")
  | [] => false
  end.

(** [s.split('?')[0]] *)
Definition beforeQuery (s : jsstring) : jsstring :=
  hd [] (split 63 s).

(** [s.indexOf(m)], as the rest of [s] after the first occurrence of [m]. *)
Fixpoint afterFirst (s m : jsstring) : option jsstring :=
  if startsWith s m then Some (skipn (List.length m) s)
  else match s with
       | [] => None
       | _ :: s' => afterFirst s' m
       end.

(** [try { return decodeURIComponent(p) } catch { return p }] *)
Definition decodeOrRaw (P : Platform) (p : jsstring) : jsstring :=
  match decodeURIComponent P p with
  | Ok d => d
  | Throw _ => p
  end.

(** [extractObjectPathFromUrl(url, { marker, baseUrl })] *)
Definition extractObjectPathFromUrl (P : Platform) (url : option jsstring)
  (marker : jsstring) (baseUrl : option jsstring) : option jsstring :=
  match getStringOrUndefined url with
  | None => None
  | Some raw =>
      let pathname :=
        if hasScheme raw then
          match urlPathname P raw with
          | Ok p => p
          | Throw _ => beforeQuery raw
          end
        else beforeQuery raw in
      match afterFirst pathname marker with
      | Some rest =>
          let objectPath := dropWhile NodePath.isSlash rest in
          if falsy objectPath then None
          else Some (decodeOrRaw P objectPath)
      | None =>
          match getStringOrUndefined baseUrl with
          | Some b =>
              if startsWith raw b then
                let remainder :=
                  beforeQuery
                    (dropWhile NodePath.isSlash (skipn (List.length b) raw)) in
                if falsy remainder then None
                else Some (decodeOrRaw P remainder)
              else None
          | None => None
          end
      end
  end.

End Url.

(* ------------------------------------------------------------------ *)
(** ** The file system under the uploads root

    Absolute, normalised path names with what they name, in the order in
    which a directory listing reports them.  A path is a key: the
    operations below are those of the operating system on the paths that
    [path.resolve] returns, which is what [upload], [delete] and the gate
    hand to them.  A path with a [.] or [..] segment names nothing here,
    where the operating system would resolve it; the statements about
    [cleanupEmptyDirs], which takes its path from the caller, are made for
    resolved paths ([Props.resolvedPath]). *)

Module Fs.
Import Js.
Local Open Scope N_scope.

Inductive node : Type :=
| File (content : list N)
| Dir.

Definition fs := list (jsstring * node).

Fixpoint lookup (d : fs) (p : jsstring) : option node :=
  match d with
  | [] => None
  | (q, n) :: d' => if eqs q p then Some n else lookup d' p
  end.

Definition remove (d : fs) (p : jsstring) : fs :=
  filter (fun e => negb (eqs (fst e) p)) d.

(** [fs.existsSync(p)] *)
Definition existsSync (d : fs) (p : jsstring) : bool :=
  match lookup d p with Some _ => true | None => false end.

(** [fs.existsSync(p) && fs.statSync(p).isFile()] *)
Definition isFile (d : fs) (p : jsstring) : bool :=
  match lookup d p with Some (File _) => true | _ => false end.

(** The name of [p] inside directory [dir], when [p] is an entry of it. *)
Definition childName (dir p : jsstring) : option jsstring :=
  let prefix := if eqs dir NodePath.sep then dir else dir ++ NodePath.sep in
  if startsWith p prefix then
    let name := skipn (List.length prefix) p in
    if truthy name && negb (existsb NodePath.isSlash name) then Some name
    else None
  else None.

Definition children (d : fs) (dir : jsstring) : list jsstring :=
  flat_map (fun e => match childName dir (fst e) with
                     | Some n => [n]
                     | None => []
                     end) d.

(** [fs.promises.readdir(dir)] *)
Definition readdir (d : fs) (dir : jsstring) : result (list jsstring) :=
  match lookup d dir with
  | Some Dir => Ok (children d dir)
  | _ => Throw IOError
  end.

(** [fs.promises.unlink(p)]: only a file can be unlinked. *)
Definition unlink (d : fs) (p : jsstring) : result fs :=
  match lookup d p with
  | Some (File _) => Ok (remove d p)
  | _ => Throw IOError
  end.

(** [fs.promises.rmdir(p)]: only an empty directory can be removed. *)
Definition rmdir (d : fs) (p : jsstring) : result fs :=
  match lookup d p with
  | Some Dir =>
      match children d p with
      | [] => Ok (remove d p)
      | _ :: _ => Throw IOError
      end
  | _ => Throw IOError
  end.

(** [fse.ensureDir(p)]: creates [p] and its missing ancestors; fails when
    one of them is a file.  [fuel] bounds the number of ancestors. *)
Fixpoint ensureDir (fuel : nat) (d : fs) (p : jsstring) : result fs :=
  match lookup d p with
  | Some Dir => Ok d
  | Some (File _) => Throw IOError
  | None =>
      match fuel with
      | O => Throw IOError
      | S fuel' =>
          let parent := NodePath.dirname p in
          if eqs parent p then Ok (d ++ [(p, Dir)])
          else match ensureDir fuel' d parent with
               | Ok d' => Ok (d' ++ [(p, Dir)])
               | Throw e => Throw e
               end
      end
  end.

(** [fs.promises.writeFile(p, data)] and the piping of a stream into
    [fs.createWriteStream(p)]: the parent must be a directory, and [p] must
    not be one. *)
Definition writeFile (d : fs) (p : jsstring) (data : list N) : result fs :=
  match lookup d (NodePath.dirname p), lookup d p with
  | Some Dir, None => Ok (d ++ [(p, File data)])
  | Some Dir, Some (File _) =>
      Ok (map (fun e => if eqs (fst e) p then (p, File data) else e) d)
  | _, _ => Throw IOError
  end.

End Fs.

(* ------------------------------------------------------------------ *)
(** ** [src/utils/path.ts] *)

Module PathUtils.
Import Js.
Local Open Scope N_scope.

(** The combining diacritical marks, U+0300 to U+036F. *)
Definition isCombiningMark (c : codeunit) : bool :=
  (768 <=? c) && (c <=? 879).

Definition isAlnum (c : codeunit) : bool :=
  ((97 <=? c) && (c <=? 122)) || ((65 <=? c) && (c <=? 90))
  || ((48 <=? c) && (c <=? 57)).

(** [a-zA-Z0-9._-] *)
Definition isDirUnit (c : codeunit) : bool :=
  isAlnum c || (c =? DOT) || (c =? 95) || (c =? HYPHEN).

(** [a-zA-Z0-9 _-] *)
Definition isFolderUnit (c : codeunit) : bool :=
  isAlnum c || (c =? SPACE) || (c =? 95) || (c =? HYPHEN).

Definition isHyphen (c : codeunit) : bool := c =? HYPHEN.
Definition isDotOrHyphen (c : codeunit) : bool := (c =? DOT) || (c =? HYPHEN).

(** The seven rewrites of one part in the loop of [sanitizePathDir]. *)
Definition sanitizePart (P : Platform) (part : jsstring) : jsstring :=
  let s := normalizeNFD P part in
  let s := keep (fun c => negb (isCombiningMark c)) s in
  let s := replaceRuns isWhiteSpace [HYPHEN] s in
  let s := keep isDirUnit s in
  let s := replaceRuns isHyphen [HYPHEN] s in
  let s := dropWhile isDotOrHyphen s in
  let s := dropWhileEnd isHyphen s in
  s.

(** The body of the loop: what one part pushes onto [out]. *)
Definition pushPart (P : Platform) (part : jsstring) : list jsstring :=
  let s := sanitizePart P part in
  if falsy s || eqs s [DOT] || eqs s [DOT; DOT] then []
  else [if (128 <? List.length s)%nat then slice0 128 s else s].

(** [sanitizePathDir(input)] *)
Definition sanitizePathDir (P : Platform) (input : jsstring) : jsstring :=
  let raw := replaceUnit BACKSLASH SLASH (trim (normalizeNFD P input)) in
  if falsy raw then []
  else
    let parts := filter truthy (map trim (split SLASH raw)) in
    let out := flat_map (pushPart P) parts in
    let joined := join [SLASH] out in
    if (512 <? List.length joined)%nat then slice0 512 joined else joined.

(** [sanitizeAdminFolderName(input)] *)
Definition sanitizeAdminFolderName (P : Platform) (input : jsstring)
  : jsstring :=
  let s := normalizeNFD P input in
  let s := keep (fun c => negb (isCombiningMark c)) s in
  let s := keep isFolderUnit s in
  let s := trim (replaceRuns isWhiteSpace [SPACE] s) in
  if (128 <? List.length s)%nat then trim (slice0 128 s) else s.

(** [sanitizeAdminFolderPath(input)] *)
Definition sanitizeAdminFolderPath (P : Platform) (input : jsstring)
  : jsstring :=
  let raw := replaceUnit BACKSLASH SLASH (trim input) in
  if falsy raw then []
  else
    let parts :=
      filter truthy (map (sanitizeAdminFolderName P) (split SLASH raw)) in
    join [SLASH] parts.

(** [normalizeRelativeSlashPath(v)], for a string. *)
Definition normalizeRelativeSlashPath (v : jsstring) : jsstring :=
  dropWhileEnd NodePath.isSlash
    (dropWhile NodePath.isSlash (replaceUnit BACKSLASH SLASH (trim v))).

(** [safeResolveUnderRoot(root, rel)]; [None] is [null]. *)
Definition safeResolveUnderRoot (P : Platform) (root rel : jsstring)
  : option jsstring :=
  let rootAbs := NodePath.resolve P [root] in
  let abs := NodePath.resolve P [rootAbs; rel] in
  if eqs abs rootAbs then None
  else if negb (startsWith abs (rootAbs ++ NodePath.sep)) then None
  else Some abs.

(** The [while] loop of [cleanupEmptyDirs].  Every round shortens
    [current], so its length bounds the number of rounds. *)
Fixpoint cleanupLoop (fuel : nat) (rootAbs : jsstring) (d : Fs.fs)
  (current : jsstring) : Fs.fs :=
  match fuel with
  | O => d
  | S fuel' =>
      if startsWith current (rootAbs ++ NodePath.sep)
         && negb (eqs current rootAbs)
      then
        match Fs.readdir d current with
        | Throw _ => d
        | Ok (_ :: _) => d
        | Ok [] =>
            match Fs.rmdir d current with
            | Throw _ => d
            | Ok d' => cleanupLoop fuel' rootAbs d' (NodePath.dirname current)
            end
        end
      else d
  end.

(** [cleanupEmptyDirs(absFilePath, root)] *)
Definition cleanupEmptyDirs (P : Platform) (d : Fs.fs)
  (absFilePath root : jsstring) : Fs.fs :=
  cleanupLoop (S (List.length absFilePath)) (NodePath.resolve P [root]) d
    (NodePath.dirname absFilePath).

End PathUtils.

(* ------------------------------------------------------------------ *)
(** ** [Buffer] conversions and [crypto.timingSafeEqual] *)

Module Buffer.
Import Js.
Local Open Scope N_scope.

(** The base64url alphabet: [A-Z a-z 0-9 - _]. *)
Definition encodeSextet (n : N) : codeunit :=
  if n <? 26 then 65 + n
  else if n <? 52 then 97 + (n - 26)
  else if n <? 62 then 48 + (n - 52)
  else if n =? 62 then 45
  else 95.

(** Decoding accepts the base64 alphabet too. *)
Definition decodeUnit (c : codeunit) : option N :=
  if (65 <=? c) && (c <=? 90) then Some (c - 65)
  else if (97 <=? c) && (c <=? 122) then Some (c - 97 + 26)
  else if (48 <=? c) && (c <=? 57) then Some (c - 48 + 52)
  else if (c =? 45) || (c =? 43) then Some 62
  else if (c =? 95) || (c =? 47) then Some 63
  else None.

(** [buf.toString('base64url')]: no padding. *)
Fixpoint toBase64Url (bytes : list N) : jsstring :=
  match bytes with
  | b0 :: b1 :: b2 :: rest =>
      encodeSextet (b0 / 4)
      :: encodeSextet ((b0 mod 4) * 16 + b1 / 16)
      :: encodeSextet ((b1 mod 16) * 4 + b2 / 64)
      :: encodeSextet (b2 mod 64)
      :: toBase64Url rest
  | [b0; b1] =>
      [ encodeSextet (b0 / 4);
        encodeSextet ((b0 mod 4) * 16 + b1 / 16);
        encodeSextet ((b1 mod 16) * 4) ]
  | [b0] => [ encodeSextet (b0 / 4); encodeSextet ((b0 mod 4) * 16) ]
  | [] => []
  end.

(** The sextets of a string.  The decoder of Node.js reads every code unit
    through a cast to one byte, so a unit counts by its low byte, also when
    it is above 255; bytes outside the alphabet are skipped and decoding
    stops at the first [=]. *)
Fixpoint sextets (s : jsstring) : list N :=
  match s with
  | [] => []
  | c :: rest =>
      let b := c mod 256 in
      if b =? 61 then []
      else match decodeUnit b with
           | Some n => n :: sextets rest
           | None => sextets rest
           end
  end.

Fixpoint fromSextets (l : list N) : list N :=
  match l with
  | s0 :: s1 :: s2 :: s3 :: rest =>
      (s0 * 4 + s1 / 16)
      :: ((s1 mod 16) * 16 + s2 / 4)
      :: ((s2 mod 4) * 64 + s3)
      :: fromSextets rest
  | [s0; s1; s2] => [ s0 * 4 + s1 / 16; (s1 mod 16) * 16 + s2 / 4 ]
  | [s0; s1] => [ s0 * 4 + s1 / 16 ]
  | _ => []
  end.

(** [Buffer.from(s, 'base64url')] *)
Definition fromBase64Url (s : jsstring) : list N := fromSextets (sextets s).

Fixpoint bytesEq (a b : list N) : bool :=
  match a, b with
  | [], [] => true
  | x :: a', y :: b' => (x =? y) && bytesEq a' b'
  | _, _ => false
  end.

(** [crypto.timingSafeEqual(a, b)]: a [RangeError] when the byte lengths
    differ. *)
Definition timingSafeEqual (a b : list N) : result bool :=
  if (List.length a =? List.length b)%nat then Ok (bytesEq a b)
  else Throw RangeError.

End Buffer.

(* ------------------------------------------------------------------ *)
(** ** [src/index.ts]: configuration, signing, the private gate *)

Module Provider.
Import Js.
Local Open Scope N_scope.

(** The provider options that the operations below read. *)
Record Config : Type := {
  prefix : option jsstring;
  baseUrl : option jsstring;
  strictPathDir : bool;
  cleanupEmptyDirs : bool;
  cleanupEmptyAdminFolders : bool;
  usePathAsPathDir : bool;
  uploadsUrlMarker : option jsstring;
  renameToUuid : bool;
  privateEnable : bool;
  privateFolder : option jsstring;
  privateSecret : option jsstring;
  privateUserDocumentIdField : option jsstring;
  (** [strapi.dirs.static.public] *)
  publicDir : jsstring
}.

(** The fields of a file descriptor that the operations below read. *)
Record File : Type := {
  hash : jsstring;
  ext : option jsstring;
  mime : option jsstring;
  name : option jsstring;
  url : option jsstring;
  previewUrl : option jsstring;
  path : option jsstring;
  folder : option N;
  folderPath : option jsstring;
  (** the bytes of [stream] or of [buffer], when the file has one *)
  content : option (list N)
}.

Definition UPLOADS_FOLDER_NAME : jsstring := str "uploads".

(** [`${n}`] for an integer: decimal digits, with a sign when negative.
    This is what JavaScript prints for the integers a number holds exactly,
    those up to 2^53 in absolute value, which covers epoch seconds.  Beyond
    them a JavaScript number is a rounded value, printed with 17
    significant digits at most and in exponent form from 1e21 on: the
    statements that depend on the digits are made for integers within the
    exact range ([Props.safeInteger], [Props.exactSeconds]). *)
Definition numberToString (n : Z) : jsstring :=
  str (NilZero.string_of_int (Z.to_int n)).

(** [signPrivateUrl(secret, requestPath, expiresAt)] *)
Definition signPrivateUrl (P : Platform) (secret requestPath : jsstring)
  (expiresAt : Z) : jsstring :=
  let payload := requestPath ++ [LF] ++ numberToString expiresAt in
  let hmac := hmacSha256 P secret payload in
  Buffer.toBase64Url hmac.

(** [verifyPrivateUrlToken(secret, requestPath, expiresAt, token)] *)
Definition verifyPrivateUrlToken (P : Platform) (secret requestPath : jsstring)
  (expiresAt : Z) (token : jsstring) : result bool :=
  if falsy secret || falsy token then Ok false
  else
    let expected := signPrivateUrl P secret requestPath expiresAt in
    Buffer.timingSafeEqual (Buffer.fromBase64Url expected)
                           (Buffer.fromBase64Url token).

(** [s.replace(/^\/+|\/+$/g, '')] *)
Definition stripSlashes (s : jsstring) : jsstring :=
  dropWhileEnd NodePath.isSlash (dropWhile NodePath.isSlash s).

(** [normalizePrefix(prefix)] *)
Definition normalizePrefix (p : jsstring) : jsstring :=
  let p := dropWhileEnd NodePath.isSlash
             (dropWhile NodePath.isSlash (trim p)) in
  if falsy p then [] else p ++ [SLASH].

(** [join(...segments)] of [index.ts]; on no segment at all JavaScript would
    append [undefined]. *)
Fixpoint join (segments : list jsstring) : jsstring :=
  match segments with
  | [] => str "undefined"
  | [l] => l
  | l :: rest =>
      (if endsWith l [SLASH] || eqs l [] then l else l ++ [SLASH])
      ++ join rest
  end.

(** The constants [init] derives from the configuration. *)
Definition uploadPath (P : Platform) (c : Config) : jsstring :=
  NodePath.resolve P [publicDir c; UPLOADS_FOLDER_NAME].

Definition prefixOf (c : Config) : jsstring :=
  match prefix c with
  | Some p => if truthy p then normalizePrefix p else []
  | None => []
  end.

Definition markerOf (c : Config) : jsstring :=
  match uploadsUrlMarker c with
  | Some m => m
  | None => [SLASH] ++ UPLOADS_FOLDER_NAME ++ [SLASH]
  end.

Definition privateFolderNorm (c : Config) : jsstring :=
  if privateEnable c then
    let raw := match privateFolder c with
               | Some f => f
               | None => str "private"
               end in
    let t := trim (stripSlashes raw) in
    if falsy t then str "private" else t
  else [].

Definition privateSecretOf (c : Config) : jsstring :=
  match privateSecret c with Some s => s | None => [] end.

Definition privateUrlPrefix (c : Config) : jsstring :=
  [SLASH] ++ UPLOADS_FOLDER_NAME ++ [SLASH] ++ privateFolderNorm c ++ [SLASH].

(** [provider.isPrivate(file)] over the two constants of [init] it closes
    over; [None] is a call without a file. *)
Definition isPrivateWith (enabled : bool) (folderNorm : jsstring)
  (file : option File) : bool :=
  if negb enabled || falsy folderNorm then false
  else
    match file with
    | None => true
    | Some f =>
        let u := match url f with Some u => u | None => [] end in
        includes u ([SLASH] ++ UPLOADS_FOLDER_NAME ++ [SLASH]
                            ++ folderNorm ++ [SLASH])
    end.

Definition isPrivate (c : Config) : option File -> bool :=
  isPrivateWith (privateEnable c) (privateFolderNorm c).

(** *** The private gate *)

(** A row of [plugin::users-permissions.user]: the value of the configured
    document-id field, when it is set, and [String(user.id)]. *)
Record UserRow : Type := {
  documentIdField : option jsstring;
  userIdString : jsstring
}.

(** What the middleware reads from Strapi and from the clock. *)
Record GateEnv : Type := {
  (** [Date.now()], in milliseconds *)
  now : Z;
  (** [strapi.admin.services.token.decode], when the service exists: whether
      the decoded value is truthy *)
  adminDecode : option (jsstring -> result bool);
  (** [jwt.verify] of users-permissions, when the service exists:
      [decoded?.id ?? decoded?.sub] *)
  jwtVerify : option (jsstring -> result (option N));
  (** [findOne({ where: { id } })] on the users *)
  findUser : N -> result (option UserRow);
  disk : Fs.fs
}.

Record Request : Type := {
  method : jsstring;
  reqPath : jsstring;
  authorization : option jsstring;
  queryToken : option jsstring;
  queryExpires : option jsstring
}.

Inductive Response : Type :=
| Next                                  (* [return next()] *)
| Status (code : N)                     (* [ctx.status = code] *)
| Serve (absPath type : jsstring)       (* [ctx.body] streams the file *)
| Fault (e : exn).                      (* the middleware threw *)

Definition isDigit (c : codeunit) : bool := (48 <=? c) && (c <=? 57).

Definition digitsValue (ds : jsstring) : Z :=
  fold_left (fun acc d => (acc * 10 + Z.of_N (d - 48))%Z) ds 0%Z.

(** [parseInt(s, 10)]; [None] is [NaN].  The value is the integer that the
    digits denote, which is what JavaScript returns as long as that integer
    is at most 2^53 in absolute value; a longer number is rounded to the
    nearest double there, so the statements about the parsed expiry are
    made for values within the exact range ([Props.exactSeconds]). *)
Definition parseInt10 (s : jsstring) : option Z :=
  let s := dropWhile isWhiteSpace s in
  let '(neg, s) :=
    match s with
    | c :: r => if c =? 45 then (true, r)
                else if c =? 43 then (false, r) else (false, s)
    | [] => (false, s)
    end in
  match NodePath.takeWhile isDigit s with
  | [] => None
  | ds => Some (if neg then (- digitsValue ds)%Z else digitsValue ds)
  end.

(** The bearer credential of the [authorization] header. *)
Definition bearerOf (P : Platform) (h : option jsstring) : jsstring :=
  match h with
  | Some a =>
      if startsWith (toLowerCase P a) (str "bearer ") then trim (skipn 7 a)
      else []
  | None => []
  end.

(** The first [try] block: an admin token. *)
Definition adminAllows (e : GateEnv) (bearer : jsstring) : bool :=
  match adminDecode e with
  | Some decode =>
      match decode bearer with
      | Ok decoded => decoded
      | Throw _ => false
      end
  | None => false
  end.

(** The second [try] block: a user token whose user owns the folder. *)
Definition ownerAllows (e : GateEnv) (bearer documentIdInPath : jsstring)
  : bool :=
  match jwtVerify e with
  | Some verify =>
      match verify bearer with
      | Ok (Some userId) =>
          match findUser e userId with
          | Ok user =>
              let userDocumentId :=
                match user with
                | Some u =>
                    match documentIdField u with
                    | Some v => v
                    | None => userIdString u
                    end
                | None => []
                end in
              truthy userDocumentId && eqs documentIdInPath userDocumentId
          | Throw _ => false
          end
      | Ok None => false
      | Throw _ => false
      end
  | None => false
  end.

(** The signed-URL check; nothing catches what [verifyPrivateUrlToken]
    throws. *)
Definition hmacAllows (P : Platform) (c : Config) (e : GateEnv) (r : Request)
  : result bool :=
  let expiresNum :=
    match queryExpires r with
    | Some s => parseInt10 s
    | None => None
    end in
  match queryToken r, expiresNum with
  | Some token, Some n =>
      if truthy token && (now e <? n * 1000)%Z
      then verifyPrivateUrlToken P (privateSecretOf c) (reqPath r) n token
      else Ok false
  | _, _ => Ok false
  end.

(** [ctx.path.slice('/uploads/'.length)] *)
Definition pathAfterUploads (r : Request) : jsstring :=
  skipn (List.length ([SLASH] ++ UPLOADS_FOLDER_NAME ++ [SLASH])) (reqPath r).

(** [pathSegments[1] ?? ''] *)
Definition documentIdInPath (r : Request) : jsstring :=
  nth 1 (filter truthy (split SLASH (pathAfterUploads r))) [].

(** The value of [allowed] after the [if (bearerToken)] block. *)
Definition bearerAllows (P : Platform) (e : GateEnv) (r : Request) : bool :=
  let bearerToken := bearerOf P (authorization r) in
  if truthy bearerToken then
    adminAllows e bearerToken
    || ownerAllows e bearerToken (documentIdInPath r)
  else false.

(** The middleware registered when private mode is on. *)
Definition gate (P : Platform) (c : Config) (e : GateEnv) (r : Request)
  : Response :=
  if negb (eqs (method r) (str "GET"))
     || negb (startsWith (reqPath r) (privateUrlPrefix c))
  then Next
  else
    let objectPath :=
      replaceUnit BACKSLASH SLASH
        (dropWhile NodePath.isSlash (pathAfterUploads r)) in
    match PathUtils.safeResolveUnderRoot P (uploadPath P c) objectPath with
    | None => Status 404
    | Some absPath =>
        if negb (Fs.isFile (disk e) absPath) then Status 404
        else
          let allowed := bearerAllows P e r in
          let allowed' :=
            if negb allowed && truthy (privateSecretOf c)
            then hmacAllows P c e r
            else Ok allowed in
          match allowed' with
          | Throw x => Fault x
          | Ok false => Status 403
          | Ok true => Serve absPath (NodePath.extname absPath)
          end
    end.

(** What [init] hands to [strapi.server.use]: the middleware, when private
    mode is on and the folder name is not empty. *)
Definition serverMiddleware (P : Platform) (c : Config)
  : option (GateEnv -> Request -> Response) :=
  if privateEnable c && truthy (privateFolderNorm c) then Some (gate P c)
  else None.

(** *** Upload *)

(** [upload(file)]: the file's new [url] and the disk after the write.
    [uuid] is the value [crypto.randomUUID()] returns. *)
Definition upload (P : Platform) (c : Config) (uuid : jsstring) (file : File)
  (d : Fs.fs) : result (jsstring * Fs.fs) :=
  let rawPath := match path file with Some p => p | None => [] end in
  let dynamicPath :=
    if truthy rawPath then PathUtils.sanitizePathDir P rawPath else [] in
  if strictPathDir c && truthy rawPath && falsy dynamicPath
  then Throw (Error (str "Invalid file.path (sanitizes to empty)"))
  else
    let extOf := match ext file with Some e => e | None => [] end in
    let filename :=
      if renameToUuid c then uuid ++ [95] ++ hash file ++ extOf
      else hash file ++ extOf in
    let objectPath := join [prefixOf c; dynamicPath; filename] in
    let finalUploadPath := NodePath.join [uploadPath P c; objectPath] in
    let dir := NodePath.dirname finalUploadPath in
    match Fs.ensureDir (S (List.length dir)) d dir with
    | Throw x => Throw x
    | Ok d1 =>
        match content file with
        | None => Throw (Error (str "File must have either stream or buffer"))
        | Some bytes =>
            match Fs.writeFile d1 finalUploadPath bytes with
            | Throw x => Throw x
            | Ok d2 =>
                let newUrl :=
                  match baseUrl c with
                  | Some b =>
                      if truthy b then join [b; objectPath]
                      else [SLASH] ++ UPLOADS_FOLDER_NAME ++ [SLASH]
                           ++ objectPath
                  | None =>
                      [SLASH] ++ UPLOADS_FOLDER_NAME ++ [SLASH] ++ objectPath
                  end in
                Ok (newUrl, d2)
            end
        end
    end.

(** *** Cleanup of empty Media Library folders *)

(** A row of [plugin::upload.folder] as the cleanup reads it. *)
Record FolderRow : Type := {
  folderId : option N;
  folderRowPath : jsstring;
  folderParent : option N
}.

(** A row of [plugin::upload.file] as the cleanup reads it. *)
Record FileRow : Type := {
  fileFolder : option N;
  fileFolderPath : option jsstring
}.

(** The query engine and the folder service over a database state [DB].
    Queries read the state; only the deletion changes it.  Every call may
    throw. *)
Record Strapi (DB : Type) : Type := {
  (** [query('plugin::upload.folder').findOne({ where: { id } })] *)
  folderFindById : DB -> N -> result (option FolderRow);
  (** [query('plugin::upload.folder').findOne({ where: { path } })] *)
  folderFindByPath : DB -> jsstring -> result (option FolderRow);
  (** [query('plugin::upload.folder').count({ where: { parent } })] *)
  folderCountChildren : DB -> N -> result N;
  (** [query('plugin::upload.file').count({ where: { folderPath,
      hash: { $ne } } })] *)
  fileCountOthers : DB -> jsstring -> jsstring -> result N;
  (** [query('plugin::upload.file').findOne({ where: { hash } })] *)
  fileFindByHash : DB -> jsstring -> result (option FileRow);
  (** [deleteFolderById(id)]: [folderService.deleteByIds([id])], or the
      query engine's [delete] *)
  deleteFolderById : DB -> N -> result unit * DB
}.

Arguments folderFindById {DB}.
Arguments folderFindByPath {DB}.
Arguments folderCountChildren {DB}.
Arguments fileCountOthers {DB}.
Arguments fileFindByHash {DB}.
Arguments deleteFolderById {DB}.

(** An id that passes [if (!id)]: neither null nor 0. *)
Definition truthyId (o : option N) : option N :=
  match o with
  | Some 0 => None
  | other => other
  end.

(** What the walk did: the folders whose deletion it requested, in order,
    the database it left, and whether the loop ended ([false] when the
    rounds allowed by [fuel] were used up). *)
Record Walk (DB : Type) : Type := {
  requested : list N;
  finalDb : DB;
  ended : bool
}.

Arguments requested {DB}.
Arguments finalDb {DB}.
Arguments ended {DB}.

Section AdminFolders.
Context {DB : Type} (S0 : Strapi DB).

(** The [while (true)] loop of [maybeCleanupEmptyAdminFolders]. *)
Fixpoint walkUp (fuel : nat) (fileHash : jsstring) (db : DB) (folderId : N)
  : Walk DB :=
  match fuel with
  | O => {| requested := []; finalDb := db; ended := false |}
  | S fuel' =>
      let stop := {| requested := []; finalDb := db; ended := true |} in
      match folderFindById S0 db folderId with
      | Throw _ => stop
      | Ok None => stop
      | Ok (Some currentFolder) =>
          match folderCountChildren S0 db folderId with
          | Throw _ => stop
          | Ok childCount =>
              if 0 <? childCount then stop
              else
                match fileCountOthers S0 db (folderRowPath currentFolder)
                        fileHash with
                | Throw _ => stop
                | Ok fileCount =>
                    if 0 <? fileCount then stop
                    else
                      let parentId := folderParent currentFolder in
                      match deleteFolderById S0 db folderId with
                      | (Throw _, db') =>
                          {| requested := [folderId]; finalDb := db';
                             ended := true |}
                      | (Ok _, db') =>
                          match truthyId parentId with
                          | None =>
                              {| requested := [folderId]; finalDb := db';
                                 ended := true |}
                          | Some p =>
                              let w := walkUp fuel' fileHash db' p in
                              {| requested := folderId :: requested w;
                                 finalDb := finalDb w; ended := ended w |}
                          end
                      end
                end
          end
      end
  end.

Definition idByPath (db : DB) (p : jsstring) : result (option N) :=
  match folderFindByPath S0 db p with
  | Ok (Some f) => Ok (folderId f)
  | Ok None => Ok None
  | Throw x => Throw x
  end.

(** The folder the walk starts from: [file.folder], else the folder at
    [file.folderPath], else the folder of the file's own row. *)
Definition startFolder (file : File) (db : DB) : option N :=
  let folderPathFromPayload :=
    match folderPath file with
    | Some s => if truthy (trim s) then Some (trim s) else None
    | None => None
    end in
  let id1 := truthyId (folder file) in
  let id2 :=
    match id1, folderPathFromPayload with
    | None, Some p =>
        match idByPath db p with
        | Ok i => truthyId i
        | Throw _ => None
        end
    | _, _ => id1
    end in
  match id2 with
  | Some i => Some i
  | None =>
      match fileFindByHash S0 db (hash file) with
      | Throw _ => None
      | Ok None => None
      | Ok (Some dbFile) =>
          match truthyId (fileFolder dbFile), fileFolderPath dbFile with
          | Some i, _ => Some i
          | None, Some p =>
              if truthy p then
                match idByPath db p with
                | Ok i => truthyId i
                | Throw _ => None
                end
              else None
          | None, None => None
          end
      end
  end.

(** [maybeCleanupEmptyAdminFolders(file)] *)
Definition maybeCleanupEmptyAdminFolders (c : Config) (fuel : nat)
  (file : File) (db : DB) : Walk DB :=
  if negb (cleanupEmptyAdminFolders c)
  then {| requested := []; finalDb := db; ended := true |}
  else
    match startFolder file db with
    | None => {| requested := []; finalDb := db; ended := true |}
    | Some folderId => walkUp fuel (hash file) db folderId
    end.

End AdminFolders.

(** *** Delete *)

(** [set.add(x)] on a [Set] kept in insertion order. *)
Definition setAdd (x : jsstring) (l : list jsstring) : list jsstring :=
  if existsb (eqs x) l then l else l ++ [x].

(** [if (x) set.add(x)] for a string that may be null. *)
Definition setAddTruthy (x : option jsstring) (l : list jsstring)
  : list jsstring :=
  match x with
  | Some s => if truthy s then setAdd s l else l
  | None => l
  end.

Definition orEmpty (o : option jsstring) : jsstring :=
  match o with Some s => s | None => [] end.

Section Delete.
Context (P : Platform) (c : Config).

Definition objectFromUrl (file : File) : option jsstring :=
  Url.extractObjectPathFromUrl P (url file) (markerOf c) (baseUrl c).

Definition objectFromPreviewUrl (file : File) : option jsstring :=
  Url.extractObjectPathFromUrl P (previewUrl file) (markerOf c) (baseUrl c).

Definition extnameOfObject (o : option jsstring) : option jsstring :=
  match o with
  | Some p => if truthy p then Some (NodePath.extname p) else None
  | None => None
  end.

(** The extension candidates, in the order the source adds them. *)
Definition extCandidates (file : File) : list jsstring :=
  let s := setAddTruthy (Mime.normalizeExt (ext file)) [] in
  let s := setAddTruthy (extnameOfObject (objectFromUrl file)) s in
  let s := setAddTruthy (extnameOfObject (objectFromPreviewUrl file)) s in
  let nameExt :=
    match name file with
    | Some n => if truthy n then NodePath.extname n else []
    | None => []
    end in
  let s := setAddTruthy (Some nameExt) s in
  let s := setAddTruthy (Mime.extFromMime P (mime file)) s in
  match s with
  | [] => [[]]
  | _ => s
  end.

(** The object-path candidates, in the order the source adds them. *)
Definition objectPaths (file : File) : list jsstring :=
  let rawPath := orEmpty (path file) in
  let dynamicPathSanitized :=
    if truthy rawPath then PathUtils.sanitizePathDir P rawPath else [] in
  let dynamicPathRaw := PathUtils.normalizeRelativeSlashPath rawPath in
  let perExt :=
    fold_left
      (fun acc e =>
         let filename := hash file ++ e in
         let acc := setAdd (join [prefixOf c; dynamicPathSanitized; filename])
                      acc in
         let acc :=
           if truthy dynamicPathRaw
           then setAdd (join [prefixOf c; dynamicPathRaw; filename]) acc
           else acc in
         let acc := setAdd (join [prefixOf c; filename]) acc in
         setAdd filename acc)
      (extCandidates file) [] in
  setAddTruthy (objectFromPreviewUrl file)
    (setAddTruthy (objectFromUrl file) perExt).

(** What one round of the first loop looks at: the absolute path of a
    candidate that resolves under the root and exists on disk. *)
Definition directHit (d : Fs.fs) (objectPath : jsstring) : option jsstring :=
  let rel := PathUtils.normalizeRelativeSlashPath objectPath in
  if falsy rel then None
  else
    match PathUtils.safeResolveUnderRoot P (uploadPath P c) rel with
    | None => None
    | Some abs => if Fs.existsSync d abs then Some abs else None
    end.

(** The first loop runs until its first hit. *)
Definition firstDirectHit (d : Fs.fs) (candidates : list jsstring)
  : option jsstring :=
  hd_error (flat_map (fun o => match directHit d o with
                               | Some abs => [abs]
                               | None => []
                               end) candidates).

(** [s.lastIndexOf('/')], as the part of [s] before its last separator. *)
Definition beforeLastSlash (s : jsstring) : jsstring :=
  rev (tl (dropWhile NodePath.notSlash (rev s))).

(** The directories the second phase lists. *)
Definition dirCandidates (candidates : list jsstring) : list jsstring :=
  let fromPaths :=
    fold_left
      (fun acc objectPath =>
         let rel := PathUtils.normalizeRelativeSlashPath objectPath in
         if falsy rel then acc
         else
           let relDir :=
             if includes rel [SLASH] then beforeLastSlash rel else [] in
           match PathUtils.safeResolveUnderRoot P (uploadPath P c)
                   (if truthy relDir then relDir else [DOT]) with
           | Some absDir => setAdd absDir acc
           | None => acc
           end)
      candidates [] in
  setAdd (NodePath.resolve P [uploadPath P c]) fromPaths.

(** Equality of strings under the case folding of the [i] flag. *)
Fixpoint eqFold (a b : jsstring) : bool :=
  match a, b with
  | [], [] => true
  | x :: a', y :: b' =>
      (canonicalize P x =? canonicalize P y) && eqFold a' b'
  | _, _ => false
  end.

(** [[a-z0-9]] under the [i] flag. *)
Definition isFoldedAlnum (x : codeunit) : bool :=
  existsb (fun m => canonicalize P x =? canonicalize P m)
    (str "abcdefghijklmnopqrstuvwxyz0123456789").

(** [filenameRegex.test(name)].  Every regular-expression syntax character
    of the hash and of the extensions is escaped by [escapeRegexLiteral], so
    the first expression matches the names equal, up to case folding, to the
    hash followed by one known extension, and the second the names made of
    the hash, a dot and one to six letters or digits. *)
Definition filenameMatches (fileHash : jsstring) (knownExts : list jsstring)
  (entry : jsstring) : bool :=
  match knownExts with
  | _ :: _ => existsb (fun e => eqFold entry (fileHash ++ e)) knownExts
  | [] =>
      let h := firstn (List.length fileHash) entry in
      let rest := skipn (List.length fileHash) entry in
      eqFold h fileHash &&
      match rest with
      | dot :: tail =>
          (dot =? DOT) && (1 <=? List.length tail)%nat
          && (List.length tail <=? 6)%nat && forallb isFoldedAlnum tail
      | [] => false
      end
  end.

(** What the second phase looks at in one directory: the matching entries
    that resolve under the root and exist. *)
Definition scanDir (d : Fs.fs) (fileHash : jsstring)
  (knownExts : list jsstring) (dir : jsstring) : list jsstring :=
  match Fs.readdir d dir with
  | Throw _ => []
  | Ok entries =>
      flat_map
        (fun entry =>
           if filenameMatches fileHash knownExts entry then
             match PathUtils.safeResolveUnderRoot P (uploadPath P c)
                     (NodePath.relative P (uploadPath P c)
                        (NodePath.join [dir; entry])) with
             | Some abs => if Fs.existsSync d abs then [abs] else []
             | None => []
             end
           else [])
        entries
  end.

Definition firstScanHit (d : Fs.fs) (file : File) : option jsstring :=
  let knownExts := filter truthy (extCandidates file) in
  hd_error
    (flat_map (scanDir d (hash file) knownExts)
       (dirCandidates (objectPaths file))).

Definition notFoundMessage : jsstring :=
  str "File doesn't exist".

(** What a call of [delete] comes to: the value it resolves to ([None] is
    [undefined]) or the error it rejects with, and the disk and the database
    it leaves. *)
Record Deleted (DB : Type) : Type := {
  outcome : result (option jsstring);
  diskAfter : Fs.fs;
  dbAfter : DB;
  foldersRequested : list N
}.

Arguments outcome {DB}.
Arguments diskAfter {DB}.
Arguments dbAfter {DB}.
Arguments foldersRequested {DB}.

(** The tail shared by both phases once a hit is found: unlink, then the
    two cleanups.  [None] when the folder walk does not end within [fuel]
    rounds. *)
Definition removeHit {DB : Type} (S0 : Strapi DB) (fuel : nat) (file : File)
  (d : Fs.fs) (db : DB) (abs : jsstring) : option (Deleted DB) :=
  match Fs.unlink d abs with
  | Throw x =>
      Some {| outcome := Throw x; diskAfter := d; dbAfter := db;
              foldersRequested := [] |}
  | Ok d1 =>
      let d2 :=
        if cleanupEmptyDirs c
        then PathUtils.cleanupEmptyDirs P d1 abs (uploadPath P c)
        else d1 in
      let w := maybeCleanupEmptyAdminFolders S0 c fuel file db in
      if ended w then
        Some {| outcome := Ok None; diskAfter := d2; dbAfter := finalDb w;
                foldersRequested := requested w |}
      else None
  end.

(** [provider.delete(file)] *)
Definition delete {DB : Type} (S0 : Strapi DB) (fuel : nat) (file : File)
  (d : Fs.fs) (db : DB) : option (Deleted DB) :=
  match firstDirectHit d (objectPaths file) with
  | Some abs => removeHit S0 fuel file d db abs
  | None =>
      match firstScanHit d file with
      | Some abs => removeHit S0 fuel file d db abs
      | None =>
          Some {| outcome := Ok (Some notFoundMessage); diskAfter := d;
                  dbAfter := db; foldersRequested := [] |}
      end
  end.

End Delete.

End Provider.

(* ------------------------------------------------------------------ *)
(** ** A concrete platform

    Canonical decomposition restricted to the Latin-1 range, where it is a
    table look-up per code unit: no unit below U+0100 is a combining mark, so
    nothing is reordered.  The other fields are small stand-ins; they serve to
    run the provider on examples and to show that the assumptions made on
    the platform can be met. *)

Module Model.
Import Js.
Local Open Scope N_scope.

(** Canonical decompositions of U+00C0 .. U+00FF; [0] marks a unit that has
    none. *)
Definition latin1Table : list (N * N) :=
  [ (65,768); (65,769); (65,770); (65,771); (65,776); (65,778); (0,0);
    (67,807); (69,768); (69,769); (69,770); (69,776); (73,768); (73,769);
    (73,770); (73,776); (0,0); (78,771); (79,768); (79,769); (79,770);
    (79,771); (79,776); (0,0); (0,0); (85,768); (85,769); (85,770);
    (85,776); (89,769); (0,0); (0,0);
    (97,768); (97,769); (97,770); (97,771); (97,776); (97,778); (0,0);
    (99,807); (101,768); (101,769); (101,770); (101,776); (105,768);
    (105,769); (105,770); (105,776); (0,0); (110,771); (111,768); (111,769);
    (111,770); (111,771); (111,776); (0,0); (0,0); (117,768); (117,769);
    (117,770); (117,776); (121,769); (0,0); (121,776) ].

Definition decomposeLatin1 (c : codeunit) : jsstring :=
  if (192 <=? c) && (c <=? 255) then
    match nth (N.to_nat (c - 192)) latin1Table (0, 0) with
    | (0, _) => [c]
    | (b, m) => [b; m]
    end
  else [c].

Definition nfdLatin1 (s : jsstring) : jsstring := flat_map decomposeLatin1 s.

Definition lowerAscii (c : codeunit) : codeunit :=
  if (65 <=? c) && (c <=? 90) then c + 32 else c.

(** A keyed 32-byte digest standing in for HMAC-SHA256. *)
Definition digest32 (key msg : jsstring) : list N :=
  firstn 32 (map (fun c => c mod 256) (msg ++ key) ++ repeat 0 32).

Definition posix : Platform :=
  {| normalizeNFD := nfdLatin1;
     toLowerCase := map lowerAscii;
     canonicalize := lowerAscii;
     hmacSha256 := digest32;
     cwd := str "/srv/app";
     urlPathname := fun _ => Throw URIError;
     decodeURIComponent := fun s => Ok s |}.

(** *** A delete that meets a directory *)

(** Uploads are kept under the prefix [p]. *)
Definition prefixedConfig : Provider.Config :=
  {| Provider.prefix := Some (str "p");
     Provider.baseUrl := None;
     Provider.strictPathDir := false;
     Provider.cleanupEmptyDirs := false;
     Provider.cleanupEmptyAdminFolders := false;
     Provider.usePathAsPathDir := true;
     Provider.uploadsUrlMarker := None;
     Provider.renameToUuid := false;
     Provider.privateEnable := false;
     Provider.privateFolder := None;
     Provider.privateSecret := None;
     Provider.privateUserDocumentIdField := None;
     Provider.publicDir := str "/srv/app/public" |}.

(** A descriptor with a hash and an extension only. *)
Definition bareFile : Provider.File :=
  {| Provider.hash := str "a";
     Provider.ext := Some (str ".png");
     Provider.mime := None;
     Provider.name := None;
     Provider.url := None;
     Provider.previewUrl := None;
     Provider.path := None;
     Provider.folder := None;
     Provider.folderPath := None;
     Provider.content := None |}.

(** A disk where [p/a.png] is a directory and [a.png], at the root of the
    uploads, is a regular file. *)
Definition diskWithDirectory : Fs.fs :=
  [ (str "/srv/app/public/uploads", Fs.Dir);
    (str "/srv/app/public/uploads/p", Fs.Dir);
    (str "/srv/app/public/uploads/p/a.png", Fs.Dir);
    (str "/srv/app/public/uploads/a.png", Fs.File [137; 80; 78; 71]) ].

(** A disk with the uploads root and nothing in it. *)
Definition emptyUploads : Fs.fs :=
  [ (str "/srv/app/public/uploads", Fs.Dir) ].

(** *** A segment one unit over the cap *)

(** 127 letters, a hyphen and a letter: 129 units. *)
Definition overlongSegment : jsstring := repeat 97 127 ++ str "-b".

(** The same cut after 128 units: it ends with the hyphen. *)
Definition cutSegment : jsstring := repeat 97 127 ++ str "-".

(** Three segments of 128 letters, one of 124 and a fifth: joined, 513
    units. *)
Definition overlongPath : jsstring :=
  repeat 97 128 ++ str "/" ++ repeat 98 128 ++ str "/" ++ repeat 99 128
  ++ str "/" ++ repeat 100 124 ++ str "/e".

(** The same cut after 512 units: it ends with the separator. *)
Definition cutPath : jsstring :=
  repeat 97 128 ++ str "/" ++ repeat 98 128 ++ str "/" ++ repeat 99 128
  ++ str "/" ++ repeat 100 124 ++ str "/".

(** *** The upload of the concrete scenario *)

(** [Café/Ãrvore], precomposed: U+00E9 and U+00C3. *)
Definition cafePath : jsstring :=
  str "Caf" ++ [233] ++ str "/" ++ [195] ++ str "rvore".

Definition cafeObjectPath : jsstring := str "Cafe/Arvore/abc123.png".

(** *** A private file and two requests for it *)

Definition privateConfig : Provider.Config :=
  {| Provider.prefix := None;
     Provider.baseUrl := None;
     Provider.strictPathDir := false;
     Provider.cleanupEmptyDirs := false;
     Provider.cleanupEmptyAdminFolders := false;
     Provider.usePathAsPathDir := true;
     Provider.uploadsUrlMarker := None;
     Provider.renameToUuid := false;
     Provider.privateEnable := true;
     Provider.privateFolder := None;
     Provider.privateSecret := Some (str "s3cr3t");
     Provider.privateUserDocumentIdField := None;
     Provider.publicDir := str "/srv/app/public" |}.

Definition privateDisk : Fs.fs :=
  [ (str "/srv/app/public/uploads", Fs.Dir);
    (str "/srv/app/public/uploads/private", Fs.Dir);
    (str "/srv/app/public/uploads/private/42", Fs.Dir);
    (str "/srv/app/public/uploads/private/42/doc.pdf", Fs.File [37; 80]) ].

(** Both verifiers are there; the first throws on the credential, the second
    decodes nothing from it. *)
Definition gateEnv : Provider.GateEnv :=
  {| Provider.now := 1700000000000%Z;
     Provider.adminDecode := Some (fun _ => Throw ServiceError);
     Provider.jwtVerify := Some (fun _ => Ok None);
     Provider.findUser := fun _ => Ok None;
     Provider.disk := privateDisk |}.

Definition privatePath : jsstring := str "/uploads/private/42/doc.pdf".

(** A bad bearer credential and a signed url that expires in a minute. *)
Definition signedRequest : Provider.Request :=
  {| Provider.method := str "GET";
     Provider.reqPath := privatePath;
     Provider.authorization := Some (str "Bearer not-a-token");
     Provider.queryToken :=
       Some (Provider.signPrivateUrl posix (str "s3cr3t") privatePath
               1700000060%Z);
     Provider.queryExpires := Some (str "1700000060") |}.

(** Neither a credential nor a query string. *)
Definition bareRequest : Provider.Request :=
  {| Provider.method := str "GET";
     Provider.reqPath := privatePath;
     Provider.authorization := None;
     Provider.queryToken := None;
     Provider.queryExpires := None |}.

(** *** Defaults, and an upload with a payload *)

Definition defaultConfig : Provider.Config :=
  {| Provider.prefix := None;
     Provider.baseUrl := None;
     Provider.strictPathDir := false;
     Provider.cleanupEmptyDirs := false;
     Provider.cleanupEmptyAdminFolders := false;
     Provider.usePathAsPathDir := true;
     Provider.uploadsUrlMarker := None;
     Provider.renameToUuid := false;
     Provider.privateEnable := false;
     Provider.privateFolder := None;
     Provider.privateSecret := None;
     Provider.privateUserDocumentIdField := None;
     Provider.publicDir := str "/srv/app/public" |}.

Definition cafeFile : Provider.File :=
  {| Provider.hash := str "abc123";
     Provider.ext := Some (str ".png");
     Provider.mime := None;
     Provider.name := None;
     Provider.url := None;
     Provider.previewUrl := None;
     Provider.path := Some cafePath;
     Provider.folder := None;
     Provider.folderPath := None;
     Provider.content := Some [137; 80; 78; 71] |}.

(** The disk after that upload. *)
Definition cafeDisk : Fs.fs :=
  [ (str "/srv/app/public/uploads", Fs.Dir);
    (str "/srv/app/public/uploads/Cafe", Fs.Dir);
    (str "/srv/app/public/uploads/Cafe/Arvore", Fs.Dir);
    (str "/srv/app/public/uploads/Cafe/Arvore/abc123.png",
     Fs.File [137; 80; 78; 71]) ].

(** A database without folders or files, whose calls all succeed. *)
Definition emptyStrapi : Provider.Strapi unit :=
  {| Provider.folderFindById := fun _ _ => Ok None;
     Provider.folderFindByPath := fun _ _ => Ok None;
     Provider.folderCountChildren := fun _ _ => Ok 0;
     Provider.fileCountOthers := fun _ _ _ => Ok 0;
     Provider.fileFindByHash := fun _ _ => Ok None;
     Provider.deleteFolderById := fun db _ => (Ok tt, db) |}.

(** *** A database of folders and files kept in lists *)

Record Db : Type := {
  folders : list Provider.FolderRow;
  (** hash and folder path of every file *)
  files : list (jsstring * jsstring)
}.

Definition hasId (id : N) (f : Provider.FolderRow) : bool :=
  match Provider.folderId f with
  | Some i => i =? id
  | None => false
  end.

Definition hasParent (id : N) (f : Provider.FolderRow) : bool :=
  match Provider.folderParent f with
  | Some i => i =? id
  | None => false
  end.

(** A query engine over [Db] whose calls all succeed; deleting a folder
    removes its row. *)
Definition listStrapi : Provider.Strapi Db :=
  {| Provider.folderFindById := fun db id => Ok (find (hasId id) (folders db));
     Provider.folderFindByPath := fun db p =>
       Ok (find (fun f => eqs (Provider.folderRowPath f) p) (folders db));
     Provider.folderCountChildren := fun db id =>
       Ok (N.of_nat (List.length (filter (hasParent id) (folders db))));
     Provider.fileCountOthers := fun db p h =>
       Ok (N.of_nat
             (List.length
                (filter (fun f => eqs (snd f) p && negb (eqs (fst f) h))
                   (files db))));
     Provider.fileFindByHash := fun db h =>
       Ok (match find (fun f => eqs (fst f) h) (files db) with
           | Some f => Some {| Provider.fileFolder := None;
                               Provider.fileFolderPath := Some (snd f) |}
           | None => None
           end);
     Provider.deleteFolderById := fun db id =>
       (Ok tt, {| folders := filter (fun f => negb (hasId id f)) (folders db);
                  files := files db |}) |}.

(** Folder 3 inside folder 2 inside folder 1; the file to delete is the only
    one of folder 3, and folder 1 holds another file. *)
Definition nestedFolders : Db :=
  {| folders :=
       [ {| Provider.folderId := Some 1; Provider.folderRowPath := str "/1";
            Provider.folderParent := None |};
         {| Provider.folderId := Some 2; Provider.folderRowPath := str "/1/2";
            Provider.folderParent := Some 1 |};
         {| Provider.folderId := Some 3;
            Provider.folderRowPath := str "/1/2/3";
            Provider.folderParent := Some 2 |} ];
     files := [ (str "abc123", str "/1/2/3"); (str "other", str "/1") ] |}.

Definition cleaningConfig : Provider.Config :=
  {| Provider.prefix := None;
     Provider.baseUrl := None;
     Provider.strictPathDir := false;
     Provider.cleanupEmptyDirs := true;
     Provider.cleanupEmptyAdminFolders := true;
     Provider.usePathAsPathDir := true;
     Provider.uploadsUrlMarker := None;
     Provider.renameToUuid := false;
     Provider.privateEnable := false;
     Provider.privateFolder := None;
     Provider.privateSecret := None;
     Provider.privateUserDocumentIdField := None;
     Provider.publicDir := str "/srv/app/public" |}.

(** The descriptor of the file of folder 3, known by its folder path. *)
Definition filedFile : Provider.File :=
  {| Provider.hash := str "abc123";
     Provider.ext := Some (str ".png");
     Provider.mime := None;
     Provider.name := None;
     Provider.url := None;
     Provider.previewUrl := None;
     Provider.path := Some (str "Cafe/Arvore");
     Provider.folder := None;
     Provider.folderPath := Some (str "/1/2/3");
     Provider.content := None |}.

End Model.


(* ------------------------------------------------------------------ *)
(** ** Predicates the statements are written with *)

Module Props.
Import Js.
Local Open Scope N_scope.

(** A path segment that names an entry: not empty, neither [.] nor [..],
    and without a separator inside. *)
Definition properSegment (seg : jsstring) : Prop :=
  seg <> [] /\ seg <> [DOT] /\ seg <> [DOT; DOT] /\ ~ In SLASH seg.

(** [abs] lies strictly inside the directory [rootAbs]: it is [rootAbs]
    followed by one or more proper segments. *)
Definition strictlyInside (rootAbs abs : jsstring) : Prop :=
  exists rest,
    rest <> [] /\ Forall properSegment rest /\
    abs = rootAbs ++ NodePath.sep ++ join NodePath.sep rest.

(** A path as [path.resolve] returns it: a separator followed by proper
    segments joined by single separators. *)
Definition resolvedPath (p : jsstring) : Prop :=
  exists segs,
    Forall properSegment segs /\ p = SLASH :: join NodePath.sep segs.

(** [process.cwd()] is an absolute path. *)
Definition cwdAbsolute (P : Platform) : Prop :=
  NodePath.isAbsolute (cwd P) = true.

(** An integer that a JavaScript number holds exactly and that no other
    integer is rounded to: at most [Number.MAX_SAFE_INTEGER], 2^53 - 1, in
    absolute value.  [String] prints it in decimal digits and [parseInt]
    reads them back. *)
Definition safeInteger (n : Z) : Prop :=
  (Z.abs n <= 9007199254740991)%Z.

(** A number of seconds whose milliseconds are a safe integer too: the
    product [n * 1000] of the gate is exact. *)
Definition exactSeconds (n : Z) : Prop :=
  (Z.abs n * 1000 <= 9007199254740991)%Z.

(** The digest of HMAC-SHA256 is 32 bytes. *)
Definition hmacIsDigest (P : Platform) : Prop :=
  forall key msg,
    List.length (hmacSha256 P key msg) = 32%nat /\
    Forall (fun b => b < 256) (hmacSha256 P key msg).

(** The request is one the gate decides on: a GET under the private prefix
    whose path names a regular file [absPath] under the uploads root. *)
Definition namesPrivateFile (P : Platform) (c : Provider.Config)
  (e : Provider.GateEnv) (r : Provider.Request) (absPath : jsstring) : Prop :=
  Provider.method r = str "GET" /\
  startsWith (Provider.reqPath r) (Provider.privateUrlPrefix c) = true /\
  PathUtils.safeResolveUnderRoot P (Provider.uploadPath P c)
    (replaceUnit BACKSLASH SLASH
       (dropWhile NodePath.isSlash (Provider.pathAfterUploads r)))
  = Some absPath /\
  Fs.isFile (Provider.disk e) absPath = true.

(** A verifier that is absent, throws, or returns nothing usable. *)
Definition verifierFails {A : Type} (usable : A -> bool)
  (verifier : option (jsstring -> result A)) (bearer : jsstring) : Prop :=
  match verifier with
  | None => True
  | Some v =>
      match v bearer with
      | Throw _ => True
      | Ok a => usable a = false
      end
  end.

(** The bearer credential of the request is invalid: the admin verifier
    fails on it and so does the users-permissions verifier. *)
Definition invalidBearer (P : Platform) (e : Provider.GateEnv)
  (r : Provider.Request) : Prop :=
  let bearer := Provider.bearerOf P (Provider.authorization r) in
  verifierFails (fun decoded : bool => decoded) (Provider.adminDecode e) bearer
  /\
  verifierFails (fun id : option N => match id with
                                      | Some _ => true
                                      | None => false
                                      end)
    (Provider.jwtVerify e) bearer.

(** The query string carries the token signed for the request path and for
    the expiry it states. *)
Definition carriesSignedToken (P : Platform) (c : Provider.Config)
  (r : Provider.Request) (expiry : Z) : Prop :=
  exists expires,
    Provider.queryExpires r = Some expires /\
    Provider.parseInt10 expires = Some expiry /\
    Provider.queryToken r
    = Some (Provider.signPrivateUrl P (Provider.privateSecretOf c)
              (Provider.reqPath r) expiry).


(** The places where [delete] looks for the file: the paths that the
    candidates of the first loop resolve to, and the paths that the entries
    matched by the second loop resolve to.  [holds abs] is what is required
    of every such path. *)
Definition everyPlace (P : Platform) (c : Provider.Config)
  (file : Provider.File) (d : Fs.fs) (holds : jsstring -> Prop) : Prop :=
  (forall o abs,
     In o (Provider.objectPaths P c file) ->
     PathUtils.normalizeRelativeSlashPath o <> [] ->
     PathUtils.safeResolveUnderRoot P (Provider.uploadPath P c)
       (PathUtils.normalizeRelativeSlashPath o) = Some abs ->
     holds abs) /\
  (forall dir entries entry abs,
     In dir (Provider.dirCandidates P c (Provider.objectPaths P c file)) ->
     Fs.readdir d dir = Ok entries ->
     In entry entries ->
     Provider.filenameMatches P (Provider.hash file)
       (filter truthy (Provider.extCandidates P c file)) entry = true ->
     PathUtils.safeResolveUnderRoot P (Provider.uploadPath P c)
       (NodePath.relative P (Provider.uploadPath P c)
          (NodePath.join [dir; entry]))
     = Some abs ->
     holds abs).

(** Neither phase of [delete] finds a matching file: no place holds a
    regular file. *)
Definition noMatchingFile (P : Platform) (c : Provider.Config)
  (file : Provider.File) (d : Fs.fs) : Prop :=
  everyPlace P c file d (fun abs => Fs.isFile d abs = false).

(** No place holds anything, be it a file or a directory. *)
Definition nothingExists (P : Platform) (c : Provider.Config)
  (file : Provider.File) (d : Fs.fs) : Prop :=
  everyPlace P c file d (fun abs => Fs.existsSync d abs = false).

(** *** Shapes of sanitised strings *)

(** The string does not start with a unit of the class. *)
Definition startsNot (f : codeunit -> bool) (s : jsstring) : Prop :=
  match s with
  | [] => True
  | x :: _ => f x = false
  end.

(** A string that neither starts nor ends with a unit of the class. *)
Definition trimmedOf (f : codeunit -> bool) (s : jsstring) : Prop :=
  startsNot f s /\ startsNot f (rev s).

(** No two units of the class in a row; [prev] tells that the unit before
    the string is one. *)
Fixpoint noRuns (f : codeunit -> bool) (prev : bool) (s : jsstring) : Prop :=
  match s with
  | [] => True
  | x :: r => (prev = true -> f x = false) /\ noRuns f (f x) r
  end.

(** What [sanitizeAdminFolderName] returns: units of the folder alphabet,
    single spaces inside only, at most 128 units. *)
Definition folderName (s : jsstring) : Prop :=
  Forall (fun c => PathUtils.isFolderUnit c = true) s /\
  noRuns isWhiteSpace false s /\
  trimmedOf isWhiteSpace s /\
  (List.length s <= 128)%nat.

(** A segment as the loop of [sanitizePathDir] leaves it when the cap does
    not cut: units of the directory alphabet, no two hyphens in a row,
    neither a dot nor a hyphen in front, no hyphen at the end, between 1 and
    128 units. *)
Definition dirSegment (s : jsstring) : Prop :=
  Forall (fun c => PathUtils.isDirUnit c = true) s /\
  noRuns PathUtils.isHyphen false s /\
  s <> [] /\
  startsNot PathUtils.isDotOrHyphen s /\
  startsNot PathUtils.isHyphen (rev s) /\
  (List.length s <= 128)%nat.

(** [normalize('NFD')] is canonical decomposition: on a string of code units
    below U+0100 it replaces every unit by its decomposition, and a
    decomposed string is left as it is. *)
Definition nfdIsCanonical (P : Platform) : Prop :=
  (forall s, Forall (fun c => c < 256) s ->
             normalizeNFD P s = Model.nfdLatin1 s) /\
  (forall s, normalizeNFD P (normalizeNFD P s) = normalizeNFD P s).

(** *** The folder walk, after the specification *)

Section WalkSpec.
Context {DB : Type} (S0 : Provider.Strapi DB) (fileHash : jsstring).

(** A folder that may be deleted: it is there, it has no child folder, and
    no file other than the one being deleted is recorded under its path. *)
Definition eligible (db : DB) (id : N) (row : Provider.FolderRow) : Prop :=
  Provider.folderFindById S0 db id = Ok (Some row) /\
  Provider.folderCountChildren S0 db id = Ok 0 /\
  Provider.fileCountOthers S0 db (Provider.folderRowPath row) fileHash = Ok 0.

(** The walk from folder [id] in database [db]: the deletions it requests
    and the database it leaves.  It stops at the first folder that is not
    eligible (a query that throws makes it so), after a deletion that
    throws, and after deleting a folder without a parent. *)
Inductive walkSpec : DB -> N -> list N -> DB -> Prop :=
| walk_stop (db : DB) (id : N) :
    (forall row, ~ eligible db id row) ->
    walkSpec db id [] db
| walk_delete_throws (db : DB) (id : N) (row : Provider.FolderRow)
    (x : exn) (db' : DB) :
    eligible db id row ->
    Provider.deleteFolderById S0 db id = (Throw x, db') ->
    walkSpec db id [id] db'
| walk_top (db : DB) (id : N) (row : Provider.FolderRow) (u : unit)
    (db' : DB) :
    eligible db id row ->
    Provider.deleteFolderById S0 db id = (Ok u, db') ->
    Provider.truthyId (Provider.folderParent row) = None ->
    walkSpec db id [id] db'
| walk_up (db : DB) (id : N) (row : Provider.FolderRow) (u : unit)
    (db' : DB) (parent : N) (l : list N) (db'' : DB) :
    eligible db id row ->
    Provider.deleteFolderById S0 db id = (Ok u, db') ->
    Provider.truthyId (Provider.folderParent row) = Some parent ->
    walkSpec db' parent l db'' ->
    walkSpec db id (id :: l) db''.

(** Every request of a run, finished or not, was made on an eligible folder
    reached by going from a deleted folder to its parent. *)
Inductive requestsJustified : DB -> N -> list N -> Prop :=
| justified_none (db : DB) (id : N) : requestsJustified db id []
| justified_last (db : DB) (id : N) (row : Provider.FolderRow) :
    eligible db id row ->
    requestsJustified db id [id]
| justified_more (db : DB) (id : N) (row : Provider.FolderRow) (u : unit)
    (db' : DB) (parent : N) (l : list N) :
    eligible db id row ->
    Provider.deleteFolderById S0 db id = (Ok u, db') ->
    Provider.truthyId (Provider.folderParent row) = Some parent ->
    requestsJustified db' parent l ->
    requestsJustified db id (id :: l).

End WalkSpec.

End Props.

(* ------------------------------------------------------------------ *)
(** ** [encodeURIComponent] *)

Module Uri.
Import Js.
Local Open Scope N_scope.

(** The units [encodeURIComponent] leaves as they are: letters, digits and
    [-_.!~*'()]. *)
Definition isUnreserved (c : codeunit) : bool :=
  PathUtils.isAlnum c || existsb (N.eqb c) (str "-_.!~*'()").

Definition isLeadSurrogate (c : codeunit) : bool :=
  (55296 <=? c) && (c <=? 56319).

Definition isTrailSurrogate (c : codeunit) : bool :=
  (56320 <=? c) && (c <=? 57343).

Definition hexDigit (n : N) : codeunit :=
  if n <? 10 then 48 + n else 55 + n.

(** [%XX] for one octet. *)
Definition percent (octet : N) : jsstring :=
  [37; hexDigit (octet / 16); hexDigit (octet mod 16)].

(** The octets of the UTF-8 form of a code point. *)
Definition utf8 (cp : N) : list N :=
  if cp <? 128 then [cp]
  else if cp <? 2048 then [192 + cp / 64; 128 + cp mod 64]
  else if cp <? 65536
  then [224 + cp / 4096; 128 + (cp / 64) mod 64; 128 + cp mod 64]
  else [240 + cp / 262144; 128 + (cp / 4096) mod 64;
        128 + (cp / 64) mod 64; 128 + cp mod 64].

Definition prepend (p : jsstring) (r : result jsstring) : result jsstring :=
  match r with
  | Ok s => Ok (p ++ s)
  | Throw x => Throw x
  end.

(** [encodeURIComponent(s)]: a [URIError] on a surrogate without its
    pair. *)
Fixpoint encodeURIComponent (s : jsstring) : result jsstring :=
  match s with
  | [] => Ok []
  | c :: rest =>
      if isUnreserved c then prepend [c] (encodeURIComponent rest)
      else if isLeadSurrogate c then
        match rest with
        | c2 :: rest' =>
            if isTrailSurrogate c2 then
              let cp := 65536 + (c - 55296) * 1024 + (c2 - 56320) in
              prepend (flat_map percent (utf8 cp)) (encodeURIComponent rest')
            else Throw URIError
        | [] => Throw URIError
        end
      else if isTrailSurrogate c then Throw URIError
      else prepend (flat_map percent (utf8 c)) (encodeURIComponent rest)
  end.

End Uri.

(* ------------------------------------------------------------------ *)
(** ** [src/index.ts]: signed urls *)

Module SignedUrl.
Import Js Provider.
Local Open Scope N_scope.

(** The number in [config.privateTTL]: a finite number, given by its floor,
    or one of the three that are not finite. *)
Inductive TtlOption : Type :=
| TtlFloor (floor : Z)
| TtlNaN
| TtlInfinity
| TtlMinusInfinity.

(** The constant [privateTTL] of [init],
    [Math.max(1, Math.floor(config.privateTTL ?? 60))], when it is finite;
    [None] when it is [NaN] or [Infinity], which [Math.floor] and
    [Math.max] hand on. *)
Definition privateTTLOf (ttl : option TtlOption) : option Z :=
  match ttl with
  | None => Some 60%Z
  | Some (TtlFloor t) => Some (Z.max 1 t)
  | Some TtlMinusInfinity => Some 1%Z
  | Some TtlNaN => None
  | Some TtlInfinity => None
  end.

(** [provider.getSignedUrl(file)], over the constant [privateTTL] when it is
    finite; [nowMs] is the value of [Date.now()].  The sum is the one of
    JavaScript as long as it is a safe integer. *)
Definition getSignedUrl (P : Platform) (c : Config) (privateTTL : Z)
  (nowMs : Z) (file : File) : result jsstring :=
  let raw := match url file with Some u => u | None => [] end in
  if negb (privateEnable c) || falsy (privateSecretOf c) || falsy raw
  then Ok raw
  else
    let canonicalUrl := Url.beforeQuery raw in
    let requestPath :=
      if startsWith canonicalUrl (str "http")
      then urlPathname P canonicalUrl
      else Ok canonicalUrl in
    match requestPath with
    | Throw x => Throw x
    | Ok requestPath =>
        let expiresAt := (nowMs / 1000 + privateTTL)%Z in
        let token :=
          signPrivateUrl P (privateSecretOf c) requestPath expiresAt in
        match Uri.encodeURIComponent token with
        | Throw x => Throw x
        | Ok encoded =>
            Ok (canonicalUrl ++ str "?token=" ++ encoded
                ++ str "&expires=" ++ numberToString expiresAt)
        end
    end.

End SignedUrl.

(* ------------------------------------------------------------------ *)
(** ** [src/index.ts]: the patch of the upload service *)

Module UploadService.
Import Js Provider.
Local Open Scope N_scope.

(** The folder queries and the folder service over a database state [DB].
    [User] is what [uploadOpts.user] holds.  Every call may throw. *)
Record FolderStore (DB User : Type) : Type := {
  (** [query('plugin::upload.folder').findOne({ where: { name, parent } })] *)
  findByName : DB -> jsstring -> option N -> result (option FolderRow);
  (** [folderService.create({ name, parent }, opts)], when the service has
      it: the [id] of the row it resolves to, a number *)
  createFolder :
    option (DB -> jsstring -> option N -> option User -> result N * DB)
}.

Arguments findByName {DB User}.
Arguments createFolder {DB User}.

(** What a call of [ensureUploadFolderFromPath] comes to: the id it
    resolves to or the error it rejects with, the database it leaves, and
    the [create] calls it made, in order, each with its name and parent. *)
Record Ensured (DB : Type) : Type := {
  leaf : result N;
  foldersAfter : DB;
  createCalls : list (jsstring * option N)
}.

Arguments leaf {DB}.
Arguments foldersAfter {DB}.
Arguments createCalls {DB}.

(** The value of [parent] after the loop, [None] for [null]. *)
Record Walked (DB : Type) : Type := {
  lastParent : result (option N);
  walkedDb : DB;
  walkedCalls : list (jsstring * option N)
}.

Arguments lastParent {DB}.
Arguments walkedDb {DB}.
Arguments walkedCalls {DB}.

Section Folders.
Context {DB User : Type} (S0 : FolderStore DB User).

(** [existing?.id], when it is truthy. *)
Definition existingId (existing : option FolderRow) : option N :=
  match existing with
  | Some row => truthyId (folderId row)
  | None => None
  end.

(** The [for] loop of [ensureUploadFolderFromPath]. *)
Fixpoint ensureLoop
  (create : DB -> jsstring -> option N -> option User -> result N * DB)
  (user : option User) (parts : list jsstring) (parent : option N) (db : DB)
  : Walked DB :=
  match parts with
  | [] => {| lastParent := Ok parent; walkedDb := db; walkedCalls := [] |}
  | name :: rest =>
      match findByName S0 db name parent with
      | Throw x =>
          {| lastParent := Throw x; walkedDb := db; walkedCalls := [] |}
      | Ok existing =>
          match existingId existing with
          | Some id => ensureLoop create user rest (Some id) db
          | None =>
              match create db name parent user with
              | (Throw x, db') =>
                  {| lastParent := Throw x; walkedDb := db';
                     walkedCalls := [(name, parent)] |}
              | (Ok id, db') =>
                  let w := ensureLoop create user rest (Some id) db' in
                  {| lastParent := lastParent w; walkedDb := walkedDb w;
                     walkedCalls := (name, parent) :: walkedCalls w |}
              end
          end
      end
  end.

(** [ensureUploadFolderFromPath(folderPath, { user })] *)
Definition ensureUploadFolderFromPath (P : Platform) (user : option User)
  (folderPath : jsstring) (db : DB) : Ensured DB :=
  let sanitizedFolderPath := PathUtils.sanitizeAdminFolderPath P folderPath in
  let parts :=
    filter truthy (map trim (split SLASH sanitizedFolderPath)) in
  match parts with
  | [] =>
      {| leaf := Throw (Error (str "Invalid folder path"));
         foldersAfter := db; createCalls := [] |}
  | _ :: _ =>
      match createFolder S0 with
      | None =>
          {| leaf :=
               Throw (Error (str "Upload folder service is not available"));
             foldersAfter := db; createCalls := [] |}
      | Some create =>
          let w := ensureLoop create user parts None db in
          {| leaf :=
               match lastParent w with
               | Throw x => Throw x
               | Ok parent =>
                   match truthyId parent with
                   | Some id => Ok id
                   | None =>
                       Throw (Error
                                (str "Could not create or resolve folder path"))
                   end
               end;
             foldersAfter := walkedDb w;
             createCalls := walkedCalls w |}
      end
  end.

End Folders.

(** A property of [data]: missing, a value that is not a string, or a
    string. *)
Inductive Field : Type :=
| Absent
| NotString
| Str (s : jsstring).

(** [getStringOrUndefined(data.x)] *)
Definition fieldString (f : Field) : option jsstring :=
  match f with
  | Str s => Strings.getStringOrUndefined (Some s)
  | _ => None
  end.

(** One [fileInfo] object: its [folder] and its other properties, which the
    spread keeps. *)
Record Info (Others : Type) : Type := {
  infoFolder : option N;
  infoOthers : Others
}.

Arguments infoFolder {Others}.
Arguments infoOthers {Others}.

(** [data.fileInfo]: missing or null, one object, or an array whose entries
    are objects or null. *)
Inductive FileInfo (Others : Type) : Type :=
| InfoMissing
| InfoOne (i : Info Others)
| InfoMany (l : list (option (Info Others))).

Arguments InfoMissing {Others}.
Arguments InfoOne {Others} i.
Arguments InfoMany {Others} l.

(** The properties of [data] that the mapping reads or writes. *)
Record UploadData (Others : Type) : Type := {
  (** [data.private === true] *)
  dataPrivate : bool;
  dataPathDir : Field;
  dataPath : Field;
  dataFileInfo : FileInfo Others
}.

Arguments dataPrivate {Others}.
Arguments dataPathDir {Others}.
Arguments dataPath {Others}.
Arguments dataFileInfo {Others}.

(** What a call of [applyPathMapping] comes to: [changed] or the error, the
    [data] object as the call leaves it, the database, and the [create]
    calls. *)
Record Mapped (DB Others : Type) : Type := {
  changed : result bool;
  dataAfter : UploadData Others;
  mappedDb : DB;
  mappedCalls : list (jsstring * option N)
}.

Arguments changed {DB Others}.
Arguments dataAfter {DB Others}.
Arguments mappedDb {DB Others}.
Arguments mappedCalls {DB Others}.

Section Mapping.
Context {DB User Others : Type} (S0 : FolderStore DB User).
(** The properties of [{}]. *)
Context (noOthers : Others).

(** [{ ...(fi ?? {}), folder: folderId }] *)
Definition withFolder (folderId : N) (fi : option (Info Others))
  : Info Others :=
  {| infoFolder := Some folderId;
     infoOthers := match fi with
                   | Some i => infoOthers i
                   | None => noOthers
                   end |}.

(** The [fileInfo] that step 1 writes. *)
Definition setFolder (folderId : N) (fi : FileInfo Others) : FileInfo Others :=
  match fi with
  | InfoMany l => InfoMany (map (fun i => Some (withFolder folderId i)) l)
  | InfoOne i => InfoOne (withFolder folderId (Some i))
  | InfoMissing => InfoOne (withFolder folderId None)
  end.

(** The folder name of the private branch:
    [patchOpts.privateFolder.replace(/^\/+|\/+$/g, '').trim() || 'private'] *)
Definition patchFolderNorm (privateFolder : jsstring) : jsstring :=
  let t := trim (stripSlashes privateFolder) in
  if falsy t then str "private" else t.

(** The messages of the private branch. *)
Definition privateNeedsPathDir : jsstring :=
  str "When data.private is true, pathDir (documentId) is required "
  ++ str "and privateFolder must be set".

Definition privateEmptyPathDir : jsstring :=
  str "When data.private is true, pathDir (documentId) must not "
  ++ str "sanitize to empty".

(** [applyPathMapping(data, uploadOpts)], over the options [init] passes to
    the patch: [privateFolder] is [privateFolderNorm || undefined]. *)
Definition applyPathMapping (P : Platform) (c : Config) (user : option User)
  (data : UploadData Others) (db : DB) : Mapped DB Others :=
  let isPrivate := privateEnable c && dataPrivate data in
  let pathDirRaw := fieldString (dataPathDir data) in
  let adminPath0 := fieldString (dataPath data) in
  let fail (msg : string) (d : UploadData Others) (db' : DB)
           (calls : list (jsstring * option N)) :=
    {| changed := Throw (Error (str msg)); dataAfter := d; mappedDb := db';
       mappedCalls := calls |} in
  (* the private branch: the admin path and the data it leaves, or an error *)
  let private : result (option jsstring * UploadData Others) :=
    if isPrivate then
      match pathDirRaw with
      | None =>
          Throw (Error privateNeedsPathDir)
      | Some raw =>
          if falsy (privateFolderNorm c) then
            Throw (Error privateNeedsPathDir)
          else
            let documentId := PathUtils.sanitizePathDir P raw in
            if falsy documentId then
              Throw (Error privateEmptyPathDir)
            else
              let adminPath :=
                patchFolderNorm (privateFolderNorm c) ++ [SLASH]
                ++ documentId in
              Ok (Some adminPath,
                  {| dataPrivate := dataPrivate data;
                     dataPathDir := Absent;
                     dataPath := Str adminPath;
                     dataFileInfo := dataFileInfo data |})
      end
    else Ok (adminPath0, data) in
  match private with
  | Throw x =>
      {| changed := Throw x; dataAfter := data; mappedDb := db;
         mappedCalls := [] |}
  | Ok (adminPath, data1) =>
      let noAdminPath :=
        match adminPath with Some a => falsy a | None => true end in
      let noPathDir :=
        match pathDirRaw with Some _ => false | None => true end in
      if noAdminPath && noPathDir && negb isPrivate then
        {| changed := Ok false; dataAfter := data1; mappedDb := db;
           mappedCalls := [] |}
      else
        (* 1) the Media Library folder *)
        let step1 : result (UploadData Others) * DB
                    * list (jsstring * option N) :=
          if noAdminPath then (Ok data1, db, [])
          else
            let e := ensureUploadFolderFromPath S0 P user
                       (orEmpty adminPath) db in
            match leaf e with
            | Throw x => (Throw x, foldersAfter e, createCalls e)
            | Ok folderId =>
                (Ok {| dataPrivate := dataPrivate data1;
                       dataPathDir := dataPathDir data1;
                       dataPath := dataPath data1;
                       dataFileInfo :=
                         setFolder folderId (dataFileInfo data1) |},
                 foldersAfter e, createCalls e)
            end in
        match step1 with
        | (Throw x, db', calls) =>
            {| changed := Throw x; dataAfter := data1; mappedDb := db';
               mappedCalls := calls |}
        | (Ok data2, db', calls) =>
            (* 2) the filesystem path *)
            if isPrivate then
              {| changed := Ok true; dataAfter := data2; mappedDb := db';
                 mappedCalls := calls |}
            else
              let fsPathSource :=
                match pathDirRaw with
                | Some raw => raw
                | None =>
                    if usePathAsPathDir c then orEmpty adminPath else []
                end in
              let fsPath :=
                if truthy fsPathSource
                then PathUtils.sanitizePathDir P fsPathSource else [] in
              if negb noPathDir && strictPathDir c && falsy fsPath then
                {| changed :=
                     Throw (Error (str "Invalid pathDir (sanitizes to empty)"));
                   dataAfter := data2; mappedDb := db';
                   mappedCalls := calls |}
              else
                {| changed := Ok true;
                   dataAfter :=
                     {| dataPrivate := dataPrivate data2;
                        dataPathDir := Absent;
                        dataPath :=
                          if truthy fsPath then Str fsPath else Absent;
                        dataFileInfo := dataFileInfo data2 |};
                   mappedDb := db';
                   mappedCalls := calls |}
        end
  end.

End Mapping.

End UploadService.

(* ------------------------------------------------------------------ *)
(** ** A folder table, and more examples *)

Module FolderTable.
Import Js Provider UploadService.
Local Open Scope N_scope.

(** A folder table for the examples: rows of id, name and parent, oldest
    first; [create] appends a row, numbered by its place in the table. *)
Definition table : Type := list (positive * jsstring * option N).

Definition sameParent (a b : option N) : bool :=
  match a, b with
  | None, None => true
  | Some x, Some y => (x =? y)%N
  | _, _ => false
  end.

Definition isRow (name : jsstring) (parent : option N)
  (r : positive * jsstring * option N) : bool :=
  eqs (snd (fst r)) name && sameParent (snd r) parent.

Definition rowOf (r : positive * jsstring * option N) : FolderRow :=
  {| folderId := Some (Npos (fst (fst r))); folderRowPath := snd (fst r);
     folderParent := snd r |}.

Definition nextId (t : table) : positive := Pos.of_succ_nat (List.length t).

Definition store : FolderStore table unit :=
  {| findByName := fun t name parent =>
       Ok (option_map rowOf (find (isRow name parent) t));
     createFolder := Some (fun t name parent _ =>
       (Ok (Npos (nextId t)), t ++ [(nextId t, name, parent)])) |}.

End FolderTable.

Module Examples.
Import Js.
Local Open Scope N_scope.

(** The directories an upload to [Cafe/Arvore] made, once the file is
    unlinked. *)
Definition cafeDirs : Fs.fs :=
  [ (str "/srv/app/public/uploads", Fs.Dir);
    (str "/srv/app/public/uploads/Cafe", Fs.Dir);
    (str "/srv/app/public/uploads/Cafe/Arvore", Fs.Dir) ].

(** A private file as the database holds it. *)
Definition privateFile : Provider.File :=
  {| Provider.hash := str "doc";
     Provider.ext := Some (str ".pdf");
     Provider.mime := None;
     Provider.name := None;
     Provider.url := Some Model.privatePath;
     Provider.previewUrl := None;
     Provider.path := Some (str "private/42");
     Provider.folder := None;
     Provider.folderPath := None;
     Provider.content := None |}.

(** The url of that file, signed at 1700000000 for a minute, and the file
    as [find] returns it. *)
Definition signedUrl : jsstring :=
  Model.privatePath ++ str "?token="
  ++ Provider.signPrivateUrl Model.posix (str "s3cr3t") Model.privatePath
       1700000060
  ++ str "&expires=1700000060".

Definition signedFile : Provider.File :=
  {| Provider.hash := str "doc";
     Provider.ext := Some (str ".pdf");
     Provider.mime := None;
     Provider.name := None;
     Provider.url := Some signedUrl;
     Provider.previewUrl := None;
     Provider.path := Some (str "private/42");
     Provider.folder := None;
     Provider.folderPath := None;
     Provider.content := None |}.

(** The same token presented with a later expiry. *)
Definition replayedRequest : Provider.Request :=
  {| Provider.method := str "GET";
     Provider.reqPath := Model.privatePath;
     Provider.authorization := None;
     Provider.queryToken :=
       Some (Provider.signPrivateUrl Model.posix (str "s3cr3t")
               Model.privatePath 1700000060);
     Provider.queryExpires := Some (str "1800000000") |}.

(** A disk without a regular file: the uploads root holds the directory
    [a.png] and nothing else. *)
Definition onlyDirectory : Fs.fs :=
  [ (str "/srv/app/public/uploads", Fs.Dir);
    (str "/srv/app/public/uploads/a.png", Fs.Dir) ].

(** Uploads under the private folder [secure/private]. *)
Definition nestedPrivateConfig : Provider.Config :=
  {| Provider.prefix := None;
     Provider.baseUrl := None;
     Provider.strictPathDir := false;
     Provider.cleanupEmptyDirs := false;
     Provider.cleanupEmptyAdminFolders := false;
     Provider.usePathAsPathDir := true;
     Provider.uploadsUrlMarker := None;
     Provider.renameToUuid := false;
     Provider.privateEnable := true;
     Provider.privateFolder := Some (str "secure/private");
     Provider.privateSecret := Some (str "s3cr3t");
     Provider.privateUserDocumentIdField := None;
     Provider.publicDir := str "/srv/app/public" |}.

(** A request for the file of document [42] under that folder. *)
Definition nestedRequest : Provider.Request :=
  {| Provider.method := str "GET";
     Provider.reqPath := str "/uploads/secure/private/42/doc.pdf";
     Provider.authorization := None;
     Provider.queryToken := None;
     Provider.queryExpires := None |}.


(** An upload into the folder [Clientes/Ana], its file under
    [Cafe/Arvore]. *)
Definition folderData : UploadService.UploadData unit :=
  {| UploadService.dataPrivate := false;
     UploadService.dataPathDir := UploadService.Str (str "Cafe/Arvore");
     UploadService.dataPath := UploadService.Str (str "Clientes/Ana");
     UploadService.dataFileInfo :=
       UploadService.InfoMany
         [ Some {| UploadService.infoFolder := None;
                   UploadService.infoOthers := tt |};
           None ] |}.

(** A private upload for the document [42]. *)
Definition privateData : UploadService.UploadData unit :=
  {| UploadService.dataPrivate := true;
     UploadService.dataPathDir := UploadService.Str (str "42");
     UploadService.dataPath := UploadService.Absent;
     UploadService.dataFileInfo := UploadService.InfoMissing |}.

End Examples.

(* ------------------------------------------------------------------ *)
(** ** Predicates for the sanitisers, patterns, the gate, uploads and
       folders *)

Module SegmentProps.
Import Js.
Local Open Scope N_scope.

(** A segment as [sanitizePathDir] leaves it, cut or not: units of the
    directory alphabet, 128 at most, neither a dot nor a hyphen in front. *)
Definition safeSegment (s : jsstring) : Prop :=
  Forall (fun c => PathUtils.isDirUnit c = true) s /\
  (List.length s <= 128)%nat /\
  Props.startsNot PathUtils.isDotOrHyphen s.

End SegmentProps.

Module RegexProps.
Import Js.
Local Open Scope N_scope.

(** The string that a pattern made of literal characters and escaped syntax
    characters matches: a unit that is not a syntax character stands for
    itself, and a backslash followed by a syntax character stands for that
    character (PatternCharacter and IdentityEscape of ECMAScript).  [None]
    for a pattern with a syntax character that is not escaped. *)
Fixpoint literalOfPattern (p : jsstring) : option jsstring :=
  match p with
  | [] => Some []
  | c :: rest =>
      if c =? BACKSLASH then
        match rest with
        | x :: rest' =>
            if Strings.isRegexSyntax x
            then option_map (cons x) (literalOfPattern rest')
            else None
        | [] => None
        end
      else if Strings.isRegexSyntax c then None
      else option_map (cons c) (literalOfPattern rest)
  end.

End RegexProps.

Module GateProps.
Import Js.
Local Open Scope N_scope.

(** A unit of the base64url alphabet. *)
Definition isBase64UrlUnit (c : codeunit) : bool :=
  PathUtils.isAlnum c || (c =? 45) || (c =? 95).

(** [String(user[field] ?? user.id)] *)
Definition userDocumentId (u : Provider.UserRow) : jsstring :=
  match Provider.documentIdField u with
  | Some v => v
  | None => Provider.userIdString u
  end.





End GateProps.

Module UploadProps.
Import Js.
Local Open Scope N_scope.

(** The name [upload] stores a file under: [filename] in the source. *)
Definition storedName (c : Provider.Config) (uuid : jsstring)
  (file : Provider.File) : jsstring :=
  let extOf := match Provider.ext file with Some e => e | None => [] end in
  if Provider.renameToUuid c
  then uuid ++ [95] ++ Provider.hash file ++ extOf
  else Provider.hash file ++ extOf.

(** The url [upload] gives a file stored under an object path. *)
Definition urlOf (c : Provider.Config) (objectPath : jsstring) : jsstring :=
  match Provider.baseUrl c with
  | Some b =>
      if truthy b then Provider.join [b; objectPath]
      else [SLASH] ++ Provider.UPLOADS_FOLDER_NAME ++ [SLASH] ++ objectPath
  | None => [SLASH] ++ Provider.UPLOADS_FOLDER_NAME ++ [SLASH] ++ objectPath
  end.

(** A plain file name: letters, digits, dots, underscores and hyphens, not
    empty, no dot in front. *)
Definition plainName (s : jsstring) : Prop :=
  Forall (fun c => PathUtils.isDirUnit c = true) s /\
  s <> [] /\
  Props.startsNot (fun c => c =? DOT) s.

(** The disk [d'] holds what [d] holds at [p], or a directory where [d]
    holds nothing. *)
Definition keptOrMade (d d' : Fs.fs) (p : jsstring) : Prop :=
  Fs.lookup d' p = Fs.lookup d p \/
  (Fs.lookup d p = None /\ Fs.lookup d' p = Some Fs.Dir).

(** The disk [d'] holds what [d] holds at [p], or nothing where [d] holds a
    directory under the root. *)
Definition keptOrCleaned (rootAbs : jsstring) (d d' : Fs.fs) (p : jsstring)
  : Prop :=
  Fs.lookup d' p = Fs.lookup d p \/
  (Fs.lookup d p = Some Fs.Dir /\ Fs.lookup d' p = None /\
   startsWith p (rootAbs ++ NodePath.sep) = true).

End UploadProps.

Module FolderProps.
Import Js Provider UploadService.
Local Open Scope N_scope.

(** A folder store in which rows have ids that are not 0, and [create],
    called for a name and parent that [findOne] does not find, returns an
    id that is not 0 and leaves a database in which [findOne] finds that id
    under the name and parent, and finds what it found before under every
    other. *)
Definition coherent {DB User : Type} (S0 : FolderStore DB User) : Prop :=
  (forall db name parent row,
     findByName S0 db name parent = Ok (Some row) ->
     truthyId (folderId row) <> None) /\
  (forall create db name parent user id db',
     createFolder S0 = Some create ->
     findByName S0 db name parent = Ok None ->
     create db name parent user = (Ok id, db') ->
     id <> 0 /\
     (exists row, findByName S0 db' name parent = Ok (Some row) /\
                  folderId row = Some id) /\
     (forall name' parent',
        (name', parent') <> (name, parent) ->
        findByName S0 db' name' parent' = findByName S0 db name' parent')).

(** Every object of a [fileInfo] is in folder [id]. *)
Definition allInFolder {Others : Type} (id : N) (fi : FileInfo Others) : Prop :=
  match fi with
  | InfoMissing => False
  | InfoOne i => infoFolder i = Some id
  | InfoMany l =>
      Forall (fun e => exists i, e = Some i /\ infoFolder i = Some id) l
  end.

End FolderProps.

(* ================================================================== *)
(** * Properties *)

Import Js Props.
Local Open Scope N_scope.

(* ------------------------------------------------------------------ *)
(** ** Facts about JavaScript strings *)

(** Takes apart the hypotheses that a test of ranges of code units holds. *)
Ltac split_bools :=
  repeat match goal with
         | H : _ || _ = true |- _ => apply orb_true_iff in H; destruct H
         | H : _ && _ = true |- _ => apply andb_true_iff in H; destruct H
         | H : (_ <=? _) = true |- _ => apply N.leb_le in H
         | H : (_ =? _) = true |- _ => apply N.eqb_eq in H
         end.

Lemma eqs_spec (a b : jsstring) : eqs a b = true <-> a = b.
Proof.
  revert b; induction a as [|x a IH]; intros [|y b]; simpl;
    try (split; [discriminate | congruence]); try tauto.
  rewrite andb_true_iff, N.eqb_eq, IH. split.
  - intros [-> ->]; reflexivity.
  - intros H; injection H; auto.
Qed.

Lemma eqs_refl (a : jsstring) : eqs a a = true.
Proof. apply eqs_spec; reflexivity. Qed.

Lemma eqs_neq (a b : jsstring) : eqs a b = false <-> a <> b.
Proof.
  rewrite <- eqs_spec. destruct (eqs a b); split; congruence.
Qed.

Lemma startsWith_spec (s p : jsstring) :
  startsWith s p = true <-> exists r, s = p ++ r.
Proof.
  revert s; induction p as [|x p IH]; intros s; simpl.
  - split; [intros _; exists s; reflexivity | reflexivity].
  - destruct s as [|y s].
    + split; [discriminate | intros [r H]; discriminate].
    + rewrite andb_true_iff, N.eqb_eq, IH. split.
      * intros [-> [r ->]]; eauto.
      * intros [r H]; injection H as -> ->; eauto.
Qed.

Lemma startsWith_app (p r : jsstring) : startsWith (p ++ r) p = true.
Proof. apply startsWith_spec; eauto. Qed.

Lemma split_cons (c : codeunit) (s : jsstring) :
  exists h t, split c s = h :: t.
Proof.
  destruct s as [|x r]; simpl; eauto.
  destruct (x =? c); eauto.
  destruct (split c r); eauto.
Qed.

Lemma split_no_sep (c : codeunit) (s : jsstring) :
  Forall (fun seg => ~ In c seg) (split c s).
Proof.
  induction s as [|x r IH]; simpl.
  - constructor; auto.
  - destruct (N.eqb_spec x c) as [->|Hne].
    + constructor; auto.
    + destruct (split c r) as [|h t].
      * constructor; auto. simpl; intuition.
      * inversion IH; subst. constructor; auto.
        simpl; intuition.
Qed.

(** Two strings cut at their first separator agree piecewise. *)
Lemma app_sep_inj (c : codeunit) (r a x y : jsstring) :
  ~ In c r -> ~ In c a -> r ++ c :: x = a ++ c :: y -> r = a /\ x = y.
Proof.
  revert a; induction r as [|u r IH]; intros [|v a] Hr Ha H; simpl in *.
  - injection H; auto.
  - injection H as <- _. tauto.
  - injection H as -> _. tauto.
  - injection H as -> H. destruct (IH a) as [-> ->]; auto.
Qed.

(** *** Splitting and joining *)

Lemma split_no_sep_id (c : codeunit) (p : jsstring) :
  ~ In c p -> split c p = [p].
Proof.
  induction p as [|x p IH]; intros H; simpl; [reflexivity|].
  destruct (N.eqb_spec x c) as [->|_]; [exfalso; apply H; left; reflexivity|].
  rewrite IH; [reflexivity|]. intros Hin; apply H; right; assumption.
Qed.

Lemma split_app_sep (c : codeunit) (p r : jsstring) :
  ~ In c p -> split c (p ++ c :: r) = p :: split c r.
Proof.
  induction p as [|x p IH]; intros H; simpl.
  - rewrite N.eqb_refl. reflexivity.
  - destruct (N.eqb_spec x c) as [->|_];
      [exfalso; apply H; left; reflexivity|].
    rewrite IH; [reflexivity|]. intros Hin; apply H; right; assumption.
Qed.

Lemma split_join (c : codeunit) (parts : list jsstring) :
  parts <> [] ->
  Forall (fun p => ~ In c p) parts ->
  split c (join [c] parts) = parts.
Proof.
  induction parts as [|p parts IH]; intros Hne HF; [congruence|].
  inversion HF as [|? ? Hp HF']; subst.
  destruct parts as [|p' parts].
  - simpl. apply split_no_sep_id; assumption.
  - change (join [c] (p :: p' :: parts))
      with (p ++ c :: join [c] (p' :: parts)).
    rewrite split_app_sep by assumption.
    rewrite IH; [reflexivity | congruence | assumption].
Qed.

Lemma Forall_join (Q : codeunit -> Prop) (sep : jsstring)
  (parts : list jsstring) :
  Forall Q sep -> Forall (Forall Q) parts -> Forall Q (join sep parts).
Proof.
  intros Hsep H. induction H as [|p parts Hp Hparts IH]; [constructor|].
  destruct parts as [|p' parts]; [exact Hp|].
  change (join sep (p :: p' :: parts))
    with (p ++ sep ++ join sep (p' :: parts)).
  apply Forall_app; split; [assumption|].
  apply Forall_app; split; assumption.
Qed.

Lemma join_snoc (sep : jsstring) (parts : list jsstring) (x : jsstring) :
  parts <> [] -> join sep (parts ++ [x]) = join sep parts ++ sep ++ x.
Proof.
  induction parts as [|p parts IH]; intros Hne; [congruence|].
  destruct parts as [|p' parts]; [reflexivity|].
  change (join sep ((p :: p' :: parts) ++ [x]))
    with (p ++ sep ++ join sep ((p' :: parts) ++ [x])).
  rewrite IH by congruence.
  change (join sep (p :: p' :: parts))
    with (p ++ sep ++ join sep (p' :: parts)).
  rewrite <- !app_assoc. reflexivity.
Qed.

Lemma rev_join (sep : jsstring) (parts : list jsstring) :
  rev (join sep parts) = join (rev sep) (map (@rev codeunit) (rev parts)).
Proof.
  induction parts as [|p parts IH]; [reflexivity|].
  destruct parts as [|p' parts]; [reflexivity|].
  change (join sep (p :: p' :: parts))
    with (p ++ sep ++ join sep (p' :: parts)).
  rewrite !rev_app_distr, IH.
  change (rev (p :: p' :: parts)) with (rev (p' :: parts) ++ [p]).
  rewrite map_app.
  change (map (@rev codeunit) [p]) with [rev p].
  rewrite join_snoc; [rewrite <- app_assoc; reflexivity|].
  simpl. destruct (rev parts); discriminate.
Qed.

Lemma join_startsNot (f : codeunit -> bool) (sep p : jsstring)
  (parts : list jsstring) :
  p <> [] -> startsNot f p -> startsNot f (join sep (p :: parts)).
Proof.
  intros Hne H. destruct p as [|x p]; [congruence|].
  destruct parts; exact H.
Qed.

Lemma join_trimmed (f : codeunit -> bool) (parts : list jsstring) :
  Forall (fun p => trimmedOf f p /\ p <> []) parts ->
  trimmedOf f (join [SLASH] parts).
Proof.
  intros H. destruct parts as [|p parts]; [split; exact I|].
  split.
  - inversion H as [|? ? [[Hp _] Hne] _]; subst.
    apply join_startsNot; assumption.
  - rewrite rev_join.
    assert (Forall (fun p => startsNot f p /\ p <> [])
              (map (@rev codeunit) (rev (p :: parts)))) as H'.
    { apply Forall_map, Forall_rev. eapply Forall_impl; [|exact H].
      intros q [[_ Hq] Hne]. split; [assumption|].
      intros E. apply Hne. rewrite <- (rev_involutive q), E. reflexivity. }
    destruct (map (@rev codeunit) (rev (p :: parts))) as [|q qs]; [exact I|].
    inversion H' as [|? ? [Hq Hne] _]; subst.
    apply join_startsNot; assumption.
Qed.

(* ------------------------------------------------------------------ *)
(** ** The root-confined resolver *)

Section Resolver.
Import Props.

Lemma join_two (a b : jsstring) (l : list jsstring) :
  join NodePath.sep (a :: b :: l)
  = a ++ SLASH :: join NodePath.sep (b :: l).
Proof. reflexivity. Qed.

Lemma normalizeSegments_proper (segs res : list jsstring) :
  Forall (fun s => ~ In SLASH s) segs ->
  Forall properSegment res ->
  Forall properSegment (NodePath.normalizeSegments false res segs).
Proof.
  revert res; induction segs as [|s segs IH]; intros res Hs Hres; simpl.
  - apply Forall_rev; assumption.
  - inversion Hs as [|? ? Hs1 Hs2]; subst.
    destruct (falsy s) eqn:Hf; simpl; [auto|].
    unfold NodePath.isDot, NodePath.isDotDot.
    destruct (eqs s [DOT]) eqn:Hd; [auto|].
    destruct (eqs s [DOT; DOT]) eqn:Hdd.
    + destruct res as [|l res']; [auto|].
      inversion Hres; subst.
      destruct (eqs l [DOT; DOT]); auto.
    + apply IH; auto. constructor; auto.
      repeat split; auto.
      * destruct s; [discriminate | congruence].
      * apply eqs_neq; assumption.
      * apply eqs_neq; assumption.
Qed.

Lemma resolveLoop_absolute (l : list jsstring) (acc c : jsstring) :
  NodePath.isAbsolute c = true ->
  exists rp, NodePath.resolveLoop (l ++ [c]) acc = (rp, true).
Proof.
  intros Hc; revert acc; induction l as [|p l IH]; intros acc; simpl.
  - destruct c as [|x c]; [discriminate|]. simpl in *. rewrite Hc. eauto.
  - destruct (falsy p); [apply IH|].
    destruct (NodePath.isAbsolute p); eauto.
Qed.

(** With an absolute working directory [path.resolve] returns [/] followed
    by proper segments joined by single separators. *)
Lemma resolve_form (P : Platform) (args : list jsstring) :
  cwdAbsolute P ->
  exists segs,
    Forall properSegment segs /\
    NodePath.resolve P args = SLASH :: join NodePath.sep segs.
Proof.
  intros Hcwd. unfold NodePath.resolve.
  destruct (resolveLoop_absolute (rev args) [] _ Hcwd) as [rp ->].
  simpl. unfold NodePath.normalizeString.
  eexists; split; [|reflexivity].
  apply normalizeSegments_proper; [apply split_no_sep | constructor].
Qed.

Lemma join_proper_head (a : jsstring) (l : list jsstring) (x : jsstring) :
  properSegment a -> join NodePath.sep (a :: l) <> SLASH :: x.
Proof.
  intros (Hne & _ & _ & Hns) H.
  destruct a as [|c a]; [congruence|].
  destruct l; simpl in H; injection H as -> _; apply Hns; left; reflexivity.
Qed.

(** A joined list of proper segments that continues with a separator is a
    proper prefix, segment by segment, of any joined list it starts. *)
Lemma join_prefix_segments (R A : list jsstring) (x : jsstring) :
  Forall properSegment R -> Forall properSegment A -> R <> [] ->
  join NodePath.sep R ++ SLASH :: x = join NodePath.sep A ->
  exists rest, rest <> [] /\ A = R ++ rest /\ x = join NodePath.sep rest.
Proof.
  revert A x; induction R as [|r R IH]; intros A x HR HA Hne H;
    [congruence|].
  inversion HR as [|? ? Hr HR']; subst.
  destruct Hr as (_ & _ & _ & Hr).
  destruct A as [|a A].
  - destruct R; simpl in H; destruct r; discriminate.
  - inversion HA as [|? ? Ha HA']; subst.
    destruct Ha as (_ & _ & _ & Ha).
    destruct A as [|a' A].
    + exfalso. simpl in H.
      assert (In SLASH a) as Hin.
      { rewrite <- H. apply in_elt. }
      contradiction.
    + rewrite join_two in H.
      destruct R as [|r' R].
      * change (join NodePath.sep [r]) with r in H.
        destruct (app_sep_inj _ _ _ _ _ Hr Ha H) as [-> ->].
        exists (a' :: A). repeat split; congruence.
      * rewrite join_two in H. rewrite <- app_assoc in H.
        change ((SLASH :: join NodePath.sep (r' :: R)) ++ SLASH :: x)
          with (SLASH :: (join NodePath.sep (r' :: R) ++ SLASH :: x)) in H.
        destruct (app_sep_inj _ _ _ _ _ Hr Ha H) as [-> H'].
        destruct (IH (a' :: A) x HR' HA' ltac:(congruence) H')
          as (rest & Hrest & HA2 & Hx).
        exists rest. repeat split; auto. simpl. rewrite HA2. reflexivity.
Qed.

(** *** Where [path.join] puts an object under the uploads root *)

Lemma split_app (c : codeunit) (a b : jsstring) :
  split c (a ++ c :: b) = split c a ++ split c b.
Proof.
  induction a as [|x a IH]; simpl.
  - rewrite N.eqb_refl. reflexivity.
  - destruct (x =? c); [rewrite IH; reflexivity|].
    rewrite IH. destruct (split_cons c a) as (h & t & ->). reflexivity.
Qed.

Lemma join_app (sep : jsstring) (l1 l2 : list jsstring) :
  l1 <> [] -> l2 <> [] ->
  join sep (l1 ++ l2) = join sep l1 ++ sep ++ join sep l2.
Proof.
  intros H1 H2. induction l1 as [|p l1 IH]; [congruence|].
  destruct l1 as [|p' l1].
  - destruct l2; [congruence | reflexivity].
  - change (join sep ((p :: p' :: l1) ++ l2))
      with (p ++ sep ++ join sep ((p' :: l1) ++ l2)).
    rewrite IH by congruence.
    change (join sep (p :: p' :: l1)) with (p ++ sep ++ join sep (p' :: l1)).
    rewrite <- !app_assoc. reflexivity.
Qed.

Lemma normalizeSegments_app (a : bool) (l1 l2 res : list jsstring) :
  NodePath.normalizeSegments a res (l1 ++ l2)
  = NodePath.normalizeSegments a
      (rev (NodePath.normalizeSegments a res l1)) l2.
Proof.
  revert res; induction l1 as [|s l1 IH]; intros res; simpl.
  - rewrite rev_involutive. reflexivity.
  - destruct (falsy s || NodePath.isDot s); [apply IH|].
    destruct (NodePath.isDotDot s); [|apply IH].
    destruct res as [|l res']; [apply IH|].
    destruct (NodePath.isDotDot l); apply IH.
Qed.

Lemma normalizeSegments_proper_id (l res : list jsstring) :
  Forall properSegment l ->
  NodePath.normalizeSegments false res l = rev res ++ l.
Proof.
  intros H; revert res; induction H as [|s l Hs _ IH]; intros res; simpl.
  - rewrite app_nil_r. reflexivity.
  - destruct Hs as (H1 & H2 & H3 & _).
    assert (falsy s = false) as -> by (destruct s; [congruence | reflexivity]).
    unfold NodePath.isDot, NodePath.isDotDot.
    apply eqs_neq in H2, H3. rewrite H2, H3. simpl.
    rewrite IH. simpl. rewrite <- app_assoc. reflexivity.
Qed.

Lemma resolveLoop_suffix (l : list jsstring) (acc rp : jsstring) (b : bool) :
  NodePath.resolveLoop l acc = (rp, b) ->
  rp = acc \/ exists pre, rp = pre ++ SLASH :: acc.
Proof.
  revert acc; induction l as [|p l IH]; intros acc; simpl.
  - intros H; injection H as <- _. left; reflexivity.
  - destruct (falsy p); [apply IH|].
    destruct (NodePath.isAbsolute p).
    + intros H; injection H as <- _. right. exists p. reflexivity.
    + intros H. apply IH in H. right. destruct H as [-> | [pre ->]].
      * exists p. reflexivity.
      * exists (pre ++ SLASH :: p). rewrite <- app_assoc. reflexivity.
Qed.

Lemma normalizeSegments_uploads (res : list jsstring) :
  NodePath.normalizeSegments false res [str "uploads"; []]
  = rev res ++ [str "uploads"].
Proof. reflexivity. Qed.

(** The uploads root is an absolute path whose last segment is [uploads]. *)
Lemma uploadPath_form (P : Platform) (c : Provider.Config) :
  cwdAbsolute P ->
  exists segs,
    Forall properSegment segs /\
    Provider.uploadPath P c
    = SLASH :: join NodePath.sep (segs ++ [str "uploads"]).
Proof.
  intros Hcwd. unfold Provider.uploadPath, NodePath.resolve.
  change (rev [Provider.publicDir c; Provider.UPLOADS_FOLDER_NAME] ++ [cwd P])
    with (str "uploads" :: ([Provider.publicDir c] ++ [cwd P])).
  change (NodePath.resolveLoop
            (str "uploads" :: ([Provider.publicDir c] ++ [cwd P])) [])
    with (NodePath.resolveLoop ([Provider.publicDir c] ++ [cwd P])
            (str "uploads/")).
  destruct (resolveLoop_absolute [Provider.publicDir c] (str "uploads/")
              _ Hcwd) as [rp Hrp].
  rewrite Hrp. simpl negb. cbv iota.
  unfold NodePath.normalizeString.
  apply resolveLoop_suffix in Hrp. destruct Hrp as [-> | [pre ->]].
  - exists []. split; [constructor | reflexivity].
  - rewrite split_app, normalizeSegments_app.
    exists (NodePath.normalizeSegments false [] (split SLASH pre)).
    split.
    + apply normalizeSegments_proper; [apply split_no_sep | constructor].
    + change (split SLASH (str "uploads/")) with [str "uploads"; []].
      rewrite normalizeSegments_uploads, rev_involutive. reflexivity.
Qed.

Lemma properSegment_last (s : jsstring) :
  properSegment s -> startsWith (rev s) [SLASH] = false.
Proof.
  intros (Hne & _ & _ & Hns).
  destruct (rev s) as [|x r] eqn:E.
  - exfalso. apply Hne. rewrite <- (rev_involutive s), E. reflexivity.
  - cbn [startsWith]. destruct (N.eqb_spec SLASH x) as [<-|_]; [|reflexivity].
    exfalso. apply Hns. apply in_rev. rewrite E. left; reflexivity.
Qed.

(** [path.join] of an absolute normalised path and a relative normalised
    one puts a separator between them. *)
Lemma nodeJoin_under (U R : list jsstring) :
  Forall properSegment U -> Forall properSegment R -> U <> [] -> R <> [] ->
  NodePath.join [SLASH :: join NodePath.sep U; join NodePath.sep R]
  = (SLASH :: join NodePath.sep U) ++ SLASH :: join NodePath.sep R.
Proof.
  intros HU HR HUne HRne.
  assert (Forall properSegment (U ++ R)) as HUR
    by (apply Forall_app; split; assumption).
  assert (U ++ R <> []) as HURne by (destruct U; [congruence | discriminate]).
  assert (falsy (join NodePath.sep R) = false) as HfR.
  { destruct R as [|r R]; [congruence|]. inversion HR as [|? ? Hr _]; subst.
    destruct Hr as (Hr & _). destruct r; [congruence|].
    destruct R; reflexivity. }
  assert (falsy (join NodePath.sep (U ++ R)) = false) as HfUR.
  { destruct (U ++ R) as [|r L]; [congruence|].
    inversion HUR as [|? ? Hr _]; subst.
    destruct Hr as (Hr & _). destruct r; [congruence|].
    destruct L; reflexivity. }
  assert (Js.join NodePath.sep [SLASH :: join NodePath.sep U;
                                join NodePath.sep R]
          = SLASH :: join NodePath.sep (U ++ R)) as Hj.
  { rewrite (join_app NodePath.sep U R HUne HRne). reflexivity. }
  assert (filter truthy [SLASH :: join NodePath.sep U; join NodePath.sep R]
          = [SLASH :: join NodePath.sep U; join NodePath.sep R]) as Hf.
  { simpl. unfold truthy. rewrite HfR. reflexivity. }
  assert (endsWith (SLASH :: join NodePath.sep (U ++ R)) NodePath.sep = false)
    as He.
  { unfold endsWith. simpl rev at 1. rewrite rev_join.
    assert (Forall (fun p => startsWith p [SLASH] = false /\ p <> [])
              (map (@rev codeunit) (rev (U ++ R)))) as H'.
    { apply Forall_map, Forall_rev. eapply Forall_impl; [|exact HUR].
      intros q Hq. split; [apply properSegment_last; assumption|].
      destruct Hq as (Hne & _). intros E. apply Hne.
      rewrite <- (rev_involutive q), E. reflexivity. }
    destruct (map (@rev codeunit) (rev (U ++ R))) as [|q qs] eqn:E.
    { exfalso. apply HURne. apply map_eq_nil in E.
      rewrite <- (rev_involutive (U ++ R)), E. reflexivity. }
    inversion H' as [|? ? [Hq Hqne] _]; subst.
    destruct q as [|x q]; [congruence|].
    cbn [startsWith] in Hq. apply andb_false_iff in Hq.
    destruct Hq as [Hq | Hq]; [|discriminate].
    destruct qs; cbn [join app rev startsWith NodePath.sep];
      rewrite Hq; reflexivity. }
  assert (NodePath.normalizeString (SLASH :: join NodePath.sep (U ++ R)) false
          = join NodePath.sep (U ++ R)) as Hn.
  { unfold NodePath.normalizeString.
    change (split SLASH (SLASH :: join NodePath.sep (U ++ R)))
      with ([] :: split SLASH (join [SLASH] (U ++ R))).
    change (NodePath.normalizeSegments false []
              ([] :: split SLASH (join [SLASH] (U ++ R))))
      with (NodePath.normalizeSegments false []
              (split SLASH (join [SLASH] (U ++ R)))).
    rewrite split_join.
    - rewrite normalizeSegments_proper_id by assumption. reflexivity.
    - assumption.
    - eapply Forall_impl; [|exact HUR]. intros q Hq. apply Hq. }
  unfold NodePath.join. rewrite Hf, Hj.
  change (falsy (SLASH :: join NodePath.sep (U ++ R))) with false. cbv iota.
  unfold NodePath.normalize.
  change (falsy (SLASH :: join NodePath.sep (U ++ R))) with false. cbv iota.
  change (NodePath.isAbsolute (SLASH :: join NodePath.sep (U ++ R)))
    with true.
  cbv zeta. simpl negb. rewrite Hn, He, HfUR.
  rewrite (join_app NodePath.sep U R HUne HRne). reflexivity.
Qed.

(** C1.  Whatever the root and the candidate are, [safeResolveUnderRoot]
    answers [null] or an absolute path that is the resolved root followed by
    a separator and one or more proper segments: never the root itself,
    never a path outside it. *)
Theorem safeResolveUnderRoot_confined (P : Platform) (root rel : jsstring) :
  cwdAbsolute P ->
  match PathUtils.safeResolveUnderRoot P root rel with
  | None => True
  | Some abs =>
      abs <> NodePath.resolve P [root] /\
      NodePath.isAbsolute abs = true /\
      strictlyInside (NodePath.resolve P [root]) abs
  end.
Proof.
  intros Hcwd. unfold PathUtils.safeResolveUnderRoot.
  set (rootAbs := NodePath.resolve P [root]).
  set (abs := NodePath.resolve P [rootAbs; rel]).
  destruct (eqs abs rootAbs) eqn:Heq; [exact I|].
  destruct (startsWith abs (rootAbs ++ NodePath.sep)) eqn:Hsw; simpl;
    [|exact I].
  apply eqs_neq in Heq. apply startsWith_spec in Hsw. destruct Hsw as [x Hx].
  destruct (resolve_form P [root] Hcwd) as (R & HR & HrootAbs).
  destruct (resolve_form P [rootAbs; rel] Hcwd) as (A & HA & Habs).
  fold rootAbs in HrootAbs. fold abs in Habs.
  split; [assumption|]. split; [rewrite Habs; reflexivity|].
  assert (join NodePath.sep R ++ SLASH :: x = join NodePath.sep A) as Hj.
  { rewrite Habs, HrootAbs in Hx. unfold NodePath.sep in Hx.
    simpl in Hx. rewrite <- app_assoc in Hx. simpl in Hx.
    injection Hx as Hx. symmetry; exact Hx. }
  destruct R as [|r R].
  - exfalso. simpl in Hj. destruct A as [|a A]; [discriminate|].
    inversion HA; subst. eapply join_proper_head; eauto.
  - destruct (join_prefix_segments _ _ x HR HA ltac:(congruence) Hj)
      as (rest & Hne & HAeq & Hxeq).
    exists rest. split; [assumption|]. split.
    + rewrite HAeq in HA. apply Forall_app in HA. tauto.
    + rewrite Hx, Hxeq. rewrite <- app_assoc. reflexivity.
Qed.

End Resolver.

(* ------------------------------------------------------------------ *)
(** ** [isPrivate] *)

Section IsPrivate.
Import Provider.

Lemma includes_spec (s p : jsstring) :
  includes s p = true <-> exists a b, s = a ++ p ++ b.
Proof.
  induction s as [|x s IH].
  - simpl. rewrite orb_false_r, startsWith_spec. split.
    + intros [r H]. exists [], r. exact H.
    + intros (a & b & H). destruct a; [|discriminate]. eauto.
  - simpl. rewrite orb_true_iff, IH.
    change (match p with
            | [] => true
            | y :: p' => (y =? x) && startsWith s p'
            end) with (startsWith (x :: s) p).
    rewrite startsWith_spec. split.
    + intros [[r H] | (a & b & H)].
      * exists [], r. exact H.
      * exists (x :: a), b. rewrite H. reflexivity.
    + intros (a & b & H). destruct a as [|y a].
      * left. eauto.
      * right. injection H as _ H. eauto.
Qed.

Lemma privateFolderNorm_enabled (c : Config) :
  privateEnable c = true -> privateFolderNorm c <> [].
Proof.
  unfold privateFolderNorm. intros ->.
  destruct (trim _) eqn:E; simpl; [discriminate | congruence].
Qed.

(** C10.  Over the two constants it closes over: when private mode is on
    and the folder name is not empty, [isPrivate()] without a file is [true]
    and [isPrivate(file)] is [true] exactly when the file's url (the empty
    string when it has none) has [/uploads/<privateFolder>/] as a substring;
    when private mode is off or the folder name is empty, [isPrivate] is
    [false] whatever it is called with.  The folder name [init] computes is
    not empty when private mode is on and empty when it is off. *)
Theorem isPrivate_cases (enabled : bool) (folderNorm : jsstring) :
  (if enabled && truthy folderNorm then
     isPrivateWith enabled folderNorm None = true /\
     forall f : File,
       isPrivateWith enabled folderNorm (Some f) = true <->
       exists a b,
         orEmpty (url f) = a ++ (str "/uploads/" ++ folderNorm ++ str "/") ++ b
   else
     forall file : option File, isPrivateWith enabled folderNorm file = false)
  /\
  (forall c : Config,
     isPrivate c = isPrivateWith (privateEnable c) (privateFolderNorm c) /\
     if privateEnable c then privateFolderNorm c <> []
     else privateFolderNorm c = []).
Proof.
  split.
  - unfold isPrivateWith, truthy.
    destruct enabled; simpl; [|reflexivity].
    destruct (falsy folderNorm); simpl; [reflexivity|].
    split; [reflexivity|].
    intros f. rewrite includes_spec. unfold orEmpty. reflexivity.
  - intros c. split; [reflexivity|].
    destruct (privateEnable c) eqn:En.
    + apply privateFolderNorm_enabled; assumption.
    + unfold privateFolderNorm. rewrite En. reflexivity.
Qed.

End IsPrivate.

(* ------------------------------------------------------------------ *)
(** ** base64url and the signer *)

Section Signer.
Import Provider.

Lemma below_bound (k : nat) (f : N -> bool) :
  forallb f (map N.of_nat (seq 0 k)) = true ->
  forall n, n < N.of_nat k -> f n = true.
Proof.
  intros H n Hn. rewrite forallb_forall in H. apply H.
  apply in_map_iff. exists (N.to_nat n). split.
  - apply N2Nat.id.
  - apply in_seq. lia.
Qed.

Lemma below_64 (f : N -> bool) :
  forallb f (map N.of_nat (seq 0 64)) = true ->
  forall n, n < 64 -> f n = true.
Proof. intros H n Hn. apply (below_bound 64 f H). exact Hn. Qed.

Lemma digits_acc (d : Decimal.uint) (acc : positive) :
  fold_left (fun acc d => (acc * 10 + Z.of_N (d - 48))%Z)
    (str (NilEmpty.string_of_uint d)) (Z.pos acc)
  = Z.pos (Pos.of_uint_acc d acc).
Proof.
  revert acc; induction d; intros acc;
    [reflexivity
    | cbn [NilEmpty.string_of_uint str list_ascii_of_string map fold_left
           Pos.of_uint_acc];
      rewrite <- IHd; f_equal;
      match goal with
      | |- context [Z.of_N ?x] =>
          let v := eval vm_compute in (Z.of_N x) in change (Z.of_N x) with v
      end; lia ..].
Qed.

Lemma digits_value (d : Decimal.uint) :
  digitsValue (str (NilEmpty.string_of_uint d)) = Z.of_N (Pos.of_uint d).
Proof.
  unfold digitsValue.
  induction d;
    [reflexivity | exact IHd
    | cbn [NilEmpty.string_of_uint str list_ascii_of_string
        map fold_left Pos.of_uint]; apply digits_acc ..].
Qed.

Lemma digits_are_digits (d : Decimal.uint) :
  Forall (fun c => isDigit c = true) (str (NilEmpty.string_of_uint d)).
Proof.
  induction d; [constructor | constructor; [reflexivity | exact IHd] ..].
Qed.

Lemma takeWhile_all (f : codeunit -> bool) (s : jsstring) :
  Forall (fun c => f c = true) s -> NodePath.takeWhile f s = s.
Proof.
  induction 1 as [|c s Hc _ IH]; [reflexivity|].
  simpl. rewrite Hc, IH. reflexivity.
Qed.

Lemma parseInt10_digits (s : jsstring) :
  s <> [] -> Forall (fun c => isDigit c = true) s ->
  parseInt10 s = Some (digitsValue s) /\
  parseInt10 (45 :: s) = Some (- digitsValue s)%Z.
Proof.
  intros Hne Hs. destruct s as [|c s]; [congruence|].
  inversion Hs as [|? ? Hc _]; subst.
  assert (isWhiteSpace c = false /\ (c =? 45) = false /\ (c =? 43) = false)
    as (Hw & H45 & H43).
  { unfold isDigit in Hc. apply andb_true_iff in Hc. destruct Hc as [H1 H2].
    apply N.leb_le in H1, H2.
    assert (c < 58) as Hb by lia.
    pose proof (below_bound 58
      (fun c => implb (isDigit c)
                  (negb (isWhiteSpace c) && negb (c =? 45) && negb (c =? 43)))
      eq_refl c Hb) as Hall.
    simpl in Hall.
    assert (isDigit c = true) as Hd
      by (unfold isDigit; apply andb_true_iff; split; apply N.leb_le; lia).
    rewrite Hd in Hall. simpl in Hall.
    apply andb_true_iff in Hall. destruct Hall as [Hall H3].
    apply andb_true_iff in Hall. destruct Hall as [H4 H5].
    repeat split; apply negb_true_iff; assumption. }
  unfold parseInt10. split.
  - cbn [dropWhile]. rewrite Hw, H45, H43.
    rewrite (takeWhile_all isDigit (c :: s) Hs). reflexivity.
  - cbn [dropWhile]. change (isWhiteSpace 45) with false. cbv iota.
    change (45 =? 45) with true. cbv iota.
    rewrite (takeWhile_all isDigit (c :: s) Hs). reflexivity.
Qed.

(** [parseInt] reads back the decimal form of an integer. *)
Lemma parseInt10_numberToString (n : Z) :
  parseInt10 (numberToString n) = Some n.
Proof.
  unfold numberToString.
  destruct n as [|p|p]; [reflexivity | |];
    cbn [Z.to_int NilZero.string_of_int].
  - pose proof (DecimalZ.of_to (Z.pos p)) as Hv. cbn [Z.to_int Z.of_int] in Hv.
    unfold Z.of_uint in Hv. rewrite <- digits_value in Hv.
    assert (NilZero.string_of_uint (Pos.to_uint p)
            = NilEmpty.string_of_uint (Pos.to_uint p)) as ->.
    { destruct (Pos.to_uint p); [discriminate Hv | reflexivity ..]. }
    destruct (parseInt10_digits (str (NilEmpty.string_of_uint (Pos.to_uint p))))
      as [H _].
    + intros E. rewrite E in Hv. discriminate Hv.
    + apply digits_are_digits.
    + rewrite H, Hv. reflexivity.
  - pose proof (DecimalZ.of_to (Z.neg p)) as Hv. cbn [Z.to_int Z.of_int] in Hv.
    unfold Z.of_uint in Hv. rewrite <- digits_value in Hv.
    assert (NilZero.string_of_uint (Pos.to_uint p)
            = NilEmpty.string_of_uint (Pos.to_uint p)) as ->.
    { destruct (Pos.to_uint p); [discriminate Hv | reflexivity ..]. }
    change (str (String "-" (NilEmpty.string_of_uint (Pos.to_uint p))))
      with (45 :: str (NilEmpty.string_of_uint (Pos.to_uint p))).
    destruct (parseInt10_digits (str (NilEmpty.string_of_uint (Pos.to_uint p))))
      as [_ H].
    + intros E. rewrite E in Hv. discriminate Hv.
    + apply digits_are_digits.
    + rewrite H, Hv. reflexivity.
Qed.

(** The decimal form holds digits and a sign only. *)
Lemma numberToString_no_lf (n : Z) : ~ In LF (numberToString n).
Proof.
  assert (forall d, ~ In LF (str (NilEmpty.string_of_uint d))) as Hd.
  { intros d Hin. pose proof (digits_are_digits d) as H.
    rewrite Forall_forall in H. apply H in Hin. discriminate Hin. }
  assert (forall d, ~ In LF (str (NilZero.string_of_uint d))) as Hz.
  { intros d. destruct d; try apply Hd.
    cbn. intros [H | []]. discriminate H. }
  unfold numberToString. destruct n as [|p|p];
    cbn [Z.to_int NilZero.string_of_int].
  - apply Hz.
  - apply Hz.
  - change (str (String "-" (NilZero.string_of_uint (Pos.to_uint p))))
      with (45 :: str (NilZero.string_of_uint (Pos.to_uint p))).
    intros [H | H]; [discriminate H | exact (Hz _ H)].
Qed.

(** The signed message tells the path and the expiry apart. *)
Lemma signed_message_inj (pathA pathB : jsstring) (expA expB : Z) :
  pathA ++ [LF] ++ numberToString expA = pathB ++ [LF] ++ numberToString expB ->
  pathA = pathB /\ expA = expB.
Proof.
  intros E. apply (f_equal (@rev codeunit)) in E.
  rewrite !rev_app_distr in E. cbn [rev app] in E.
  rewrite <- !app_assoc in E. cbn [app] in E.
  apply app_sep_inj in E.
  - destruct E as [E1 E2].
    apply (f_equal (@rev codeunit)) in E1, E2.
    rewrite !rev_involutive in E1, E2. split; [exact E2|].
    pose proof (parseInt10_numberToString expA) as HA.
    rewrite E1, parseInt10_numberToString in HA. congruence.
  - intros H. apply in_rev in H. exact (numberToString_no_lf _ H).
  - intros H. apply in_rev in H. exact (numberToString_no_lf _ H).
Qed.

(** A unit above 255 is decoded by its low byte: U+0141 counts as [A]. *)
Example fromBase64Url_low_byte :
  Buffer.fromBase64Url [321; 65; 65; 65] = Buffer.fromBase64Url (str "AAAA").
Proof. reflexivity. Qed.

Lemma decode_encodeSextet (n : N) :
  n < 64 ->
  (Buffer.encodeSextet n =? 61) = false /\
  Buffer.decodeUnit (Buffer.encodeSextet n) = Some n.
Proof.
  intros Hn.
  pose proof (below_64
    (fun n => negb (Buffer.encodeSextet n =? 61)
              && match Buffer.decodeUnit (Buffer.encodeSextet n) with
                 | Some m => m =? n
                 | None => false
                 end) eq_refl n Hn) as H.
  simpl in H. apply andb_true_iff in H. destruct H as [H1 H2].
  split.
  - apply negb_true_iff; assumption.
  - destruct (Buffer.decodeUnit (Buffer.encodeSextet n)); [|discriminate].
    apply N.eqb_eq in H2. congruence.
Qed.

(** The units of the alphabet are their own low byte. *)
Lemma encodeSextet_byte (n : N) :
  n < 64 -> Buffer.encodeSextet n mod 256 = Buffer.encodeSextet n.
Proof.
  intros Hn.
  pose proof (below_64
    (fun n => Buffer.encodeSextet n mod 256 =? Buffer.encodeSextet n)
    eq_refl n Hn) as H.
  apply N.eqb_eq in H. exact H.
Qed.

Lemma sextets_cons (n : N) (rest : jsstring) :
  n < 64 ->
  Buffer.sextets (Buffer.encodeSextet n :: rest) = n :: Buffer.sextets rest.
Proof.
  intros Hn. destruct (decode_encodeSextet n Hn) as [H1 H2].
  cbn [Buffer.sextets]. cbv zeta.
  rewrite (encodeSextet_byte n Hn), H1, H2. reflexivity.
Qed.

Lemma sextet_bounds (b0 b1 b2 : N) :
  b0 < 256 -> b1 < 256 -> b2 < 256 ->
  b0 / 4 < 64 /\ (b0 mod 4) * 16 + b1 / 16 < 64 /\
  (b1 mod 16) * 4 + b2 / 64 < 64 /\ b2 mod 64 < 64 /\
  (b0 mod 4) * 16 < 64 /\ (b1 mod 16) * 4 < 64.
Proof.
  intros H0 H1 H2.
  pose proof (N.mod_upper_bound b0 4 ltac:(lia)).
  pose proof (N.mod_upper_bound b1 16 ltac:(lia)).
  pose proof (N.mod_upper_bound b2 64 ltac:(lia)).
  assert (b0 / 4 < 64) by (apply N.Div0.div_lt_upper_bound; lia).
  assert (b1 / 16 < 16) by (apply N.Div0.div_lt_upper_bound; lia).
  assert (b2 / 64 < 4) by (apply N.Div0.div_lt_upper_bound; lia).
  lia.
Qed.

Lemma regroup (b0 b1 b2 : N) :
  b0 < 256 -> b1 < 256 -> b2 < 256 ->
  (b0 / 4) * 4 + ((b0 mod 4) * 16 + b1 / 16) / 16 = b0 /\
  (((b0 mod 4) * 16 + b1 / 16) mod 16) * 16
    + ((b1 mod 16) * 4 + b2 / 64) / 4 = b1 /\
  (((b1 mod 16) * 4 + b2 / 64) mod 4) * 64 + b2 mod 64 = b2 /\
  (b0 / 4) * 4 + ((b0 mod 4) * 16) / 16 = b0 /\
  (((b0 mod 4) * 16 + b1 / 16) mod 16) * 16 + ((b1 mod 16) * 4) / 4 = b1.
Proof.
  intros H0 H1 H2.
  assert (b1 / 16 < 16) by (apply N.Div0.div_lt_upper_bound; lia).
  assert (b2 / 64 < 4) by (apply N.Div0.div_lt_upper_bound; lia).
  pose proof (N.mod_upper_bound b0 4 ltac:(lia)).
  pose proof (N.mod_upper_bound b1 16 ltac:(lia)).
  pose proof (N.div_mod b0 4 ltac:(lia)).
  pose proof (N.div_mod b1 16 ltac:(lia)).
  pose proof (N.div_mod b2 64 ltac:(lia)).
  rewrite (N.div_add_l (b0 mod 4) 16 (b1 / 16)) by lia.
  rewrite (N.div_small (b1 / 16) 16) by lia.
  rewrite (N.add_comm ((b0 mod 4) * 16) (b1 / 16)).
  rewrite (N.Div0.mod_add (b1 / 16) (b0 mod 4) 16).
  rewrite (N.mod_small (b1 / 16) 16) by lia.
  rewrite (N.div_add_l (b1 mod 16) 4 (b2 / 64)) by lia.
  rewrite (N.div_small (b2 / 64) 4) by lia.
  rewrite (N.add_comm ((b1 mod 16) * 4) (b2 / 64)).
  rewrite (N.Div0.mod_add (b2 / 64) (b1 mod 16) 4).
  rewrite (N.mod_small (b2 / 64) 4) by lia.
  rewrite (N.div_mul (b0 mod 4) 16) by lia.
  rewrite (N.div_mul (b1 mod 16) 4) by lia.
  lia.
Qed.

Lemma base64url_roundtrip_bounded (n : nat) (bs : list N) :
  (List.length bs <= n)%nat ->
  Forall (fun b => b < 256) bs ->
  Buffer.fromBase64Url (Buffer.toBase64Url bs) = bs.
Proof.
  revert bs; induction n as [|n IH]; intros bs Hlen Hb.
  - destruct bs; [reflexivity | simpl in Hlen; lia].
  - destruct bs as [|b0 [|b1 [|b2 rest]]]; [reflexivity| | |].
    + inversion Hb as [|? ? H0 _]; subst.
      destruct (sextet_bounds b0 0 0 H0) as (S0 & _ & _ & _ & S1 & _);
        [lia | lia |].
      destruct (regroup b0 0 0 H0) as (_ & _ & _ & R & _); [lia | lia |].
      unfold Buffer.fromBase64Url. cbn [Buffer.toBase64Url].
      rewrite !sextets_cons by assumption.
      cbn [Buffer.sextets Buffer.fromSextets]. rewrite R. reflexivity.
    + inversion Hb as [|? ? H0 Hb1]; subst.
      inversion Hb1 as [|? ? H1 _]; subst.
      destruct (sextet_bounds b0 b1 0 H0 H1) as (S0 & S1 & _ & _ & _ & S2);
        [lia|].
      destruct (regroup b0 b1 0 H0 H1) as (R0 & _ & _ & _ & R1); [lia|].
      unfold Buffer.fromBase64Url. cbn [Buffer.toBase64Url].
      rewrite !sextets_cons by assumption.
      cbn [Buffer.sextets Buffer.fromSextets]. rewrite R0, R1. reflexivity.
    + inversion Hb as [|? ? H0 Hb1]; subst.
      inversion Hb1 as [|? ? H1 Hb2]; subst.
      inversion Hb2 as [|? ? H2 Hb3]; subst.
      destruct (sextet_bounds b0 b1 b2 H0 H1 H2) as (S0 & S1 & S2 & S3 & _).
      destruct (regroup b0 b1 b2 H0 H1 H2) as (R0 & R1 & R2 & _).
      unfold Buffer.fromBase64Url in *. cbn [Buffer.toBase64Url].
      rewrite !sextets_cons by assumption.
      cbn [Buffer.fromSextets]. rewrite R0, R1, R2.
      rewrite IH; [reflexivity | simpl in Hlen; lia | assumption].
Qed.

(** Decoding an encoded buffer gives the buffer back. *)
Lemma base64url_roundtrip (bs : list N) :
  Forall (fun b => b < 256) bs ->
  Buffer.fromBase64Url (Buffer.toBase64Url bs) = bs.
Proof. apply base64url_roundtrip_bounded with (n := List.length bs); lia. Qed.

Lemma bytesEq_spec (a b : list N) : Buffer.bytesEq a b = true <-> a = b.
Proof. exact (eqs_spec a b). Qed.

Lemma toBase64Url_truthy (bs : list N) :
  bs <> [] -> falsy (Buffer.toBase64Url bs) = false.
Proof.
  destruct bs as [|b0 [|b1 [|b2 rest]]]; [congruence | reflexivity ..].
Qed.

Lemma digest_nonempty (P : Platform) (key msg : jsstring) :
  Props.hmacIsDigest P -> hmacSha256 P key msg <> [].
Proof.
  intros H E. destruct (H key msg) as [Hl _]. rewrite E in Hl. discriminate.
Qed.

(** What [verifyPrivateUrlToken] comes to, case by case. *)
Lemma verifyPrivateUrlToken_cases (P : Platform) (secret requestPath : jsstring)
  (expiresAt : Z) (token : jsstring) :
  Props.hmacIsDigest P ->
  verifyPrivateUrlToken P secret requestPath expiresAt token =
    if falsy secret || falsy token then Ok false
    else if (List.length (Buffer.fromBase64Url token) =? 32)%nat
    then Ok (Buffer.bytesEq
               (hmacSha256 P secret
                  (requestPath ++ [LF] ++ numberToString expiresAt))
               (Buffer.fromBase64Url token))
    else Throw RangeError.
Proof.
  intros Hd. unfold verifyPrivateUrlToken, signPrivateUrl.
  destruct (falsy secret || falsy token); [reflexivity|].
  destruct (Hd secret (requestPath ++ [LF] ++ numberToString expiresAt))
    as [Hl Hb].
  rewrite (base64url_roundtrip _ Hb).
  unfold Buffer.timingSafeEqual. rewrite Hl.
  rewrite (Nat.eqb_sym 32). reflexivity.
Qed.

Lemma verify_own_token (P : Platform) (secret requestPath : jsstring)
  (expiresAt : Z) :
  Props.hmacIsDigest P -> secret <> [] ->
  verifyPrivateUrlToken P secret requestPath expiresAt
    (signPrivateUrl P secret requestPath expiresAt) = Ok true.
Proof.
  intros Hd Hs. unfold verifyPrivateUrlToken.
  assert (falsy secret = false) as ->
    by (destruct secret; [congruence | reflexivity]).
  unfold signPrivateUrl at 1.
  rewrite toBase64Url_truthy by (apply digest_nonempty; assumption).
  simpl orb. cbv iota. unfold Buffer.timingSafeEqual.
  rewrite Nat.eqb_refl. f_equal. apply bytesEq_spec. reflexivity.
Qed.

Lemma verify_other_token (P : Platform) (secret pathA pathB : jsstring)
  (expA expB : Z) :
  Props.hmacIsDigest P -> secret <> [] ->
  verifyPrivateUrlToken P secret pathB expB
    (signPrivateUrl P secret pathA expA)
  = Ok (Buffer.bytesEq
          (hmacSha256 P secret (pathB ++ [LF] ++ numberToString expB))
          (hmacSha256 P secret (pathA ++ [LF] ++ numberToString expA))).
Proof.
  intros Hd Hs. rewrite verifyPrivateUrlToken_cases by assumption.
  assert (falsy secret = false) as ->
    by (destruct secret; [congruence | reflexivity]).
  unfold signPrivateUrl.
  rewrite toBase64Url_truthy by (apply digest_nonempty; assumption).
  destruct (Hd secret (pathA ++ [LF] ++ numberToString expA)) as [Hl Hb].
  rewrite (base64url_roundtrip _ Hb), Hl. reflexivity.
Qed.

(** The gate on a request that names a private file: the three checks. *)
Lemma gate_on_private_file (P : Platform) (c : Config) (e : GateEnv)
  (r : Request) (absPath : jsstring) :
  Props.namesPrivateFile P c e r absPath ->
  gate P c e r =
    match (if negb (bearerAllows P e r) && truthy (privateSecretOf c)
           then hmacAllows P c e r
           else Ok (bearerAllows P e r)) with
    | Throw x => Fault x
    | Ok false => Status 403
    | Ok true => Serve absPath (NodePath.extname absPath)
    end.
Proof.
  intros (Hm & Hp & Hr & Hf). unfold gate.
  rewrite Hm, Hp, Hr, Hf. reflexivity.
Qed.

Lemma hmacAllows_signed (P : Platform) (c : Config) (e : GateEnv)
  (r : Request) (expiry : Z) :
  Props.hmacIsDigest P -> privateSecretOf c <> [] ->
  Props.carriesSignedToken P c r expiry ->
  hmacAllows P c e r = Ok (now e <? expiry * 1000)%Z.
Proof.
  intros Hd Hs (expires & He & Hp & Ht). unfold hmacAllows.
  rewrite He, Hp, Ht. unfold truthy, signPrivateUrl at 1.
  rewrite toBase64Url_truthy by (apply digest_nonempty; assumption).
  simpl. destruct (now e <? expiry * 1000)%Z; [|reflexivity].
  apply verify_own_token; assumption.
Qed.

Lemma serverMiddleware_enabled (P : Platform) (c : Config) :
  privateEnable c = true -> serverMiddleware P c = Some (gate P c).
Proof.
  intros Hen. unfold serverMiddleware. rewrite Hen.
  pose proof (privateFolderNorm_enabled c Hen) as Hne.
  destruct (privateFolderNorm c); [congruence | reflexivity].
Qed.

Lemma invalidBearer_denies (P : Platform) (e : GateEnv) (r : Request) :
  Props.invalidBearer P e r -> bearerAllows P e r = false.
Proof.
  intros [Ha Hu]. unfold bearerAllows.
  destruct (truthy (bearerOf P (authorization r))); [|reflexivity].
  apply orb_false_iff. split.
  - unfold adminAllows. unfold Props.verifierFails in Ha.
    destruct (adminDecode e) as [v|]; [|reflexivity].
    destruct (v _); [assumption | reflexivity].
  - unfold ownerAllows. unfold Props.verifierFails in Hu.
    destruct (jwtVerify e) as [v|]; [|reflexivity].
    destruct (v _) as [[id|]|]; [discriminate | reflexivity | reflexivity].
Qed.

(** C2.  The verifier is not total: for a non-empty secret and a non-empty
    token that decodes to a number of bytes other than the 32 of the digest,
    [crypto.timingSafeEqual] throws a [RangeError] and so does
    [verifyPrivateUrlToken]; it does not return [false].  Nothing in the
    gate catches it: a request for a private file without a valid bearer
    credential that carries such a token and an expiry still ahead makes the
    middleware throw instead of answering 403. *)
Theorem verifyPrivateUrlToken_throws_on_length_mismatch (P : Platform)
  (secret token : jsstring) :
  Props.hmacIsDigest P ->
  secret <> [] -> token <> [] ->
  List.length (Buffer.fromBase64Url token) <> 32%nat ->
  (forall requestPath expiresAt,
     verifyPrivateUrlToken P secret requestPath expiresAt token
     = Throw RangeError) /\
  (forall c e r absPath expires expiry,
     privateSecretOf c = secret ->
     Props.namesPrivateFile P c e r absPath ->
     bearerAllows P e r = false ->
     queryToken r = Some token ->
     queryExpires r = Some expires ->
     parseInt10 expires = Some expiry ->
     (now e < expiry * 1000)%Z ->
     gate P c e r = Fault RangeError).
Proof.
  intros Hd Hs Ht Hl.
  assert (forall requestPath expiresAt,
            verifyPrivateUrlToken P secret requestPath expiresAt token
            = Throw RangeError) as Hthrow.
  { intros requestPath expiresAt.
    rewrite verifyPrivateUrlToken_cases by assumption.
    destruct secret; [congruence|]. destruct token; [congruence|].
    simpl falsy. simpl orb. cbv iota.
    apply Nat.eqb_neq in Hl. rewrite Hl. reflexivity. }
  split; [exact Hthrow|].
  intros c e r absPath expires expiry Hc Hn Hb Hq He Hp Hnow.
  rewrite (gate_on_private_file P c e r absPath Hn), Hb, Hc.
  assert (truthy secret = true) as ->
    by (destruct secret; [congruence | reflexivity]).
  assert (truthy token = true) as Htok
    by (destruct token; [congruence | reflexivity]).
  simpl. unfold hmacAllows. rewrite He, Hp, Hq, Htok, Hc.
  apply Z.ltb_lt in Hnow. rewrite Hnow. simpl. rewrite Hthrow. reflexivity.
Qed.

(** C7.  For a non-empty secret and expiries that JavaScript holds exactly:
    (1) the token [signPrivateUrl] makes for a path and an expiry decodes
    to the HMAC of the path, a line feed and the expiry in decimal, which
    [parseInt] reads back, and it verifies for that path and expiry;
    (2) the token is bound to both: for another path or another expiry the
    signed message differs, and the token verifies there exactly when the
    two digests coincide, so it is refused unless HMAC collides on the two
    messages; (3) with private mode on, on a request without a valid bearer
    credential that carries the token signed for its path, the registered
    gate serves the file when the query states the signed expiry and
    [Date.now()] is before it, answers 403 from the expiry on, answers 403
    when the query states another expiry, later or not, unless HMAC
    collides, and answers 403 when the query states none. *)
Theorem sign_verify_expiry (P : Platform) (secret : jsstring) :
  Props.hmacIsDigest P -> secret <> [] ->
  (forall requestPath expiresAt,
     Props.safeInteger expiresAt ->
     Buffer.fromBase64Url (signPrivateUrl P secret requestPath expiresAt)
     = hmacSha256 P secret
         (requestPath ++ [LF] ++ numberToString expiresAt) /\
     parseInt10 (numberToString expiresAt) = Some expiresAt /\
     verifyPrivateUrlToken P secret requestPath expiresAt
       (signPrivateUrl P secret requestPath expiresAt) = Ok true)
  /\
  (forall pathA pathB expA expB,
     Props.safeInteger expA -> Props.safeInteger expB ->
     pathA <> pathB \/ expA <> expB ->
     pathA ++ [LF] ++ numberToString expA
     <> pathB ++ [LF] ++ numberToString expB /\
     (verifyPrivateUrlToken P secret pathB expB
        (signPrivateUrl P secret pathA expA) = Ok true
      <-> hmacSha256 P secret (pathB ++ [LF] ++ numberToString expB)
          = hmacSha256 P secret (pathA ++ [LF] ++ numberToString expA))
     /\
     (hmacSha256 P secret (pathB ++ [LF] ++ numberToString expB)
      <> hmacSha256 P secret (pathA ++ [LF] ++ numberToString expA) ->
      verifyPrivateUrlToken P secret pathB expB
        (signPrivateUrl P secret pathA expA) = Ok false))
  /\
  (forall c e r absPath expiry,
     privateEnable c = true ->
     privateSecretOf c = secret ->
     Props.namesPrivateFile P c e r absPath ->
     bearerAllows P e r = false ->
     Props.exactSeconds expiry ->
     queryToken r = Some (signPrivateUrl P secret (reqPath r) expiry) ->
     serverMiddleware P c = Some (gate P c) /\
     (forall expires,
        queryExpires r = Some expires ->
        parseInt10 expires = Some expiry ->
        gate P c e r =
          if (now e <? expiry * 1000)%Z
          then Serve absPath (NodePath.extname absPath)
          else Status 403) /\
     (forall expires other,
        queryExpires r = Some expires ->
        parseInt10 expires = Some other ->
        Props.exactSeconds other ->
        other <> expiry ->
        hmacSha256 P secret (reqPath r ++ [LF] ++ numberToString other)
        <> hmacSha256 P secret (reqPath r ++ [LF] ++ numberToString expiry) ->
        gate P c e r = Status 403) /\
     (queryExpires r = None \/
      (exists expires,
         queryExpires r = Some expires /\ parseInt10 expires = None) ->
      gate P c e r = Status 403)).
Proof.
  intros Hd Hs. split; [|split].
  - intros requestPath expiresAt _. split; [|split].
    + unfold signPrivateUrl. apply base64url_roundtrip. apply Hd.
    + apply parseInt10_numberToString.
    + apply verify_own_token; assumption.
  - intros pathA pathB expA expB _ _ Hne.
    rewrite verify_other_token by assumption. split; [|split].
    + intros E. apply signed_message_inj in E. destruct E as [E1 E2].
      destruct Hne as [Hne | Hne]; [apply Hne; congruence|].
      apply Hne; congruence.
    + split.
      * intros E. injection E as E. apply bytesEq_spec in E. exact E.
      * intros E. f_equal. apply bytesEq_spec. exact E.
    + intros Hm. f_equal. destruct (Buffer.bytesEq _ _) eqn:E; [|reflexivity].
      apply bytesEq_spec in E. contradiction.
  - intros c e r absPath expiry Hen Hc Hn Hb _ Ht.
    assert (truthy secret = true) as Htr
      by (destruct secret; [congruence | reflexivity]).
    assert (truthy (signPrivateUrl P secret (reqPath r) expiry) = true)
      as Htok.
    { unfold truthy, signPrivateUrl.
      rewrite toBase64Url_truthy by (apply digest_nonempty; assumption).
      reflexivity. }
    split; [rewrite (serverMiddleware_enabled P c Hen); reflexivity|].
    rewrite (gate_on_private_file P c e r absPath Hn), Hb, Hc, Htr.
    cbn [negb andb]. unfold hmacAllows. rewrite Ht, Hc.
    split; [|split].
    + intros expires He Hp. rewrite He, Hp, Htok. cbn [andb].
      destruct (now e <? expiry * 1000)%Z; [|reflexivity].
      rewrite verify_own_token by assumption. reflexivity.
    + intros expires other He Hp _ Hother Hm. rewrite He, Hp, Htok.
      cbn [andb]. destruct (now e <? other * 1000)%Z; [|reflexivity].
      rewrite verify_other_token by assumption.
      destruct (Buffer.bytesEq _ _) eqn:E; [|reflexivity].
      apply bytesEq_spec in E. contradiction.
    + intros [He | (expires & He & Hp)].
      * rewrite He. reflexivity.
      * rewrite He, Hp. reflexivity.
Qed.

(** C9.  With private mode on and a signing secret configured, the gate is
    registered, and on a GET under the private prefix that names a regular
    file: a request whose bearer credential is invalid (each verifier is
    absent, throws or returns nothing) and whose query carries the token
    signed for the request path with an expiry still ahead, a number of
    seconds that JavaScript holds exactly, is served; a request with no
    authorization header and neither [token] nor [expires] is answered
    403. *)
Theorem gate_ordering (P : Platform) (c : Config) (e : GateEnv) (r : Request)
  (absPath : jsstring) :
  Props.hmacIsDigest P ->
  privateEnable c = true ->
  privateSecretOf c <> [] ->
  Props.namesPrivateFile P c e r absPath ->
  serverMiddleware P c = Some (gate P c) /\
  (forall expiry,
     Props.exactSeconds expiry ->
     Props.invalidBearer P e r ->
     Props.carriesSignedToken P c r expiry ->
     (now e < expiry * 1000)%Z ->
     gate P c e r = Serve absPath (NodePath.extname absPath))
  /\
  (authorization r = None -> queryToken r = None -> queryExpires r = None ->
   gate P c e r = Status 403).
Proof.
  intros Hd Hen Hs Hn.
  split; [apply serverMiddleware_enabled; assumption|].
  assert (truthy (privateSecretOf c) = true) as Htr
    by (destruct (privateSecretOf c); [congruence | reflexivity]).
  rewrite (gate_on_private_file P c e r absPath Hn), Htr. split.
  - intros expiry _ Hb Ht Hnow.
    rewrite (invalidBearer_denies P e r Hb). simpl.
    rewrite (hmacAllows_signed P c e r expiry) by assumption.
    apply Z.ltb_lt in Hnow. rewrite Hnow. reflexivity.
  - intros Ha Hq He. unfold bearerAllows, hmacAllows.
    rewrite Ha, Hq. reflexivity.
Qed.

End Signer.

(* ------------------------------------------------------------------ *)
(** ** Cleanup of empty Media Library folders *)

Section AdminFolderCleanup.
Import Provider Props.
Context {DB : Type} (S0 : Strapi DB).

Lemma zero_ltb (n : N) : (0 <? n) = false -> n = 0.
Proof. intros H. apply N.ltb_ge in H. lia. Qed.

(** One round of the loop, when the folder is eligible. *)
Lemma walkUp_eligible (fuel : nat) (fileHash : jsstring) (db : DB) (id : N)
  (row : FolderRow) :
  eligible S0 fileHash db id row ->
  walkUp S0 (S fuel) fileHash db id =
    match deleteFolderById S0 db id with
    | (Throw _, db') =>
        {| requested := [id]; finalDb := db'; ended := true |}
    | (Ok _, db') =>
        match truthyId (folderParent row) with
        | None => {| requested := [id]; finalDb := db'; ended := true |}
        | Some p =>
            let w := walkUp S0 fuel fileHash db' p in
            {| requested := id :: requested w; finalDb := finalDb w;
               ended := ended w |}
        end
    end.
Proof.
  intros (Hf & Hc & Hn). simpl. rewrite Hf, Hc, Hn. reflexivity.
Qed.

(** One round of the loop, when it is not. *)
Lemma walkUp_not_eligible (fuel : nat) (fileHash : jsstring) (db : DB)
  (id : N) :
  (forall row, ~ eligible S0 fileHash db id row) ->
  walkUp S0 (S fuel) fileHash db id =
    {| requested := []; finalDb := db; ended := true |}.
Proof.
  intros Hne. simpl.
  destruct (folderFindById S0 db id) as [[row|]|] eqn:Hf; try reflexivity.
  destruct (folderCountChildren S0 db id) as [n|] eqn:Hc; try reflexivity.
  destruct (0 <? n) eqn:Hn0; [reflexivity|].
  destruct (fileCountOthers S0 db (folderRowPath row) fileHash) as [m|] eqn:Hm;
    try reflexivity.
  destruct (0 <? m) eqn:Hm0; [reflexivity|].
  exfalso. apply (Hne row). apply zero_ltb in Hn0, Hm0. subst.
  repeat split; assumption.
Qed.

Lemma eligible_dec (fileHash : jsstring) (db : DB) (id : N) :
  (exists row, eligible S0 fileHash db id row) \/
  (forall row, ~ eligible S0 fileHash db id row).
Proof.
  unfold eligible.
  destruct (folderFindById S0 db id) as [[row|]|] eqn:Hf;
    try (right; intros row' (H & _); congruence).
  destruct (folderCountChildren S0 db id) as [n|] eqn:Hc;
    try (right; intros row' (_ & H & _); congruence).
  destruct (N.eq_dec n 0) as [->|Hn];
    [|right; intros row' (_ & H & _); congruence].
  destruct (fileCountOthers S0 db (folderRowPath row) fileHash) as [m|] eqn:Hm.
  - destruct (N.eq_dec m 0) as [->|Hm0].
    + left. exists row. auto.
    + right. intros row' (H1 & _ & H3).
      assert (row' = row) by congruence. subst. congruence.
  - right. intros row' (H1 & _ & H3).
    assert (row' = row) by congruence. subst. congruence.
Qed.

Lemma walkUp_sound (fuel : nat) (fileHash : jsstring) (db : DB) (id : N) :
  ended (walkUp S0 fuel fileHash db id) = true ->
  walkSpec S0 fileHash db id
    (requested (walkUp S0 fuel fileHash db id))
    (finalDb (walkUp S0 fuel fileHash db id)).
Proof.
  revert db id; induction fuel as [|fuel IH]; intros db id Hend.
  - discriminate.
  - destruct (eligible_dec fileHash db id) as [[row Hel] | Hne].
    + rewrite (walkUp_eligible fuel fileHash db id row Hel) in *.
      destruct (deleteFolderById S0 db id) as [[u|x] db'] eqn:Hd.
      * destruct (truthyId (folderParent row)) as [p|] eqn:Hp.
        -- simpl in *. eapply walk_up; eauto.
        -- simpl. eapply walk_top; eauto.
      * simpl. eapply walk_delete_throws; eauto.
    + rewrite (walkUp_not_eligible fuel fileHash db id Hne).
      simpl. apply walk_stop; assumption.
Qed.

Lemma walkUp_complete (fileHash : jsstring) (db : DB) (id : N) (l : list N)
  (db' : DB) :
  walkSpec S0 fileHash db id l db' ->
  forall fuel, (List.length l < fuel)%nat ->
  walkUp S0 fuel fileHash db id
  = {| requested := l; finalDb := db'; ended := true |}.
Proof.
  induction 1 as [db id Hne | db id row x db' Hel Hd | db id row u db' Hel Hd Hp
                 | db id row u db' p l db'' Hel Hd Hp Hw IH];
    intros fuel Hfuel; (destruct fuel as [|fuel]; [simpl in Hfuel; lia|]).
  - apply walkUp_not_eligible; assumption.
  - rewrite (walkUp_eligible fuel fileHash db id row Hel), Hd. reflexivity.
  - rewrite (walkUp_eligible fuel fileHash db id row Hel), Hd, Hp.
    reflexivity.
  - rewrite (walkUp_eligible fuel fileHash db id row Hel), Hd, Hp.
    rewrite (IH fuel) by (simpl in Hfuel; lia). reflexivity.
Qed.

Lemma walkUp_justified (fuel : nat) (fileHash : jsstring) (db : DB) (id : N) :
  requestsJustified S0 fileHash db id
    (requested (walkUp S0 fuel fileHash db id)).
Proof.
  revert db id; induction fuel as [|fuel IH]; intros db id.
  - apply justified_none.
  - destruct (eligible_dec fileHash db id) as [[row Hel] | Hne].
    + rewrite (walkUp_eligible fuel fileHash db id row Hel).
      destruct (deleteFolderById S0 db id) as [[u|x] db'] eqn:Hd.
      * destruct (truthyId (folderParent row)) as [p|] eqn:Hp.
        -- simpl. eapply justified_more; eauto.
        -- simpl. eapply justified_last; eauto.
      * simpl. eapply justified_last; eauto.
    + rewrite (walkUp_not_eligible fuel fileHash db id Hne).
      apply justified_none.
Qed.

(** C8.  The cleanup requests the deletion of a folder only when the folder
    is there, has no child folder and has no file under its path other than
    the one being deleted (files are told apart by hash); it goes from a
    deleted folder to its parent, and stops at the first folder that does
    not qualify, after a deletion that throws, and at a folder without a
    parent; a query or a deletion that throws ends the walk and is not
    passed on.  The walk that the specification describes and the loop of
    the source request the same deletions and leave the same database; with
    the cleanup switched off, or without a folder to start from, nothing is
    requested. *)
Theorem admin_folder_cleanup (c : Config) (file : File) (db : DB)
  (fuel : nat) :
  let w := maybeCleanupEmptyAdminFolders S0 c fuel file db in
  match cleanupEmptyAdminFolders c, startFolder S0 file db with
  | true, Some start =>
      requestsJustified S0 (hash file) db start (requested w) /\
      (ended w = true ->
       walkSpec S0 (hash file) db start (requested w) (finalDb w)) /\
      (forall l db',
         walkSpec S0 (hash file) db start l db' ->
         (List.length l < fuel)%nat ->
         w = {| requested := l; finalDb := db'; ended := true |})
  | _, _ => w = {| requested := []; finalDb := db; ended := true |}
  end.
Proof.
  unfold maybeCleanupEmptyAdminFolders.
  destruct (cleanupEmptyAdminFolders c); simpl; [|reflexivity].
  destruct (startFolder S0 file db) as [start|]; [|reflexivity].
  split; [apply walkUp_justified|]. split.
  - apply walkUp_sound.
  - intros l db' Hw Hfuel. apply walkUp_complete; assumption.
Qed.

End AdminFolderCleanup.

(* ------------------------------------------------------------------ *)
(** ** Delete *)

Section DeleteFacts.
Import Provider.

Lemma flat_map_nil {A B : Type} (f : A -> list B) (l : list A) :
  (forall x, In x l -> f x = []) -> flat_map f l = [].
Proof.
  induction l as [|a l IH]; intros H; simpl; [reflexivity|].
  rewrite (H a) by (left; reflexivity). apply IH.
  intros x Hx. apply H. right; assumption.
Qed.

(** What [delete] does once the first loop has a hit. *)
Lemma delete_first_hit (P : Platform) (c : Config) (DB : Type)
  (S0 : Strapi DB) (fuel : nat) (file : File) (d : Fs.fs) (db : DB)
  (abs : jsstring) :
  firstDirectHit P c d (objectPaths P c file) = Some abs ->
  delete P c S0 fuel file d db =
    if Fs.isFile d abs then
      let w := maybeCleanupEmptyAdminFolders S0 c fuel file db in
      if ended w then
        Some {| outcome := Ok None;
                diskAfter :=
                  if cleanupEmptyDirs c
                  then PathUtils.cleanupEmptyDirs P (Fs.remove d abs) abs
                         (uploadPath P c)
                  else Fs.remove d abs;
                dbAfter := finalDb w;
                foldersRequested := requested w |}
      else None
    else
      Some {| outcome := Throw IOError; diskAfter := d; dbAfter := db;
              foldersRequested := [] |}.
Proof.
  intros H. unfold delete. rewrite H. unfold removeHit, Fs.unlink, Fs.isFile.
  destruct (Fs.lookup d abs) as [[bytes|]|]; reflexivity.
Qed.

(** C4.  The first loop of [delete] tests a candidate with [existsSync]
    only.  When its first hit is a regular file, [delete] unlinks that file
    and no other and resolves; when its first hit is anything else, [unlink]
    rejects and [delete] rejects with it.  With uploads kept under prefix
    [p], the descriptor [{hash: 'a', ext: '.png'}] has the candidates
    [p/a.png] and [a.png], in this order; on a disk where [p/a.png] is a
    directory and [a.png] a regular file, the directory is the first hit:
    it is not skipped, and the regular file behind the second candidate
    stays on disk. *)
Theorem delete_stops_at_directory (P : Platform) (DB : Type)
  (S0 : Strapi DB) (fuel : nat) (db : DB) :
  (forall c file d abs,
     firstDirectHit P c d (objectPaths P c file) = Some abs ->
     cleanupEmptyDirs c = false -> cleanupEmptyAdminFolders c = false ->
     delete P c S0 fuel file d db =
       if Fs.isFile d abs then
         Some {| outcome := Ok None; diskAfter := Fs.remove d abs;
                 dbAfter := db; foldersRequested := [] |}
       else
         Some {| outcome := Throw IOError; diskAfter := d; dbAfter := db;
                 foldersRequested := [] |}) /\
  objectPaths P Model.prefixedConfig Model.bareFile
  = [str "p/a.png"; str "a.png"] /\
  directHit P Model.prefixedConfig Model.diskWithDirectory (str "p/a.png")
  = Some (str "/srv/app/public/uploads/p/a.png") /\
  Fs.isFile Model.diskWithDirectory (str "/srv/app/public/uploads/p/a.png")
  = false /\
  directHit P Model.prefixedConfig Model.diskWithDirectory (str "a.png")
  = Some (str "/srv/app/public/uploads/a.png") /\
  Fs.isFile Model.diskWithDirectory (str "/srv/app/public/uploads/a.png")
  = true /\
  delete P Model.prefixedConfig S0 fuel Model.bareFile
    Model.diskWithDirectory db
  = Some {| outcome := Throw IOError;
            diskAfter := Model.diskWithDirectory;
            dbAfter := db;
            foldersRequested := [] |}.
Proof.
  split.
  - intros c file d abs Hhit Hdirs Hfolders.
    rewrite (delete_first_hit P c DB S0 fuel file d db abs Hhit).
    unfold maybeCleanupEmptyAdminFolders. rewrite Hdirs, Hfolders.
    reflexivity.
  - repeat split; vm_compute; reflexivity.
Qed.

Lemma hd_flat_map {A B : Type} (f : A -> list B) (l : list A) (y : B) :
  hd_error (flat_map f l) = Some y -> exists x, In x l /\ In y (f x).
Proof.
  intros H. assert (In y (flat_map f l)) as Hin.
  { destruct (flat_map f l); [discriminate|]. injection H as ->.
    left; reflexivity. }
  apply in_flat_map in Hin. exact Hin.
Qed.

Lemma flat_map_each_nil {A B : Type} (f : A -> list B) (l : list A) :
  flat_map f l = [] -> forall x, In x l -> f x = [].
Proof.
  induction l as [|a l IH]; intros H x Hx; [destruct Hx|].
  cbn [flat_map] in H. apply app_eq_nil in H. destruct H as [Ha Hl].
  destruct Hx as [<- | Hx]; [exact Ha | exact (IH Hl x Hx)].
Qed.

Lemma hd_flat_map_none {A B : Type} (f : A -> list B) (l : list A) :
  hd_error (flat_map f l) = None -> forall x, In x l -> f x = [].
Proof.
  intros H x Hx. destruct (f x) as [|y t] eqn:E; [reflexivity|].
  assert (In y (flat_map f l)) as Hin.
  { apply in_flat_map. exists x. split; [exact Hx|].
    rewrite E. left. reflexivity. }
  destruct (flat_map f l); [destruct Hin | discriminate].
Qed.

(** A hit of the first loop is a place that exists. *)
Lemma firstDirectHit_place (P : Platform) (c : Config) (d : Fs.fs)
  (l : list jsstring) (abs : jsstring) :
  firstDirectHit P c d l = Some abs ->
  exists o,
    In o l /\ PathUtils.normalizeRelativeSlashPath o <> [] /\
    PathUtils.safeResolveUnderRoot P (uploadPath P c)
      (PathUtils.normalizeRelativeSlashPath o) = Some abs /\
    Fs.existsSync d abs = true.
Proof.
  unfold firstDirectHit. intros H. apply hd_flat_map in H.
  destruct H as (o & Ho & Hin). exists o. split; [exact Ho|].
  unfold directHit in Hin.
  destruct (PathUtils.normalizeRelativeSlashPath o) as [|x rel] eqn:Hrel;
    [destruct Hin|].
  cbn [falsy] in Hin.
  destruct (PathUtils.safeResolveUnderRoot _ _ _) as [a|] eqn:E;
    [|destruct Hin].
  destruct (Fs.existsSync d a) eqn:Hex; [|destruct Hin].
  destruct Hin as [<- | []].
  split; [discriminate|]. split; [reflexivity | exact Hex].
Qed.

Lemma firstDirectHit_none (P : Platform) (c : Config) (d : Fs.fs)
  (l : list jsstring) :
  firstDirectHit P c d l = None ->
  forall o abs,
    In o l -> PathUtils.normalizeRelativeSlashPath o <> [] ->
    PathUtils.safeResolveUnderRoot P (uploadPath P c)
      (PathUtils.normalizeRelativeSlashPath o) = Some abs ->
    Fs.existsSync d abs = false.
Proof.
  unfold firstDirectHit. intros H o abs Ho Hne Hr.
  pose proof (hd_flat_map_none _ _ H o Ho) as Hnil. cbv beta in Hnil.
  unfold directHit in Hnil.
  destruct (PathUtils.normalizeRelativeSlashPath o) as [|x rel];
    [congruence|].
  cbn [falsy] in Hnil. rewrite Hr in Hnil.
  destruct (Fs.existsSync d abs); [discriminate | reflexivity].
Qed.

(** A hit of the second loop is a place that exists. *)
Lemma firstScanHit_place (P : Platform) (c : Config) (d : Fs.fs)
  (file : File) (abs : jsstring) :
  firstScanHit P c d file = Some abs ->
  exists dir entries entry,
    In dir (dirCandidates P c (objectPaths P c file)) /\
    Fs.readdir d dir = Ok entries /\ In entry entries /\
    filenameMatches P (hash file) (filter truthy (extCandidates P c file))
      entry = true /\
    PathUtils.safeResolveUnderRoot P (uploadPath P c)
      (NodePath.relative P (uploadPath P c) (NodePath.join [dir; entry]))
    = Some abs /\
    Fs.existsSync d abs = true.
Proof.
  unfold firstScanHit. intros H. apply hd_flat_map in H.
  destruct H as (dir & Hdir & Hin). unfold scanDir in Hin.
  destruct (Fs.readdir d dir) as [entries|] eqn:Hrd; [|destruct Hin].
  apply in_flat_map in Hin. destruct Hin as (entry & Hentry & Hin).
  destruct (filenameMatches _ _ _ _) eqn:Hm; [|destruct Hin].
  destruct (PathUtils.safeResolveUnderRoot _ _ _) as [a|] eqn:E;
    [|destruct Hin].
  destruct (Fs.existsSync d a) eqn:Hex; [|destruct Hin].
  destruct Hin as [<- | []].
  exists dir, entries, entry. repeat split; assumption.
Qed.

Lemma firstScanHit_none (P : Platform) (c : Config) (d : Fs.fs)
  (file : File) :
  firstScanHit P c d file = None ->
  forall dir entries entry abs,
    In dir (dirCandidates P c (objectPaths P c file)) ->
    Fs.readdir d dir = Ok entries -> In entry entries ->
    filenameMatches P (hash file) (filter truthy (extCandidates P c file))
      entry = true ->
    PathUtils.safeResolveUnderRoot P (uploadPath P c)
      (NodePath.relative P (uploadPath P c) (NodePath.join [dir; entry]))
    = Some abs ->
    Fs.existsSync d abs = false.
Proof.
  unfold firstScanHit. intros H dir entries entry abs Hdir Hrd Hentry Hm Hr.
  pose proof (hd_flat_map_none _ _ H dir Hdir) as Hnil.
  unfold scanDir in Hnil. rewrite Hrd in Hnil.
  pose proof (flat_map_each_nil _ _ Hnil entry Hentry) as He.
  cbv beta in He. rewrite Hm, Hr in He.
  destruct (Fs.existsSync d abs); [discriminate | reflexivity].
Qed.

(** [unlink] rejects on what is not a regular file, and [delete] with it. *)
Lemma removeHit_not_file (P : Platform) (c : Config) (DB : Type)
  (S0 : Strapi DB) (fuel : nat) (file : File) (d : Fs.fs) (db : DB)
  (abs : jsstring) :
  Fs.isFile d abs = false ->
  removeHit P c S0 fuel file d db abs
  = Some {| outcome := Throw IOError; diskAfter := d; dbAfter := db;
            foldersRequested := [] |}.
Proof.
  unfold removeHit, Fs.unlink, Fs.isFile.
  destruct (Fs.lookup d abs) as [[bytes|]|]; [discriminate | reflexivity ..].
Qed.

(** C5.  Taken as it is stated, for a descriptor and a disk on which no
    place where [delete] looks holds a regular file: [delete] resolves to
    the string [File doesn't exist] exactly when nothing at all is at those
    places.  When something is, which then is a directory, the first such
    place is a hit of [existsSync], [unlink] rejects on it, and [delete]
    rejects instead of reporting that the file does not exist.  Either way
    the disk and the database stay as they were. *)
Theorem delete_not_found (P : Platform) (c : Config) (DB : Type)
  (S0 : Strapi DB) (fuel : nat) (file : File) (d : Fs.fs) (db : DB) :
  Props.noMatchingFile P c file d ->
  (Props.nothingExists P c file d /\
   delete P c S0 fuel file d db
   = Some {| outcome := Ok (Some (str "File doesn't exist"));
             diskAfter := d;
             dbAfter := db;
             foldersRequested := [] |}) \/
  (~ Props.nothingExists P c file d /\
   delete P c S0 fuel file d db
   = Some {| outcome := Throw IOError;
             diskAfter := d;
             dbAfter := db;
             foldersRequested := [] |}).
Proof.
  intros [Hdirect Hscan]. unfold delete.
  destruct (firstDirectHit P c d (objectPaths P c file)) as [abs|] eqn:H1.
  - right. destruct (firstDirectHit_place P c d _ abs H1)
      as (o & Ho & Hne & Hr & Hex).
    split.
    + intros [Hnone _]. rewrite (Hnone o abs Ho Hne Hr) in Hex.
      discriminate.
    + apply removeHit_not_file. exact (Hdirect o abs Ho Hne Hr).
  - destruct (firstScanHit P c d file) as [abs|] eqn:H2.
    + right. destruct (firstScanHit_place P c d file abs H2)
        as (dir & entries & entry & Hdir & Hrd & Hentry & Hm & Hr & Hex).
      split.
      * intros [_ Hnone].
        rewrite (Hnone dir entries entry abs Hdir Hrd Hentry Hm Hr) in Hex.
        discriminate.
      * apply removeHit_not_file.
        exact (Hscan dir entries entry abs Hdir Hrd Hentry Hm Hr).
    + left. split; [|reflexivity]. split.
      * apply firstDirectHit_none. exact H1.
      * apply firstScanHit_none. exact H2.
Qed.

End DeleteFacts.

(* ------------------------------------------------------------------ *)
(** ** Sanitisation *)

Section Sanitize.
Import PathUtils Props.

(** *** Prefixes, suffixes and trimming *)

Lemma dropWhile_id (f : codeunit -> bool) (s : jsstring) :
  startsNot f s -> dropWhile f s = s.
Proof. destruct s as [|x s]; simpl; [reflexivity | intros ->; reflexivity]. Qed.

Lemma dropWhile_startsNot (f : codeunit -> bool) (s : jsstring) :
  startsNot f (dropWhile f s).
Proof.
  induction s as [|x s IH]; simpl; [exact I|].
  destruct (f x) eqn:E; [assumption | exact E].
Qed.

Lemma dropWhile_suffix (f : codeunit -> bool) (s : jsstring) :
  exists p, s = p ++ dropWhile f s.
Proof.
  induction s as [|x s [p IH]]; simpl.
  - exists []; reflexivity.
  - destruct (f x).
    + exists (x :: p). simpl. congruence.
    + exists []. reflexivity.
Qed.

Lemma dropWhileEnd_prefix (f : codeunit -> bool) (s : jsstring) :
  exists q, s = dropWhileEnd f s ++ q.
Proof.
  unfold dropWhileEnd. destruct (dropWhile_suffix f (rev s)) as [p Hp].
  exists (rev p). rewrite <- rev_app_distr, <- Hp, rev_involutive.
  reflexivity.
Qed.

Lemma startsNot_prefix (f : codeunit -> bool) (a b : jsstring) :
  startsNot f (a ++ b) -> a <> [] -> startsNot f a.
Proof. destruct a; [congruence | simpl; auto]. Qed.

Lemma dropBoth_trimmed (f : codeunit -> bool) (s : jsstring) :
  trimmedOf f (dropWhileEnd f (dropWhile f s)).
Proof.
  unfold trimmedOf, dropWhileEnd. rewrite rev_involutive.
  split; [|apply dropWhile_startsNot].
  set (t := dropWhile f s).
  destruct (dropWhile_suffix f (rev t)) as [p Hp].
  set (u := dropWhile f (rev t)) in *.
  destruct (rev u) as [|x ru] eqn:E; [exact I|].
  assert (t = rev u ++ rev p) as Ht.
  { rewrite <- rev_app_distr, <- Hp, rev_involutive. reflexivity. }
  pose proof (dropWhile_startsNot f s) as Hs. fold t in Hs.
  rewrite Ht, E in Hs. exact Hs.
Qed.

Lemma trimmed_dropBoth (f : codeunit -> bool) (s : jsstring) :
  trimmedOf f s -> dropWhileEnd f (dropWhile f s) = s.
Proof.
  intros [H1 H2]. unfold dropWhileEnd.
  rewrite (dropWhile_id f s H1), (dropWhile_id f (rev s) H2).
  apply rev_involutive.
Qed.

Lemma trim_trimmed (s : jsstring) : trimmedOf isWhiteSpace (trim s).
Proof. apply dropBoth_trimmed. Qed.

Lemma trimmed_trim (s : jsstring) : trimmedOf isWhiteSpace s -> trim s = s.
Proof. apply trimmed_dropBoth. Qed.

Lemma trim_sub (s : jsstring) : exists p q, s = p ++ trim s ++ q.
Proof.
  unfold trim. destruct (dropWhile_suffix isWhiteSpace s) as [p Hp].
  destruct (dropWhileEnd_prefix isWhiteSpace (dropWhile isWhiteSpace s))
    as [q Hq].
  exists p, q. rewrite <- Hq. exact Hp.
Qed.

Lemma Forall_trim (Q : codeunit -> Prop) (s : jsstring) :
  Forall Q s -> Forall Q (trim s).
Proof.
  intros H. destruct (trim_sub s) as (p & q & E). rewrite E in H.
  apply Forall_app in H. destruct H as [_ H].
  apply Forall_app in H. tauto.
Qed.

Lemma Forall_firstn (Q : codeunit -> Prop) (n : nat) (s : jsstring) :
  Forall Q s -> Forall Q (firstn n s).
Proof.
  intros H. rewrite <- (firstn_skipn n s) in H.
  apply Forall_app in H. tauto.
Qed.

Lemma length_trim (s : jsstring) : (List.length (trim s) <= List.length s)%nat.
Proof.
  destruct (trim_sub s) as (p & q & E). rewrite E at 2.
  rewrite !length_app. lia.
Qed.

Lemma filter_all (f : codeunit -> bool) (s : jsstring) :
  Forall (fun c => f c = true) s -> filter f s = s.
Proof.
  induction 1 as [|x s Hx _ IH]; simpl; [reflexivity|].
  rewrite Hx, IH. reflexivity.
Qed.

Lemma Forall_filter_true (f : codeunit -> bool) (s : jsstring) :
  Forall (fun c => f c = true) (filter f s).
Proof.
  induction s as [|x s IH]; simpl; [constructor|].
  destruct (f x) eqn:E; [constructor; assumption | assumption].
Qed.

(** *** Runs of units of a class *)

Lemma replaceRuns_noRuns (f : codeunit -> bool) (r : codeunit)
  (s : jsstring) (b : bool) :
  f r = true -> noRuns f b (replaceRunsFrom b f [r] s).
Proof.
  intros Hr. revert b; induction s as [|x s IH]; intros b; simpl; [exact I|].
  destruct (f x) eqn:E.
  - destruct b; simpl.
    + apply IH.
    + split; [discriminate|]. rewrite Hr. apply IH.
  - simpl. rewrite E. split; [reflexivity|]. apply IH.
Qed.

Lemma replaceRuns_Forall (Q : codeunit -> Prop) (f : codeunit -> bool)
  (r : codeunit) (s : jsstring) (b : bool) :
  Q r -> Forall Q s -> Forall Q (replaceRunsFrom b f [r] s).
Proof.
  intros Hsp H. revert b. induction H as [|x s Hx _ IH]; intros b; simpl;
    [constructor|].
  destruct (f x).
  - destruct b; simpl; [apply IH | constructor; [assumption | apply IH]].
  - constructor; [assumption | apply IH].
Qed.

Lemma replaceRuns_id (f : codeunit -> bool) (r : codeunit) (s : jsstring)
  (b : bool) :
  noRuns f b s ->
  Forall (fun x => f x = true -> x = r) s ->
  replaceRunsFrom b f [r] s = s.
Proof.
  revert b; induction s as [|x s IH]; intros b Hs Hf; simpl; [reflexivity|].
  inversion Hf as [|? ? Hx Hf']; subst. destruct Hs as [Hb Hs].
  destruct (f x) eqn:E.
  - destruct b; [specialize (Hb eq_refl); discriminate|].
    simpl. rewrite (Hx eq_refl). f_equal. apply IH; assumption.
  - f_equal. apply IH; assumption.
Qed.

Lemma replaceRuns_none (f : codeunit -> bool) (r : jsstring) (s : jsstring)
  (b : bool) :
  Forall (fun x => f x = false) s -> replaceRunsFrom b f r s = s.
Proof.
  intros H. revert b. induction H as [|x s Hx _ IH]; intros b; simpl;
    [reflexivity|].
  rewrite Hx, IH. reflexivity.
Qed.

Lemma noRuns_weaken (f : codeunit -> bool) (b : bool) (s : jsstring) :
  noRuns f b s -> noRuns f false s.
Proof.
  destruct s as [|x s]; simpl; [auto|]. intros [_ H]. split; [discriminate|].
  exact H.
Qed.

Lemma noRuns_suffix (f : codeunit -> bool) (p s : jsstring) (b : bool) :
  noRuns f b (p ++ s) -> noRuns f false s.
Proof.
  revert b; induction p as [|x p IH]; intros b; simpl.
  - apply noRuns_weaken.
  - intros [_ H]. exact (IH _ H).
Qed.

Lemma noRuns_prefix (f : codeunit -> bool) (s q : jsstring) (b : bool) :
  noRuns f b (s ++ q) -> noRuns f b s.
Proof.
  revert b; induction s as [|x s IH]; intros b; simpl; [auto|].
  intros [H1 H2]. split; [assumption|]. exact (IH _ H2).
Qed.

Lemma noRuns_trim (f : codeunit -> bool) (s : jsstring) :
  noRuns f false s -> noRuns f false (trim s).
Proof.
  intros H. destruct (trim_sub s) as (p & q & E). rewrite E in H.
  apply noRuns_suffix in H. apply noRuns_prefix in H. exact H.
Qed.

Lemma noRuns_firstn (f : codeunit -> bool) (n : nat) (s : jsstring) :
  noRuns f false s -> noRuns f false (firstn n s).
Proof.
  intros H. rewrite <- (firstn_skipn n s) in H.
  apply noRuns_prefix in H. exact H.
Qed.

(** *** The folder alphabet *)

Lemma folderUnit_facts (c : codeunit) :
  isFolderUnit c = true ->
  c < 128 /\ isCombiningMark c = false /\ c <> SLASH /\ c <> BACKSLASH /\
  (isWhiteSpace c = true -> c = SPACE).
Proof.
  intros H.
  assert (c < 128) as Hc.
  { unfold isFolderUnit, isAlnum, SPACE, HYPHEN in H.
    split_bools; lia. }
  split; [assumption|].
  pose proof (below_bound 128
    (fun c => implb (isFolderUnit c)
                (negb (isCombiningMark c) && negb (c =? SLASH)
                 && negb (c =? BACKSLASH)
                 && implb (isWhiteSpace c) (c =? SPACE)))
    eq_refl c Hc) as Hall.
  simpl in Hall. rewrite H in Hall. simpl in Hall.
  repeat (apply andb_true_iff in Hall; destruct Hall as [Hall ?]).
  repeat split.
  - apply negb_true_iff; assumption.
  - apply N.eqb_neq, negb_true_iff; assumption.
  - apply N.eqb_neq, negb_true_iff; assumption.
  - intros Hw. rewrite Hw in *. apply N.eqb_eq. assumption.
Qed.

Lemma nfdLatin1_below (s : jsstring) :
  Forall (fun c => c < 192) s -> Model.nfdLatin1 s = s.
Proof.
  induction 1 as [|x s Hx _ IH]; [reflexivity|].
  unfold Model.nfdLatin1 in *. simpl. rewrite IH.
  unfold Model.decomposeLatin1.
  destruct (N.leb_spec 192 x); [lia | reflexivity].
Qed.

(** Canonical decomposition leaves a string of the folder alphabet alone. *)
Lemma nfd_folderUnits (P : Platform) (s : jsstring) :
  nfdIsCanonical P ->
  Forall (fun c => isFolderUnit c = true) s ->
  normalizeNFD P s = s.
Proof.
  intros [Hl _] Hs.
  assert (Forall (fun c => c < 128) s) as Hb.
  { eapply Forall_impl; [|exact Hs]. intros c Hc.
    apply folderUnit_facts in Hc. tauto. }
  rewrite Hl.
  - apply nfdLatin1_below. eapply Forall_impl; [|exact Hb].
    simpl; intros; lia.
  - eapply Forall_impl; [|exact Hb]. simpl; intros; lia.
Qed.

(** *** [sanitizeAdminFolderName] *)

Lemma sanitizeAdminFolderName_shape (P : Platform) (input : jsstring) :
  folderName (sanitizeAdminFolderName P input).
Proof.
  unfold sanitizeAdminFolderName.
  set (s1 := keep isFolderUnit _).
  set (s3 := trim (replaceRuns isWhiteSpace [SPACE] s1)).
  assert (Forall (fun c => isFolderUnit c = true) s3) as HF.
  { apply Forall_trim. apply replaceRuns_Forall; [reflexivity|].
    apply Forall_filter_true. }
  assert (noRuns isWhiteSpace false s3) as HS.
  { apply noRuns_trim. apply replaceRuns_noRuns. reflexivity. }
  destruct (Nat.ltb_spec 128 (List.length s3)) as [Hlt|Hle].
  - repeat split.
    + apply Forall_trim, Forall_firstn, HF.
    + apply noRuns_trim, noRuns_firstn, HS.
    + apply trim_trimmed.
    + apply trim_trimmed.
    + etransitivity; [apply length_trim|]. apply firstn_le_length.
  - repeat split; try assumption; apply trim_trimmed.
Qed.

Lemma sanitizeAdminFolderName_fixed (P : Platform) (s : jsstring) :
  nfdIsCanonical P -> folderName s -> sanitizeAdminFolderName P s = s.
Proof.
  intros HP (HF & HS & HT & HL). unfold sanitizeAdminFolderName.
  rewrite (nfd_folderUnits P s HP HF).
  unfold keep. rewrite (filter_all (fun c => negb (isCombiningMark c))).
  2:{ eapply Forall_impl; [|exact HF]. intros c Hc.
      apply folderUnit_facts in Hc. destruct Hc as (_ & -> & _).
      reflexivity. }
  rewrite (filter_all isFolderUnit s HF).
  unfold replaceRuns. rewrite replaceRuns_id; [|assumption|].
  2:{ eapply Forall_impl; [|exact HF]. intros c Hc.
      apply folderUnit_facts in Hc. tauto. }
  rewrite (trimmed_trim s HT).
  destruct (Nat.ltb_spec 128 (List.length s)); [lia | reflexivity].
Qed.

(** *** [sanitizeAdminFolderPath] *)

Lemma replaceUnit_id (c d : codeunit) (s : jsstring) :
  Forall (fun x => x <> c) s -> replaceUnit c d s = s.
Proof.
  induction 1 as [|x s Hx _ IH]; [reflexivity|].
  unfold replaceUnit in *. simpl. rewrite IH.
  destruct (N.eqb_spec x c); [contradiction | reflexivity].
Qed.

Lemma folderName_units (Q : codeunit -> Prop) (p : jsstring) :
  (forall c, isFolderUnit c = true -> Q c) -> folderName p -> Forall Q p.
Proof.
  intros HQ (HF & _). eapply Forall_impl; [|exact HF]. exact HQ.
Qed.

Lemma sanitizeAdminFolderPath_fixed (P : Platform) (parts : list jsstring) :
  nfdIsCanonical P ->
  Forall (fun p => folderName p /\ p <> []) parts ->
  sanitizeAdminFolderPath P (join [SLASH] parts) = join [SLASH] parts.
Proof.
  intros HP H. destruct parts as [|p0 rest]; [reflexivity|].
  set (parts := p0 :: rest) in *. set (y := join [SLASH] parts).
  unfold sanitizeAdminFolderPath.
  assert (trim y = y) as ->.
  { apply trimmed_trim, join_trimmed. eapply Forall_impl; [|exact H].
    intros p [(_ & _ & Ht & _) Hne]. split; assumption. }
  assert (replaceUnit BACKSLASH SLASH y = y) as ->.
  { apply replaceUnit_id. apply Forall_join.
    - constructor; [discriminate | constructor].
    - eapply Forall_impl; [|exact H]. intros p [Hp _].
      apply (folderName_units (fun x => x <> BACKSLASH) p); [|assumption].
      intros c Hc. apply folderUnit_facts in Hc. tauto. }
  assert (falsy y = false) as ->.
  { inversion H as [|? ? [_ Hne] _]; subst. unfold y, parts.
    destruct p0; [congruence|]. destruct rest; reflexivity. }
  assert (split SLASH y = parts) as ->.
  { apply split_join; [discriminate|].
    eapply Forall_impl; [|exact H]. intros p [Hp _] Hin.
    pose proof (folderName_units (fun x => x <> SLASH) p) as HQ.
    rewrite Forall_forall in HQ. apply (HQ ltac:(intros c Hc;
      apply folderUnit_facts in Hc; tauto) Hp SLASH Hin). reflexivity. }
  assert (map (sanitizeAdminFolderName P) parts = parts) as ->.
  { rewrite <- (map_id parts) at 2. apply map_ext_in. intros p Hp.
    rewrite Forall_forall in H. destruct (H p Hp) as [Hf _].
    apply sanitizeAdminFolderName_fixed; assumption. }
  assert (filter truthy parts = parts) as ->; [|reflexivity].
  clear y. induction H as [|p l [_ Hne] _ IH]; [reflexivity|].
  simpl. destruct p; [congruence|]. simpl. f_equal. exact IH.
Qed.

Lemma sanitizeAdminFolderPath_shape (P : Platform) (input : jsstring) :
  exists parts,
    Forall (fun p => folderName p /\ p <> []) parts /\
    sanitizeAdminFolderPath P input = join [SLASH] parts.
Proof.
  unfold sanitizeAdminFolderPath.
  destruct (falsy _); [exists []; split; [constructor | reflexivity]|].
  eexists; split; [|reflexivity].
  apply Forall_forall. intros p Hp. apply filter_In in Hp.
  destruct Hp as [Hin Ht]. split.
  - apply in_map_iff in Hin. destruct Hin as (q & <- & _).
    apply sanitizeAdminFolderName_shape.
  - destruct p; [discriminate | congruence].
Qed.

(** The stricter policy is idempotent. *)
Lemma sanitizeAdminFolderPath_idempotent (P : Platform) (input : jsstring) :
  nfdIsCanonical P ->
  sanitizeAdminFolderPath P (sanitizeAdminFolderPath P input)
  = sanitizeAdminFolderPath P input.
Proof.
  intros HP. destruct (sanitizeAdminFolderPath_shape P input)
    as (parts & Hparts & ->).
  apply sanitizeAdminFolderPath_fixed; assumption.
Qed.

(** *** [sanitizePathDir] on ASCII input *)

Lemma Forall_split (Q : codeunit -> Prop) (c : codeunit) (s : jsstring) :
  Forall Q s -> Forall (Forall Q) (split c s).
Proof.
  induction 1 as [|x s Hx _ IH]; simpl; [repeat constructor|].
  destruct (x =? c); [constructor; [constructor | assumption]|].
  destruct (split c s) as [|h t]; [repeat constructor; assumption|].
  inversion IH; subst. constructor; [constructor|]; assumption.
Qed.

Lemma nfd_ascii (P : Platform) (s : jsstring) :
  nfdIsCanonical P -> Forall (fun c => c < 128) s -> normalizeNFD P s = s.
Proof.
  intros [Hl _] Hs. rewrite Hl.
  - apply nfdLatin1_below. eapply Forall_impl; [|exact Hs].
    simpl; intros; lia.
  - eapply Forall_impl; [|exact Hs]. simpl; intros; lia.
Qed.

Lemma decomposeLatin1_idem (x : codeunit) :
  flat_map Model.decomposeLatin1 (Model.decomposeLatin1 x)
  = Model.decomposeLatin1 x.
Proof.
  destruct ((192 <=? x) && (x <=? 255)) eqn:E.
  - apply andb_true_iff in E. destruct E as [E1 E2].
    apply N.leb_le in E1, E2.
    replace x with (192 + (x - 192)) by lia.
    assert (x - 192 < 64) as Hb by lia. revert Hb.
    generalize (x - 192). intros n Hb.
    apply eqs_spec.
    exact (below_64
             (fun n => eqs (flat_map Model.decomposeLatin1
                              (Model.decomposeLatin1 (192 + n)))
                           (Model.decomposeLatin1 (192 + n)))
             eq_refl n Hb).
  - unfold Model.decomposeLatin1 at 2 3. rewrite E.
    change (flat_map Model.decomposeLatin1 [x])
      with (Model.decomposeLatin1 x ++ []).
    rewrite app_nil_r. unfold Model.decomposeLatin1. rewrite E. reflexivity.
Qed.

Lemma posix_canonical : nfdIsCanonical Model.posix.
Proof.
  split; [reflexivity|]. intros s.
  change (normalizeNFD Model.posix) with Model.nfdLatin1.
  unfold Model.nfdLatin1.
  induction s as [|x s IH]; [reflexivity|].
  change (flat_map Model.decomposeLatin1 (x :: s))
    with (Model.decomposeLatin1 x ++ flat_map Model.decomposeLatin1 s).
  rewrite flat_map_app, IH, decomposeLatin1_idem. reflexivity.
Qed.

(** On ASCII input the platform's decomposition plays no part. *)
Lemma sanitizePathDir_ascii (P : Platform) (input : jsstring) :
  nfdIsCanonical P -> Forall (fun c => c < 128) input ->
  sanitizePathDir P input = sanitizePathDir Model.posix input.
Proof.
  intros HP Hin. unfold sanitizePathDir.
  rewrite (nfd_ascii P input HP Hin).
  rewrite (nfd_ascii Model.posix input posix_canonical Hin).
  destruct (falsy _); [reflexivity|].
  set (parts := filter truthy _).
  assert (Forall (Forall (fun c => c < 128)) parts) as Hparts.
  { apply Forall_forall. intros p Hp. apply filter_In in Hp.
    destruct Hp as [Hp _]. apply in_map_iff in Hp.
    destruct Hp as (q & <- & Hq). apply Forall_trim.
    assert (Forall (Forall (fun c => c < 128))
              (split SLASH (replaceUnit BACKSLASH SLASH (trim input)))) as Hs.
    { apply Forall_split. unfold replaceUnit. apply Forall_map.
      eapply Forall_impl; [|apply Forall_trim; exact Hin].
      intros c Hc. simpl. destruct (c =? BACKSLASH); [reflexivity | exact Hc]. }
    rewrite Forall_forall in Hs. apply Hs; assumption. }
  assert (flat_map (pushPart P) parts = flat_map (pushPart Model.posix) parts)
    as ->; [|reflexivity].
  induction Hparts as [|p l Hp _ IH]; [reflexivity|].
  simpl. rewrite IH. f_equal. unfold pushPart, sanitizePart.
  rewrite (nfd_ascii P p HP Hp).
  rewrite (nfd_ascii Model.posix p posix_canonical Hp). reflexivity.
Qed.

(** *** [sanitizePathDir] below the caps *)

Lemma dirUnit_facts (c : codeunit) :
  isDirUnit c = true ->
  c < 128 /\ isCombiningMark c = false /\ c <> SLASH /\ c <> BACKSLASH /\
  isWhiteSpace c = false.
Proof.
  intros H.
  assert (c < 128) as Hc.
  { unfold isDirUnit, isAlnum, DOT, HYPHEN in H.
    split_bools; lia. }
  split; [assumption|].
  pose proof (below_bound 128
    (fun c => implb (isDirUnit c)
                (negb (isCombiningMark c) && negb (c =? SLASH)
                 && negb (c =? BACKSLASH) && negb (isWhiteSpace c)))
    eq_refl c Hc) as Hall.
  simpl in Hall. rewrite H in Hall. simpl in Hall.
  repeat (apply andb_true_iff in Hall; destruct Hall as [Hall ?]).
  repeat split.
  - apply negb_true_iff; assumption.
  - apply N.eqb_neq, negb_true_iff; assumption.
  - apply N.eqb_neq, negb_true_iff; assumption.
  - apply negb_true_iff; assumption.
Qed.

Lemma Forall_dropWhile (Q : codeunit -> Prop) (f : codeunit -> bool)
  (s : jsstring) :
  Forall Q s -> Forall Q (dropWhile f s).
Proof.
  intros H. destruct (dropWhile_suffix f s) as [p E]. rewrite E in H.
  apply Forall_app in H. tauto.
Qed.

Lemma Forall_dropWhileEnd (Q : codeunit -> Prop) (f : codeunit -> bool)
  (s : jsstring) :
  Forall Q s -> Forall Q (dropWhileEnd f s).
Proof.
  intros H. destruct (dropWhileEnd_prefix f s) as [q E]. rewrite E in H.
  apply Forall_app in H. tauto.
Qed.

Lemma all_outside_trimmed (f : codeunit -> bool) (s : jsstring) :
  Forall (fun c => f c = false) s -> trimmedOf f s.
Proof.
  intros H. split.
  - destruct H; [exact I | assumption].
  - apply Forall_rev in H. destruct H; [exact I | assumption].
Qed.

(** What a part comes to in the loop, before the cap. *)
Lemma sanitizePart_shape (P : Platform) (part : jsstring) :
  sanitizePart P part <> [] ->
  Forall (fun c => isDirUnit c = true) (sanitizePart P part) /\
  noRuns isHyphen false (sanitizePart P part) /\
  startsNot isDotOrHyphen (sanitizePart P part) /\
  startsNot isHyphen (rev (sanitizePart P part)).
Proof.
  unfold sanitizePart. cbv zeta.
  set (s5 := replaceRuns isHyphen [HYPHEN] _).
  set (s6 := dropWhile isDotOrHyphen s5).
  intros Hne.
  assert (Forall (fun c => isDirUnit c = true) s5) as HF.
  { apply replaceRuns_Forall; [reflexivity | apply Forall_filter_true]. }
  assert (noRuns isHyphen false s5) as HR.
  { apply replaceRuns_noRuns. reflexivity. }
  destruct (dropWhile_suffix isDotOrHyphen s5) as [p Hp]. fold s6 in Hp.
  destruct (dropWhileEnd_prefix isHyphen s6) as [q Hq].
  repeat split.
  - apply Forall_dropWhileEnd, Forall_dropWhile, HF.
  - rewrite Hp, Hq in HR. apply noRuns_suffix in HR.
    apply noRuns_prefix in HR. exact HR.
  - pose proof (dropWhile_startsNot isDotOrHyphen s5) as Hs. fold s6 in Hs.
    rewrite Hq in Hs. apply (startsNot_prefix _ _ _ Hs Hne).
  - unfold dropWhileEnd. rewrite rev_involutive. apply dropWhile_startsNot.
Qed.

Lemma dirSegment_not_dots (s : jsstring) :
  dirSegment s -> eqs s [DOT] = false /\ eqs s [DOT; DOT] = false.
Proof.
  intros (_ & _ & Hne & Hs & _).
  destruct s as [|x s]; [congruence|]. simpl in Hs.
  unfold isDotOrHyphen in Hs. apply orb_false_iff in Hs. destruct Hs as [Hd _].
  cbn [eqs]. rewrite Hd. split; reflexivity.
Qed.

Lemma pushPart_fixed (P : Platform) (s : jsstring) :
  nfdIsCanonical P -> dirSegment s -> pushPart P s = [s].
Proof.
  intros HP Hs. pose proof (dirSegment_not_dots s Hs) as [Hd Hdd].
  destruct Hs as (HF & HR & Hne & Hst & Hen & Hlen).
  assert (sanitizePart P s = s) as Hfix.
  { unfold sanitizePart.
    rewrite (nfd_ascii P s HP).
    2:{ eapply Forall_impl; [|exact HF]. intros c Hc.
        apply dirUnit_facts in Hc. cbv beta. tauto. }
    unfold keep. rewrite (filter_all (fun c => negb (isCombiningMark c))).
    2:{ eapply Forall_impl; [|exact HF]. intros c Hc.
        apply dirUnit_facts in Hc. destruct Hc as (_ & -> & _).
        reflexivity. }
    unfold replaceRuns.
    rewrite (replaceRuns_none isWhiteSpace [HYPHEN] s false).
    2:{ eapply Forall_impl; [|exact HF]. intros c Hc.
        apply dirUnit_facts in Hc. cbv beta. tauto. }
    rewrite (filter_all isDirUnit s HF).
    rewrite (replaceRuns_id isHyphen HYPHEN s false); [|assumption|].
    2:{ apply Forall_forall. intros c _ Hc. apply N.eqb_eq in Hc. exact Hc. }
    rewrite (dropWhile_id isDotOrHyphen s Hst).
    unfold dropWhileEnd. rewrite (dropWhile_id isHyphen (rev s) Hen).
    apply rev_involutive. }
  unfold pushPart. rewrite Hfix, Hd, Hdd.
  assert (falsy s = false) as -> by (destruct s; [congruence | reflexivity]).
  simpl. destruct (Nat.ltb_spec 128 (List.length s)); [lia | reflexivity].
Qed.

(** A path made of such segments, within the cap, is left as it is. *)
Lemma sanitizePathDir_fixed (P : Platform) (out : list jsstring) :
  nfdIsCanonical P ->
  Forall dirSegment out ->
  (List.length (join [SLASH] out) <= 512)%nat ->
  sanitizePathDir P (join [SLASH] out) = join [SLASH] out.
Proof.
  intros HP H Hlen. unfold sanitizePathDir.
  destruct out as [|p0 rest].
  { simpl join. rewrite (nfd_ascii P [] HP) by constructor. reflexivity. }
  set (parts := p0 :: rest) in *. set (y := join [SLASH] parts) in *.
  assert (Forall (fun c => c < 128 /\ c <> BACKSLASH /\ isWhiteSpace c = false)
            y) as Hy.
  { apply Forall_join.
    - constructor; [|constructor]. repeat split; discriminate.
    - eapply Forall_impl; [|exact H]. intros p (HF & _).
      eapply Forall_impl; [|exact HF]. intros c Hc.
      apply dirUnit_facts in Hc. cbv beta. tauto. }
  rewrite (nfd_ascii P y HP).
  2:{ eapply Forall_impl; [|exact Hy]. intros c Hc. cbv beta in *. tauto. }
  assert (trim y = y) as ->.
  { apply trimmed_trim, all_outside_trimmed.
    eapply Forall_impl; [|exact Hy]. intros c Hc. cbv beta in *. tauto. }
  assert (replaceUnit BACKSLASH SLASH y = y) as ->.
  { apply replaceUnit_id. eapply Forall_impl; [|exact Hy].
    intros c Hc. cbv beta in *. tauto. }
  assert (falsy y = false) as ->.
  { inversion H as [|? ? (_ & _ & Hne & _) _]; subst. unfold y, parts.
    destruct p0; [congruence|]. destruct rest; reflexivity. }
  assert (split SLASH y = parts) as ->.
  { apply split_join; [discriminate|].
    eapply Forall_impl; [|exact H]. intros p (HF & _) Hin.
    rewrite Forall_forall in HF. apply HF in Hin.
    apply dirUnit_facts in Hin. destruct Hin as (_ & _ & Hs & _).
    apply Hs. reflexivity. }
  assert (map trim parts = parts) as ->.
  { rewrite <- (map_id parts) at 2. apply map_ext_in. intros p Hp.
    rewrite Forall_forall in H. destruct (H p Hp) as (HF & _).
    apply trimmed_trim, all_outside_trimmed.
    eapply Forall_impl; [|exact HF]. intros c Hc.
    apply dirUnit_facts in Hc. cbv beta. tauto. }
  assert (filter truthy parts = parts) as ->.
  { clear - H. induction H as [|p l (_ & _ & Hne & _) _ IH]; [reflexivity|].
    simpl. destruct p; [congruence|]. simpl. f_equal. exact IH. }
  assert (flat_map (pushPart P) parts = parts) as ->.
  { clear - H HP. induction H as [|p l Hp _ IH]; [reflexivity|].
    simpl. rewrite (pushPart_fixed P p HP Hp), IH. reflexivity. }
  fold y. destruct (Nat.ltb_spec 512 (List.length y)); [lia | reflexivity].
Qed.

(** A result below both caps is a fixed point. *)
Lemma sanitizePathDir_idempotent_below_caps (P : Platform) (input : jsstring) :
  nfdIsCanonical P ->
  (List.length (sanitizePathDir P input) < 512)%nat ->
  Forall (fun seg => (List.length seg < 128)%nat)
    (split SLASH (sanitizePathDir P input)) ->
  sanitizePathDir P (sanitizePathDir P input) = sanitizePathDir P input.
Proof.
  intros HP. unfold sanitizePathDir at 1 2 4 5.
  destruct (falsy _).
  { intros _ _. exact (sanitizePathDir_fixed P [] HP (Forall_nil _)
                         ltac:(simpl; lia)). }
  set (out := flat_map (pushPart P) _).
  assert (Forall (fun seg => seg <> [] /\ ~ In SLASH seg /\
                             ((List.length seg < 128)%nat -> dirSegment seg))
            out) as Hout.
  { apply Forall_forall. intros seg Hseg. apply in_flat_map in Hseg.
    destruct Hseg as (part & _ & Hseg). unfold pushPart in Hseg.
    cbv zeta in Hseg.
    pose proof (sanitizePart_shape P part) as Hshape.
    destruct (falsy (sanitizePart P part) || eqs (sanitizePart P part) [DOT]
              || eqs (sanitizePart P part) [DOT; DOT]) eqn:Hc;
      [destruct Hseg|].
    apply orb_false_iff in Hc. destruct Hc as [Hc _].
    apply orb_false_iff in Hc. destruct Hc as [Hf _].
    assert (sanitizePart P part <> []) as Hne
      by (intros E; rewrite E in Hf; discriminate).
    destruct (Hshape Hne) as (HF & HR & Hst & Hen).
    destruct Hseg as [<- | []].
    destruct (Nat.ltb_spec 128 (List.length (sanitizePart P part)))
      as [Hlt | Hle].
    - unfold slice0. split; [|split].
      + destruct (sanitizePart P part); [congruence | discriminate].
      + intros Hin. apply Forall_firstn with (n := 128%nat) in HF.
        rewrite Forall_forall in HF. apply HF in Hin.
        apply dirUnit_facts in Hin. destruct Hin as (_ & _ & Hs & _).
        apply Hs. reflexivity.
      + intros Hl. rewrite length_firstn in Hl. lia.
    - split; [assumption|]. split.
      + intros Hin. rewrite Forall_forall in HF. apply HF in Hin.
        apply dirUnit_facts in Hin. destruct Hin as (_ & _ & Hs & _).
        apply Hs. reflexivity.
      + intros _. repeat split; assumption. }
  destruct (Nat.ltb_spec 512 (List.length (join [SLASH] out))) as [Hlt | Hle].
  { unfold slice0. rewrite length_firstn. lia. }
  intros Hlen Hsegs.
  destruct out as [|o0 out'] eqn:Eout.
  { exact (sanitizePathDir_fixed P [] HP (Forall_nil _) ltac:(simpl; lia)). }
  rewrite <- Eout in *.
  rewrite split_join in Hsegs.
  - apply sanitizePathDir_fixed; [assumption | | lia].
    apply Forall_forall. intros seg Hseg.
    rewrite Forall_forall in Hout, Hsegs.
    destruct (Hout seg Hseg) as (_ & _ & Hd). apply Hd, Hsegs, Hseg.
  - rewrite Eout. discriminate.
  - eapply Forall_impl; [|exact Hout]. intros seg Hseg. apply Hseg.
Qed.

Lemma ascii_check (s : jsstring) :
  forallb (fun c => c <? 128) s = true -> Forall (fun c => c < 128) s.
Proof.
  intros H. apply Forall_forall. intros c Hc.
  rewrite forallb_forall in H. apply N.ltb_lt. apply H; assumption.
Qed.

(** C3.  [sanitizeAdminFolderPath] is idempotent on every input.
    [sanitizePathDir] is idempotent wherever its result stays below both
    caps (fewer than 128 units in every segment, fewer than 512 in all), and
    not beyond: it cuts a segment to 128 units, and the joined path to 512,
    after it has stripped trailing hyphens and dropped empty segments, and
    does not strip or drop again.  A segment of 127 letters, a hyphen and a
    letter comes back cut after the hyphen, and sanitising that once more
    removes the hyphen; a path of 513 units comes back cut after a
    separator, and sanitising that once more removes the separator. *)
Theorem sanitize_idempotence (P : Platform) :
  nfdIsCanonical P ->
  (forall input,
     sanitizeAdminFolderPath P (sanitizeAdminFolderPath P input)
     = sanitizeAdminFolderPath P input) /\
  (forall input,
     (List.length (sanitizePathDir P input) < 512)%nat ->
     Forall (fun seg => (List.length seg < 128)%nat)
       (split SLASH (sanitizePathDir P input)) ->
     sanitizePathDir P (sanitizePathDir P input) = sanitizePathDir P input) /\
  sanitizePathDir P Model.overlongSegment = Model.cutSegment /\
  sanitizePathDir P Model.cutSegment = repeat 97 127 /\
  sanitizePathDir P (sanitizePathDir P Model.overlongSegment)
  <> sanitizePathDir P Model.overlongSegment /\
  sanitizePathDir P Model.overlongPath = Model.cutPath /\
  sanitizePathDir P (sanitizePathDir P Model.overlongPath)
  <> sanitizePathDir P Model.overlongPath.
Proof.
  intros HP.
  assert (sanitizePathDir P Model.overlongSegment = Model.cutSegment) as H1.
  { rewrite sanitizePathDir_ascii;
      [vm_compute; reflexivity | assumption | apply ascii_check; reflexivity]. }
  assert (sanitizePathDir P Model.cutSegment = repeat 97 127) as H2.
  { rewrite sanitizePathDir_ascii;
      [vm_compute; reflexivity | assumption | apply ascii_check; reflexivity]. }
  assert (sanitizePathDir P Model.overlongPath = Model.cutPath) as H3.
  { rewrite sanitizePathDir_ascii;
      [vm_compute; reflexivity | assumption | apply ascii_check; reflexivity]. }
  assert (sanitizePathDir P Model.cutPath <> Model.cutPath) as H4.
  { rewrite sanitizePathDir_ascii;
      [|assumption | apply ascii_check; reflexivity].
    intros E. apply eqs_spec in E. vm_compute in E. discriminate. }
  split; [intros input; apply sanitizeAdminFolderPath_idempotent; assumption|].
  split; [intros input; apply sanitizePathDir_idempotent_below_caps;
          assumption|].
  split; [exact H1|]. split; [exact H2|]. split.
  - rewrite H1, H2. intros E. apply eqs_spec in E. vm_compute in E.
    discriminate.
  - split; [exact H3|]. rewrite H3. exact H4.
Qed.

End Sanitize.

(* ------------------------------------------------------------------ *)
(** ** Upload *)

Section Upload.
Import Provider Props.

Lemma latin1_check (s : jsstring) :
  forallb (fun c => c <? 256) s = true -> Forall (fun c => c < 256) s.
Proof.
  intros H. apply Forall_forall. intros c Hc.
  rewrite forallb_forall in H. apply N.ltb_lt. apply H; assumption.
Qed.

(** The decomposition of a Latin-1 string is decomposed. *)
Lemma nfd_decomposed (P : Platform) (q : jsstring) :
  nfdIsCanonical P -> Forall (fun c => c < 256) q ->
  normalizeNFD P (Model.nfdLatin1 q) = Model.nfdLatin1 q.
Proof.
  intros [Hl Hi] Hq. rewrite <- (Hl q Hq). apply Hi.
Qed.

Lemma sanitizePathDir_cafe (P : Platform) :
  nfdIsCanonical P ->
  PathUtils.sanitizePathDir P Model.cafePath = str "Cafe/Arvore".
Proof.
  intros HP.
  pose proof (proj1 HP Model.cafePath (latin1_check Model.cafePath eq_refl))
    as H0.
  pose proof (nfd_decomposed P (str "Caf" ++ [233]) HP
                (latin1_check (str "Caf" ++ [233]) eq_refl)) as H1.
  pose proof (nfd_decomposed P ([195] ++ str "rvore") HP
                (latin1_check ([195] ++ str "rvore") eq_refl)) as H2.
  assert (replaceUnit BACKSLASH SLASH (trim (Model.nfdLatin1 Model.cafePath))
          = Model.nfdLatin1 (str "Caf" ++ [233]) ++ [SLASH]
            ++ Model.nfdLatin1 ([195] ++ str "rvore")) as Hraw
    by (vm_compute; reflexivity).
  assert (filter truthy
            (map trim
               (split SLASH
                  (Model.nfdLatin1 (str "Caf" ++ [233]) ++ [SLASH]
                   ++ Model.nfdLatin1 ([195] ++ str "rvore"))))
          = [ Model.nfdLatin1 (str "Caf" ++ [233]);
              Model.nfdLatin1 ([195] ++ str "rvore") ]) as Hparts
    by (vm_compute; reflexivity).
  unfold PathUtils.sanitizePathDir. rewrite H0. cbv zeta.
  rewrite Hraw, Hparts.
  change (falsy (Model.nfdLatin1 (str "Caf" ++ [233]) ++ [SLASH]
                 ++ Model.nfdLatin1 ([195] ++ str "rvore"))) with false.
  cbv iota.
  change (flat_map (PathUtils.pushPart P)
            [ Model.nfdLatin1 (str "Caf" ++ [233]);
              Model.nfdLatin1 ([195] ++ str "rvore") ])
    with (PathUtils.pushPart P (Model.nfdLatin1 (str "Caf" ++ [233]))
          ++ PathUtils.pushPart P (Model.nfdLatin1 ([195] ++ str "rvore"))
          ++ []).
  unfold PathUtils.pushPart, PathUtils.sanitizePart.
  rewrite H1, H2. vm_compute. reflexivity.
Qed.

Lemma lookup_app_new (d : Fs.fs) (p : jsstring) (n : Fs.node) :
  Fs.lookup d p = None -> Fs.lookup (d ++ [(p, n)]) p = Some n.
Proof.
  induction d as [|[q m] d IH]; simpl; intros H.
  - rewrite eqs_refl. reflexivity.
  - destruct (eqs q p); [discriminate | apply IH; assumption].
Qed.

Lemma lookup_replace (d : Fs.fs) (p : jsstring) (n m : Fs.node) :
  Fs.lookup d p = Some m ->
  Fs.lookup (map (fun e => if eqs (fst e) p then (p, n) else e) d) p = Some n.
Proof.
  induction d as [|[q k] d IH]; simpl; intros H; [discriminate|].
  destruct (eqs q p) eqn:E; simpl.
  - rewrite eqs_refl. reflexivity.
  - rewrite E. apply IH; assumption.
Qed.

Lemma writeFile_lookup (d d' : Fs.fs) (p : jsstring) (data : list N) :
  Fs.writeFile d p data = Ok d' -> Fs.lookup d' p = Some (Fs.File data).
Proof.
  unfold Fs.writeFile.
  destruct (Fs.lookup d (NodePath.dirname p)) as [[?|]|]; try discriminate.
  destruct (Fs.lookup d p) as [[?|]|] eqn:E; try discriminate;
    intros H; injection H as <-.
  - eapply lookup_replace; eassumption.
  - apply lookup_app_new; assumption.
Qed.

Lemma cafe_segments :
  Forall properSegment [str "Cafe"; str "Arvore"; str "abc123.png"].
Proof.
  repeat constructor; try discriminate;
    intros Hin; vm_compute in Hin; intuition discriminate.
Qed.

Lemma cafe_location (P : Platform) (c : Config) :
  cwdAbsolute P ->
  NodePath.join [uploadPath P c; Model.cafeObjectPath]
  = uploadPath P c ++ str "/Cafe/Arvore/abc123.png".
Proof.
  intros Hcwd. destruct (uploadPath_form P c Hcwd) as (segs & Hsegs & ->).
  change Model.cafeObjectPath
    with (Js.join NodePath.sep [str "Cafe"; str "Arvore"; str "abc123.png"]).
  apply nodeJoin_under.
  - apply Forall_app. split; [assumption|]. constructor; [|constructor].
    repeat split; try discriminate.
    intros Hin; vm_compute in Hin; intuition discriminate.
  - apply cafe_segments.
  - destruct segs; discriminate.
  - discriminate.
Qed.

(** C6.  With an empty prefix, no base url and plain file names, the upload
    of a file with hash [abc123], extension [.png] and path hint
    [Café/Ãrvore] sanitises the hint to [Cafe/Arvore]; when the directory
    can be made and the file written, it stores the payload at the uploads
    root followed by [/Cafe/Arvore/abc123.png], a path strictly inside the
    root, and sets the url to [/uploads/Cafe/Arvore/abc123.png]. *)
Theorem upload_cafe_scenario (P : Platform) (c : Config) (uuid : jsstring)
  (f : File) (bytes : list N) (d d1 d2 : Fs.fs) :
  nfdIsCanonical P -> cwdAbsolute P ->
  prefixOf c = [] -> baseUrl c = None -> renameToUuid c = false ->
  hash f = str "abc123" -> ext f = Some (str ".png") ->
  path f = Some Model.cafePath -> content f = Some bytes ->
  let stored := uploadPath P c ++ str "/Cafe/Arvore/abc123.png" in
  Fs.ensureDir (S (List.length (NodePath.dirname stored))) d
    (NodePath.dirname stored) = Ok d1 ->
  Fs.writeFile d1 stored bytes = Ok d2 ->
  join [prefixOf c; PathUtils.sanitizePathDir P Model.cafePath;
        str "abc123.png"] = Model.cafeObjectPath /\
  upload P c uuid f d = Ok (str "/uploads/Cafe/Arvore/abc123.png", d2) /\
  Fs.lookup d2 stored = Some (Fs.File bytes) /\
  strictlyInside (uploadPath P c) stored.
Proof.
  intros HP Hcwd Hpre Hbase Huuid Hhash Hext Hpath Hcontent stored Hdir
    Hwrite.
  assert (join [prefixOf c; PathUtils.sanitizePathDir P Model.cafePath;
                str "abc123.png"] = Model.cafeObjectPath) as Hobj.
  { rewrite Hpre, (sanitizePathDir_cafe P HP). reflexivity. }
  split; [exact Hobj|]. split; [|split].
  - unfold upload. rewrite Hpath, Hext, Hhash, Huuid, Hbase, Hcontent.
    change (truthy Model.cafePath) with true. cbv iota.
    rewrite (sanitizePathDir_cafe P HP).
    change (falsy (str "Cafe/Arvore")) with false.
    rewrite andb_false_r. rewrite Hpre.
    change (join [[]; str "Cafe/Arvore"; str "abc123" ++ str ".png"])
      with Model.cafeObjectPath.
    rewrite (cafe_location P c Hcwd). fold stored.
    rewrite Hdir, Hwrite. reflexivity.
  - eapply writeFile_lookup; eassumption.
  - exists [str "Cafe"; str "Arvore"; str "abc123.png"].
    split; [discriminate|]. split; [apply cafe_segments | reflexivity].
Qed.

End Upload.

(* ------------------------------------------------------------------ *)
(** ** The statements at work on the concrete platform *)

Section Instances.
Import Provider Props.

Lemma posix_digest : hmacIsDigest Model.posix.
Proof.
  intros key msg. change (hmacSha256 Model.posix) with Model.digest32.
  unfold Model.digest32. split.
  - rewrite length_firstn, length_app, repeat_length. lia.
  - apply Forall_firstn. apply Forall_app. split.
    + apply Forall_map. apply Forall_forall. intros c _.
      apply N.mod_upper_bound. discriminate.
    + apply Forall_forall. intros b Hb. apply repeat_spec in Hb.
      subst. reflexivity.
Qed.

Lemma safeResolveUnderRoot_confined_witness :
  PathUtils.safeResolveUnderRoot Model.posix (str "public/uploads")
    (str "a/../b.png") = Some (str "/srv/app/public/uploads/b.png") /\
  strictlyInside (str "/srv/app/public/uploads")
    (str "/srv/app/public/uploads/b.png").
Proof.
  split; [reflexivity|].
  exact (proj2 (proj2 (safeResolveUnderRoot_confined Model.posix
                         (str "public/uploads") (str "a/../b.png") eq_refl))).
Defined.

Lemma verifyPrivateUrlToken_throws_witness :
  verifyPrivateUrlToken Model.posix (str "s3cr3t") Model.privatePath
    1700000060%Z (str "AAAA") = Throw RangeError.
Proof.
  refine (proj1 (verifyPrivateUrlToken_throws_on_length_mismatch Model.posix
                   (str "s3cr3t") (str "AAAA") posix_digest _ _ _)
            Model.privatePath 1700000060%Z).
  - discriminate.
  - discriminate.
  - vm_compute. discriminate.
Defined.

Lemma sanitize_idempotence_witness :
  PathUtils.sanitizePathDir Model.posix
    (PathUtils.sanitizePathDir Model.posix Model.overlongSegment)
  <> PathUtils.sanitizePathDir Model.posix Model.overlongSegment.
Proof.
  exact (proj1 (proj2 (proj2 (proj2 (proj2
           (sanitize_idempotence Model.posix posix_canonical)))))).
Defined.

Lemma upload_cafe_scenario_witness :
  upload Model.posix Model.defaultConfig [] Model.cafeFile Model.emptyUploads
  = Ok (str "/uploads/Cafe/Arvore/abc123.png", Model.cafeDisk).
Proof.
  refine (proj1 (proj2 (upload_cafe_scenario Model.posix Model.defaultConfig
            [] Model.cafeFile [137; 80; 78; 71] Model.emptyUploads
            [ (str "/srv/app/public/uploads", Fs.Dir);
              (str "/srv/app/public/uploads/Cafe", Fs.Dir);
              (str "/srv/app/public/uploads/Cafe/Arvore", Fs.Dir) ]
            Model.cafeDisk posix_canonical eq_refl
            eq_refl eq_refl eq_refl eq_refl eq_refl eq_refl eq_refl _ _)));
    vm_compute; reflexivity.
Defined.

Lemma sign_verify_expiry_witness :
  verifyPrivateUrlToken Model.posix (str "s3cr3t") Model.privatePath
    1700000060%Z
    (signPrivateUrl Model.posix (str "s3cr3t") Model.privatePath 1700000060%Z)
  = Ok true /\
  gate Model.posix Model.privateConfig Model.gateEnv Examples.replayedRequest
  = Status 403.
Proof.
  destruct (sign_verify_expiry Model.posix (str "s3cr3t") posix_digest
              ltac:(discriminate)) as (Hown & _ & Hgate).
  split.
  - exact (proj2 (proj2 (Hown Model.privatePath 1700000060%Z
                           ltac:(vm_compute; discriminate)))).
  - destruct (Hgate Model.privateConfig Model.gateEnv
                Examples.replayedRequest
                (str "/srv/app/public/uploads/private/42/doc.pdf")
                1700000060%Z eq_refl eq_refl
                ltac:(repeat split; vm_compute; reflexivity) eq_refl
                ltac:(vm_compute; discriminate) eq_refl)
      as (_ & _ & Hreplay & _).
    exact (Hreplay (str "1800000000") 1800000000%Z eq_refl eq_refl
             ltac:(vm_compute; discriminate) ltac:(discriminate)
             ltac:(vm_compute; discriminate)).
Defined.

Lemma gate_ordering_witness :
  gate Model.posix Model.privateConfig Model.gateEnv Model.signedRequest
  = Serve (str "/srv/app/public/uploads/private/42/doc.pdf") (str ".pdf") /\
  gate Model.posix Model.privateConfig Model.gateEnv Model.bareRequest
  = Status 403.
Proof.
  split.
  - refine (proj1 (proj2 (gate_ordering Model.posix Model.privateConfig
                     Model.gateEnv Model.signedRequest
                     (str "/srv/app/public/uploads/private/42/doc.pdf")
                     posix_digest eq_refl _ _)) 1700000060%Z _ _ _ _).
    + discriminate.
    + repeat split; vm_compute; reflexivity.
    + vm_compute. discriminate.
    + split; vm_compute; [exact I | reflexivity].
    + exists (str "1700000060"). repeat split; vm_compute; reflexivity.
    + reflexivity.
  - refine (proj2 (proj2 (gate_ordering Model.posix Model.privateConfig
                     Model.gateEnv Model.bareRequest
                     (str "/srv/app/public/uploads/private/42/doc.pdf")
                     posix_digest eq_refl _ _)) eq_refl eq_refl eq_refl).
    + discriminate.
    + repeat split; vm_compute; reflexivity.
Defined.

Lemma delete_not_found_witness :
  delete Model.posix Model.defaultConfig Model.emptyStrapi 1 Model.bareFile
    Examples.onlyDirectory tt
  = Some {| outcome := Throw IOError;
            diskAfter := Examples.onlyDirectory;
            dbAfter := tt;
            foldersRequested := [] |}.
Proof.
  assert (forall abs, Fs.isFile Examples.onlyDirectory abs = false) as Hdir.
  { intros abs. unfold Fs.isFile, Examples.onlyDirectory.
    cbn [Fs.lookup]. repeat destruct (eqs _ abs); reflexivity. }
  destruct (delete_not_found Model.posix Model.defaultConfig unit
              Model.emptyStrapi 1 Model.bareFile Examples.onlyDirectory tt)
    as [[_ H] | [_ H]].
  - split; intros; apply Hdir.
  - vm_compute in H. discriminate H.
  - exact H.
Defined.

(** Deleting the last file of folder 3 removes the file and the directories
    it leaves empty, and requests the deletion of folders 3 and 2; folder 1
    holds another file and stays. *)
Example delete_cleans_up_to_the_first_used_folder :
  delete Model.posix Model.cleaningConfig Model.listStrapi 4 Model.filedFile
    Model.cafeDisk Model.nestedFolders
  = Some {| outcome := Ok None;
            diskAfter := Model.emptyUploads;
            dbAfter :=
              {| Model.folders :=
                   [ {| folderId := Some 1; folderRowPath := str "/1";
                        folderParent := None |} ];
                 Model.files := Model.files Model.nestedFolders |};
            foldersRequested := [3; 2] |}.
Proof. vm_compute. reflexivity. Qed.

End Instances.

(* ------------------------------------------------------------------ *)
(** ** What the sanitisers return *)

Section SanitizedShape.
Import PathUtils Props SegmentProps.

Lemma safeSegment_firstn (s : jsstring) (n : nat) :
  safeSegment s -> safeSegment (firstn n s).
Proof.
  intros (HF & HL & HS). repeat split.
  - apply Forall_firstn; assumption.
  - rewrite length_firstn. lia.
  - destruct s as [|x s]; [rewrite firstn_nil; exact I|].
    destruct n; [exact I | exact HS].
Qed.

Lemma safeSegment_nil : safeSegment [].
Proof. repeat split; [constructor | simpl; lia]. Qed.

Lemma safeSegment_no_slash (s : jsstring) : safeSegment s -> ~ In SLASH s.
Proof.
  intros (HF & _) Hin. rewrite Forall_forall in HF. apply HF in Hin.
  apply dirUnit_facts in Hin. destruct Hin as (_ & _ & Hs & _).
  apply Hs. reflexivity.
Qed.

Lemma safeSegment_not_dots (s : jsstring) :
  safeSegment s -> s <> [DOT] /\ s <> [DOT; DOT].
Proof.
  intros (_ & _ & HS). split; intros ->; simpl in HS; discriminate.
Qed.

(** What one part pushes: nothing, or one segment that is not empty. *)
Lemma pushPart_safe (P : Platform) (part : jsstring) :
  Forall (fun s => safeSegment s /\ s <> []) (pushPart P part).
Proof.
  unfold pushPart. cbv zeta.
  pose proof (sanitizePart_shape P part) as Hshape.
  destruct (falsy (sanitizePart P part) || eqs (sanitizePart P part) [DOT]
            || eqs (sanitizePart P part) [DOT; DOT]) eqn:Hc; [constructor|].
  apply orb_false_iff in Hc. destruct Hc as [Hc _].
  apply orb_false_iff in Hc. destruct Hc as [Hf _].
  assert (sanitizePart P part <> []) as Hne
    by (intros E; rewrite E in Hf; discriminate).
  destruct (Hshape Hne) as (HF & _ & Hst & _).
  constructor; [|constructor].
  destruct (Nat.ltb_spec 128 (List.length (sanitizePart P part)))
    as [Hlt | Hle].
  - unfold slice0. split.
    + repeat split.
      * apply Forall_firstn; assumption.
      * rewrite length_firstn. lia.
      * destruct (sanitizePart P part); [congruence | exact Hst].
    + destruct (sanitizePart P part); [congruence | discriminate].
  - split; [|assumption]. repeat split; assumption.
Qed.

(** A cut through a joined list keeps whole segments and a part of one. *)
Lemma firstn_join (n : nat) (l : list jsstring) :
  exists pre last post m,
    l = pre ++ post /\ last = firstn m (hd [] post) /\
    firstn n (join [SLASH] l) = join [SLASH] (pre ++ [last]).
Proof.
  revert n; induction l as [|p l IH]; intros n.
  - exists [], [], [], 0%nat. simpl. rewrite firstn_nil. repeat split.
  - destruct l as [|p' l'].
    + exists [], (firstn n p), [p], n. repeat split.
    + change (join [SLASH] (p :: p' :: l'))
        with (p ++ SLASH :: join [SLASH] (p' :: l')).
      rewrite firstn_app.
      destruct (Nat.leb_spec n (List.length p)) as [Hle | Hgt].
      * replace (n - List.length p)%nat with 0%nat by lia.
        rewrite firstn_O, app_nil_r.
        exists [], (firstn n p), (p :: p' :: l'), n. repeat split.
      * rewrite firstn_all2 by lia.
        destruct (n - List.length p)%nat as [|k] eqn:Ek; [lia|].
        rewrite firstn_cons.
        destruct (IH k) as (pre & last & post & m & Hl & Hlast & Hcut).
        rewrite Hcut.
        exists (p :: pre), last, post, m. repeat split.
        -- simpl. rewrite Hl. reflexivity.
        -- assumption.
        -- destruct pre; reflexivity.
Qed.

(** The result of [sanitizePathDir], segment by segment. *)
Lemma sanitizePathDir_segments (P : Platform) (input : jsstring) :
  exists segs last,
    Forall (fun s => safeSegment s /\ s <> []) segs /\
    safeSegment last /\
    sanitizePathDir P input = join [SLASH] (segs ++ [last]).
Proof.
  unfold sanitizePathDir. cbv zeta.
  destruct (falsy _).
  { exists [], []. split; [constructor|]. split;
      [apply safeSegment_nil | reflexivity]. }
  set (out := flat_map (pushPart P) _).
  assert (Forall (fun s => safeSegment s /\ s <> []) out) as Hout.
  { unfold out. generalize (filter truthy
      (map trim (split SLASH (replaceUnit BACKSLASH SLASH
                                (trim (normalizeNFD P input)))))).
    intros parts. induction parts as [|p parts IH]; [constructor|].
    simpl. apply Forall_app. split; [apply pushPart_safe | exact IH]. }
  destruct (512 <? List.length (join [SLASH] out))%nat.
  - unfold slice0.
    destruct (firstn_join 512 out) as (pre & last & post & m & Hl & Hlast & ->).
    rewrite Hl in Hout. apply Forall_app in Hout. destruct Hout as [Hpre Hpost].
    exists pre, last. split; [assumption|]. split; [|reflexivity].
    rewrite Hlast. apply safeSegment_firstn.
    destruct post as [|q post]; [apply safeSegment_nil|].
    inversion Hpost as [|? ? [Hq _] _]; subst. exact Hq.
  - destruct out as [|o out'] eqn:Eo.
    { exists [], []. split; [constructor|]. split;
        [apply safeSegment_nil | reflexivity]. }
    destruct (@exists_last _ (o :: out') ltac:(discriminate))
      as (segs & last & E).
    rewrite E in *. apply Forall_app in Hout. destruct Hout as [Hsegs Hlast].
    exists segs, last. split; [assumption|]. split; [|reflexivity].
    inversion Hlast as [|? ? [Hq _] _]; subst. exact Hq.
Qed.

(** X1.  Whatever the input and the platform's normalisation,
    [sanitizePathDir] returns at most 512 units; every segment of the result
    is made of letters, digits, dots, underscores and hyphens, has at most
    128 units and starts with neither a dot nor a hyphen, so that no segment
    is [.] or [..]; and no segment but the last is empty. *)
Theorem sanitizePathDir_safe (P : Platform) (input : jsstring) :
  (List.length (sanitizePathDir P input) <= 512)%nat /\
  Forall (fun seg =>
            Forall (fun c => isDirUnit c = true) seg /\
            (List.length seg <= 128)%nat /\
            startsNot isDotOrHyphen seg /\
            seg <> [DOT] /\ seg <> [DOT; DOT])
    (split SLASH (sanitizePathDir P input)) /\
  Forall (fun seg => seg <> [])
    (removelast (split SLASH (sanitizePathDir P input))).
Proof.
  split.
  - unfold sanitizePathDir. cbv zeta.
    destruct (falsy _); [simpl; lia|].
    match goal with
    | |- context [(512 <? ?n)%nat] => destruct (Nat.ltb_spec 512 n)
    end; [unfold slice0; rewrite length_firstn; lia | assumption].
  - destruct (sanitizePathDir_segments P input)
      as (segs & last & Hsegs & Hlast & ->).
    assert (Forall safeSegment (segs ++ [last])) as Hall.
    { apply Forall_app. split; [|constructor; [assumption | constructor]].
      eapply Forall_impl; [|exact Hsegs]. intros s [Hs _]. exact Hs. }
    rewrite split_join.
    + split.
      * eapply Forall_impl; [|exact Hall]. intros s Hs.
        pose proof (safeSegment_not_dots s Hs) as [H1 H2].
        destruct Hs as (HF & HL & HS). repeat split; assumption.
      * rewrite removelast_last. eapply Forall_impl; [|exact Hsegs].
        intros s [_ Hne]. exact Hne.
    + destruct segs; discriminate.
    + eapply Forall_impl; [|exact Hall]. apply safeSegment_no_slash.
Qed.

Lemma folderName_no_slash (p : jsstring) : folderName p -> ~ In SLASH p.
Proof.
  intros (HF & _) Hin. rewrite Forall_forall in HF. apply HF in Hin.
  apply folderUnit_facts in Hin. destruct Hin as (_ & _ & Hs & _).
  apply Hs. reflexivity.
Qed.

(** X2.  Whatever the input and the platform's normalisation,
    [sanitizeAdminFolderPath] returns the empty string or segments joined by
    single separators, each of them a folder name that is not empty:
    letters, digits, spaces, underscores and hyphens only, no two spaces in
    a row, no space at either end, at most 128 units.  No segment is [.] or
    [..]: the folder alphabet has no dot. *)
Theorem sanitizeAdminFolderPath_segments (P : Platform) (input : jsstring) :
  sanitizeAdminFolderPath P input = [] \/
  Forall (fun p => folderName p /\ p <> [] /\ ~ In DOT p)
    (split SLASH (sanitizeAdminFolderPath P input)).
Proof.
  destruct (sanitizeAdminFolderPath_shape P input) as (parts & Hparts & ->).
  destruct parts as [|p0 rest]; [left; reflexivity|]. right.
  rewrite split_join.
  - eapply Forall_impl; [|exact Hparts]. intros p [Hp Hne].
    split; [assumption|]. split; [assumption|].
    intros Hin. destruct Hp as (HF & _). rewrite Forall_forall in HF.
    apply HF in Hin. vm_compute in Hin. discriminate.
  - discriminate.
  - eapply Forall_impl; [|exact Hparts]. intros p [Hp _].
    apply folderName_no_slash; assumption.
Qed.

Lemma normalizeRelativeSlashPath_fixed (v : jsstring) :
  trimmedOf isWhiteSpace v -> ~ In BACKSLASH v ->
  trimmedOf NodePath.isSlash v -> normalizeRelativeSlashPath v = v.
Proof.
  intros Hw Hb Hs. unfold normalizeRelativeSlashPath.
  rewrite (trimmed_trim v Hw). rewrite replaceUnit_id.
  - apply trimmed_dropBoth; assumption.
  - apply Forall_forall. intros x Hx E. subst. contradiction.
Qed.

(** X3.  [normalizeRelativeSlashPath] returns a string without a backslash
    that neither starts nor ends with a separator, hence never an absolute
    path; a string that is already so, and has no white space at either end,
    is returned as it is. *)
Theorem normalizeRelativeSlashPath_shape (v : jsstring) :
  ~ In BACKSLASH (normalizeRelativeSlashPath v) /\
  trimmedOf NodePath.isSlash (normalizeRelativeSlashPath v) /\
  NodePath.isAbsolute (normalizeRelativeSlashPath v) = false /\
  (trimmedOf isWhiteSpace v -> ~ In BACKSLASH v ->
   trimmedOf NodePath.isSlash v -> normalizeRelativeSlashPath v = v).
Proof.
  unfold normalizeRelativeSlashPath.
  pose proof (dropBoth_trimmed NodePath.isSlash
                (replaceUnit BACKSLASH SLASH (trim v))) as Ht.
  split; [|split; [exact Ht|split]].
  - assert (Forall (fun x => x <> BACKSLASH)
              (replaceUnit BACKSLASH SLASH (trim v))) as HF.
    { unfold replaceUnit. apply Forall_map. apply Forall_forall.
      intros x _. destruct (N.eqb_spec x BACKSLASH); [discriminate|].
      assumption. }
    apply (Forall_dropWhile _ NodePath.isSlash) in HF.
    apply (Forall_dropWhileEnd _ NodePath.isSlash) in HF.
    intros Hin. rewrite Forall_forall in HF. apply (HF _ Hin). reflexivity.
  - destruct Ht as [Hs _].
    destruct (dropWhileEnd NodePath.isSlash _); [reflexivity | exact Hs].
  - fold (normalizeRelativeSlashPath v).
    apply normalizeRelativeSlashPath_fixed.
Qed.

End SanitizedShape.

(* ------------------------------------------------------------------ *)
(** ** What the resolver accepts *)

Section ResolverAccepts.
Import PathUtils Props.

Lemma join_proper_truthy (l : list jsstring) :
  l <> [] -> Forall properSegment l ->
  falsy (join NodePath.sep l) = false /\
  NodePath.isAbsolute (join NodePath.sep l) = false.
Proof.
  intros Hne H. destruct l as [|a l]; [congruence|].
  inversion H as [|? ? (Ha & _ & _ & Hs) _]; subst.
  destruct a as [|x a]; [congruence|].
  assert (NodePath.isSlash x = false) as Hx.
  { unfold NodePath.isSlash. apply N.eqb_neq. intros ->. apply Hs.
    left; reflexivity. }
  destruct l; simpl; rewrite Hx; split; reflexivity.
Qed.

Lemma proper_no_slash (l : list jsstring) :
  Forall properSegment l -> Forall (fun p => ~ In SLASH p) l.
Proof. intros H. eapply Forall_impl; [|exact H]. intros p Hp. apply Hp. Qed.

(** Normalising the segments of a joined list of proper segments keeps
    them. *)
Lemma normalizeSegments_join (res R : list jsstring) :
  Forall properSegment R ->
  NodePath.normalizeSegments false res (split SLASH (join NodePath.sep R))
  = rev res ++ R.
Proof.
  intros HR. destruct R as [|r R].
  - simpl. rewrite app_nil_r. reflexivity.
  - unfold NodePath.sep. rewrite split_join;
      [|discriminate | apply proper_no_slash; assumption].
    apply normalizeSegments_proper_id; assumption.
Qed.

(** [path.resolve] of a normalised absolute path and a normalised relative
    one. *)
Lemma resolve_under (P : Platform) (R segs : list jsstring)
  (rootAbs rel : jsstring) :
  Forall properSegment R -> Forall properSegment segs -> segs <> [] ->
  rootAbs = SLASH :: join NodePath.sep R -> rel = join NodePath.sep segs ->
  NodePath.resolve P [rootAbs; rel] = SLASH :: join NodePath.sep (R ++ segs).
Proof.
  intros HR Hs Hne -> ->.
  destruct (join_proper_truthy segs Hne Hs) as [Hf Ha].
  unfold NodePath.resolve.
  change (rev [SLASH :: join NodePath.sep R; join NodePath.sep segs] ++ [cwd P])
    with [join NodePath.sep segs; SLASH :: join NodePath.sep R; cwd P].
  cbn [NodePath.resolveLoop]. rewrite Hf, Ha.
  change (falsy (SLASH :: join NodePath.sep R)) with false.
  change (NodePath.isAbsolute (SLASH :: join NodePath.sep R)) with true.
  cbv iota. simpl negb. cbv iota.
  unfold NodePath.normalizeString. f_equal. f_equal.
  change ((SLASH :: join NodePath.sep R) ++ NodePath.sep
          ++ join NodePath.sep segs ++ NodePath.sep ++ [])
    with (SLASH :: (join NodePath.sep R
                    ++ SLASH :: (join NodePath.sep segs ++ SLASH :: []))).
  change (split SLASH
            (SLASH :: (join NodePath.sep R
                       ++ SLASH :: (join NodePath.sep segs ++ SLASH :: []))))
    with ([] :: split SLASH
                  (join NodePath.sep R
                   ++ SLASH :: (join NodePath.sep segs ++ SLASH :: []))).
  change (NodePath.normalizeSegments false []
            ([] :: split SLASH
                     (join NodePath.sep R
                      ++ SLASH :: (join NodePath.sep segs ++ SLASH :: []))))
    with (NodePath.normalizeSegments false []
            (split SLASH
               (join NodePath.sep R
                ++ SLASH :: (join NodePath.sep segs ++ SLASH :: [])))).
  rewrite split_app, normalizeSegments_app, normalizeSegments_join
    by assumption.
  rewrite split_app, normalizeSegments_app, normalizeSegments_join
    by assumption.
  simpl. rewrite !rev_involutive. reflexivity.
Qed.

(** A resolved path resolves to itself. *)
Lemma resolve_resolved (P : Platform) (R : list jsstring)
  (rootAbs : jsstring) :
  Forall properSegment R -> rootAbs = SLASH :: join NodePath.sep R ->
  NodePath.resolve P [rootAbs] = rootAbs.
Proof.
  intros HR ->. unfold NodePath.resolve.
  change (rev [SLASH :: join NodePath.sep R] ++ [cwd P])
    with [SLASH :: join NodePath.sep R; cwd P].
  cbn [NodePath.resolveLoop].
  change (falsy (SLASH :: join NodePath.sep R)) with false.
  change (NodePath.isAbsolute (SLASH :: join NodePath.sep R)) with true.
  cbv iota. simpl negb. cbv iota.
  unfold NodePath.normalizeString. f_equal.
  change ((SLASH :: join NodePath.sep R) ++ NodePath.sep ++ [])
    with (SLASH :: (join NodePath.sep R ++ SLASH :: [])).
  change (split SLASH (SLASH :: (join NodePath.sep R ++ SLASH :: [])))
    with ([] :: split SLASH (join NodePath.sep R ++ SLASH :: [])).
  change (NodePath.normalizeSegments false []
            ([] :: split SLASH (join NodePath.sep R ++ SLASH :: [])))
    with (NodePath.normalizeSegments false []
            (split SLASH (join NodePath.sep R ++ SLASH :: []))).
  rewrite split_app, normalizeSegments_app, normalizeSegments_join
    by assumption.
  simpl. rewrite rev_involutive. reflexivity.
Qed.

Lemma app_neq_self (a b : jsstring) : b <> [] -> a ++ b <> a.
Proof.
  intros Hb E. apply (f_equal (@List.length _)) in E.
  rewrite length_app in E. destruct b; [congruence | simpl in E; lia].
Qed.

(** What [safeResolveUnderRoot] answers on a resolved root and a relative
    path of proper segments. *)
Lemma safeResolve_proper (P : Platform) (R segs : list jsstring) :
  Forall properSegment R -> R <> [] ->
  Forall properSegment segs -> segs <> [] ->
  safeResolveUnderRoot P (SLASH :: join NodePath.sep R)
    (join NodePath.sep segs)
  = Some ((SLASH :: join NodePath.sep R) ++ SLASH :: join NodePath.sep segs).
Proof.
  intros HR HRne Hs Hne. unfold safeResolveUnderRoot.
  rewrite (resolve_resolved P R _ HR eq_refl).
  rewrite (resolve_under P R segs _ _ HR Hs Hne eq_refl eq_refl).
  rewrite (join_app NodePath.sep R segs HRne Hne).
  change (SLASH :: (join NodePath.sep R ++ NodePath.sep
                    ++ join NodePath.sep segs))
    with ((SLASH :: join NodePath.sep R)
          ++ SLASH :: join NodePath.sep segs).
  assert (eqs ((SLASH :: join NodePath.sep R)
               ++ SLASH :: join NodePath.sep segs)
              (SLASH :: join NodePath.sep R) = false) as ->.
  { apply eqs_neq. apply app_neq_self. discriminate. }
  assert (startsWith ((SLASH :: join NodePath.sep R)
                      ++ SLASH :: join NodePath.sep segs)
            ((SLASH :: join NodePath.sep R) ++ NodePath.sep) = true) as ->.
  { change ((SLASH :: join NodePath.sep R) ++ SLASH :: join NodePath.sep segs)
      with ((SLASH :: join NodePath.sep R)
            ++ NodePath.sep ++ join NodePath.sep segs).
    rewrite app_assoc. apply startsWith_app. }
  reflexivity.
Qed.

(** X4.  With an absolute working directory: when the root does not resolve
    to [/], [safeResolveUnderRoot] accepts every relative path made of
    proper segments joined by single separators, and answers the resolved
    root, a separator and that path; when the root resolves to [/], it
    answers [null] whatever the candidate is. *)
Theorem safeResolveUnderRoot_accepts (P : Platform) (root : jsstring) :
  cwdAbsolute P ->
  (NodePath.resolve P [root] <> [SLASH] ->
   forall segs,
     segs <> [] -> Forall properSegment segs ->
     safeResolveUnderRoot P root (join NodePath.sep segs)
     = Some (NodePath.resolve P [root] ++ NodePath.sep
             ++ join NodePath.sep segs)) /\
  (NodePath.resolve P [root] = [SLASH] ->
   forall rel, safeResolveUnderRoot P root rel = None).
Proof.
  intros Hcwd.
  destruct (resolve_form P [root] Hcwd) as (R & HR & HrootAbs).
  split.
  - intros Hroot segs Hne Hs.
    assert (R <> []) as HRne.
    { intros ->. apply Hroot. rewrite HrootAbs. reflexivity. }
    pose proof (safeResolve_proper P R segs HR HRne Hs Hne) as H.
    unfold safeResolveUnderRoot in *.
    rewrite (resolve_resolved P R _ HR eq_refl) in H. rewrite HrootAbs.
    exact H.
  - intros Hroot rel. unfold safeResolveUnderRoot.
    destruct (resolve_form P [NodePath.resolve P [root]; rel] Hcwd)
      as (A & HA & ->).
    rewrite Hroot.
    destruct (eqs _ _); [reflexivity|].
    destruct A as [|a A]; [reflexivity|].
    inversion HA as [|? ? (Hane & _ & _ & Hs) _]; subst.
    destruct a as [|x a]; [congruence|].
    assert ((SLASH =? x) = false) as Hx.
    { apply N.eqb_neq. intros <-. apply Hs. left; reflexivity. }
    match goal with
    | |- context [startsWith ?s ?p] =>
        assert (startsWith s p = false) as ->; [|reflexivity]
    end.
    destruct A; cbn [join app startsWith NodePath.sep];
      rewrite N.eqb_refl, Hx; reflexivity.
Qed.

(** A path that [safeResolveUnderRoot] answers lies strictly inside the
    resolved root. *)
Lemma safeResolve_inside (P : Platform) (root rel abs : jsstring) :
  cwdAbsolute P ->
  PathUtils.safeResolveUnderRoot P root rel = Some abs ->
  strictlyInside (NodePath.resolve P [root]) abs.
Proof.
  intros Hcwd. unfold PathUtils.safeResolveUnderRoot.
  set (rootAbs := NodePath.resolve P [root]).
  set (a := NodePath.resolve P [rootAbs; rel]).
  destruct (eqs a rootAbs) eqn:Heq; [discriminate|].
  destruct (startsWith a (rootAbs ++ NodePath.sep)) eqn:Hsw; simpl;
    [|discriminate].
  intros H; injection H as <-.
  apply startsWith_spec in Hsw. destruct Hsw as [x Hx].
  destruct (resolve_form P [root] Hcwd) as (R & HR & HrootAbs).
  destruct (resolve_form P [rootAbs; rel] Hcwd) as (A & HA & Habs).
  fold rootAbs in HrootAbs. fold a in Habs.
  assert (join NodePath.sep R ++ SLASH :: x = join NodePath.sep A) as Hj.
  { rewrite Habs, HrootAbs in Hx. unfold NodePath.sep in Hx.
    simpl in Hx. rewrite <- app_assoc in Hx. simpl in Hx.
    injection Hx as Hx. symmetry; exact Hx. }
  destruct R as [|r R].
  - exfalso. simpl in Hj. destruct A as [|a0 A]; [discriminate|].
    inversion HA; subst. eapply join_proper_head; eauto.
  - destruct (join_prefix_segments _ _ x HR HA ltac:(congruence) Hj)
      as (rest & Hne & HAeq & Hxeq).
    exists rest. split; [assumption|]. split.
    + rewrite HAeq in HA. apply Forall_app in HA. tauto.
    + rewrite Hx, Hxeq. rewrite <- app_assoc. reflexivity.
Qed.

End ResolverAccepts.

(* ------------------------------------------------------------------ *)
(** ** Cleanup of empty directories *)

Section CleanupDirs.
Import PathUtils Props.

Lemma lookup_remove (d : Fs.fs) (q p : jsstring) :
  Fs.lookup (Fs.remove d q) p = if eqs q p then None else Fs.lookup d p.
Proof.
  unfold Fs.remove. induction d as [|[k n] d IH]; simpl.
  - destruct (eqs q p); reflexivity.
  - destruct (eqs k q) eqn:Ekq; simpl.
    + apply eqs_spec in Ekq. subst k. rewrite IH.
      destruct (eqs q p); reflexivity.
    + rewrite IH. destruct (eqs q p) eqn:Eqp; [|reflexivity].
      apply eqs_spec in Eqp. subst p. rewrite Ekq. reflexivity.
Qed.

Lemma remove_incl (d : Fs.fs) (q : jsstring) (e : jsstring * Fs.node) :
  In e (Fs.remove d q) -> In e d.
Proof. unfold Fs.remove. intros H. apply filter_In in H. tauto. Qed.

Lemma children_nil (d : Fs.fs) (dir : jsstring) :
  Fs.children d dir = [] <->
  forall e, In e d -> Fs.childName dir (fst e) = None.
Proof.
  unfold Fs.children. split.
  - intros H e He. destruct (Fs.childName dir (fst e)) as [n|] eqn:E;
      [|reflexivity].
    exfalso. assert (In n (@nil jsstring)) as Hin; [|destruct Hin].
    rewrite <- H. apply in_flat_map. exists e. split; [assumption|].
    rewrite E. left; reflexivity.
  - intros H. apply flat_map_nil. intros e He. rewrite (H e He). reflexivity.
Qed.

Lemma startsWith_longer (s p : jsstring) :
  startsWith s (s ++ p) = true -> p = [].
Proof.
  intros H. apply startsWith_spec in H. destruct H as [r H].
  apply (f_equal (@List.length _)) in H. rewrite !length_app in H.
  destruct p; [reflexivity | simpl in H; lia].
Qed.

(** What the loop does to the entry at a path: it leaves it, or it removes
    the directory that was there, and then the path lies under the root and
    nothing is left inside it. *)
Lemma cleanupLoop_safe (fuel : nat) (rootAbs : jsstring) (d : Fs.fs)
  (current p : jsstring) :
  (forall e, In e (cleanupLoop fuel rootAbs d current) -> In e d) /\
  (Fs.lookup (cleanupLoop fuel rootAbs d current) p = Fs.lookup d p \/
   (Fs.lookup d p = Some Fs.Dir /\
    Fs.lookup (cleanupLoop fuel rootAbs d current) p = None /\
    startsWith p (rootAbs ++ NodePath.sep) = true /\
    Fs.children (cleanupLoop fuel rootAbs d current) p = [])).
Proof.
  revert d current; induction fuel as [|fuel IH]; intros d current;
    [split; [auto | left; reflexivity]|].
  cbn [cleanupLoop].
  destruct (startsWith current (rootAbs ++ NodePath.sep)
            && negb (eqs current rootAbs)) eqn:Hc;
    [|split; [auto | left; reflexivity]].
  apply andb_true_iff in Hc. destruct Hc as [Hsw _].
  unfold Fs.readdir, Fs.rmdir.
  destruct (Fs.lookup d current) as [[bytes|]|] eqn:Hl;
    try (split; [auto | left; reflexivity]).
  destruct (Fs.children d current) eqn:Hch;
    [|split; [auto | left; reflexivity]].
  destruct (IH (Fs.remove d current) (NodePath.dirname current))
    as [Hincl Hp].
  split.
  - intros e He. eapply remove_incl. apply Hincl. exact He.
  - rewrite lookup_remove in Hp.
    destruct (eqs current p) eqn:E.
    + apply eqs_spec in E. subst p. right.
      destruct Hp as [Hp | [Hp _]]; [|discriminate].
      repeat split; try assumption.
      apply children_nil. intros e He.
      apply (proj1 (children_nil d current) Hch).
      eapply remove_incl. apply Hincl. exact He.
    + exact Hp.
Qed.

(** X5.  Called with a resolved path, as [delete] calls it,
    [cleanupEmptyDirs] never creates an entry and removes nothing but
    directories under the root: an entry is left as it was, or it was a
    directory strictly under the resolved root, it is gone, and nothing is
    left inside it.  Regular files, the root itself and everything outside
    the root stay as they were. *)
Theorem cleanupEmptyDirs_safe (P : Platform) (d : Fs.fs)
  (absFilePath root : jsstring) :
  resolvedPath absFilePath ->
  (forall p,
     Fs.lookup (cleanupEmptyDirs P d absFilePath root) p = Fs.lookup d p \/
     (Fs.lookup d p = Some Fs.Dir /\
      Fs.lookup (cleanupEmptyDirs P d absFilePath root) p = None /\
      startsWith p (NodePath.resolve P [root] ++ NodePath.sep) = true /\
      p <> NodePath.resolve P [root] /\
      Fs.children (cleanupEmptyDirs P d absFilePath root) p = [])) /\
  (forall p bytes,
     Fs.lookup d p = Some (Fs.File bytes) ->
     Fs.lookup (cleanupEmptyDirs P d absFilePath root) p
     = Some (Fs.File bytes)) /\
  Fs.lookup (cleanupEmptyDirs P d absFilePath root) (NodePath.resolve P [root])
  = Fs.lookup d (NodePath.resolve P [root]).
Proof.
  intros _. unfold cleanupEmptyDirs.
  set (fuel := S (List.length absFilePath)).
  set (rootAbs := NodePath.resolve P [root]).
  set (current := NodePath.dirname absFilePath).
  assert (forall p,
            Fs.lookup (cleanupLoop fuel rootAbs d current) p = Fs.lookup d p \/
            (Fs.lookup d p = Some Fs.Dir /\
             Fs.lookup (cleanupLoop fuel rootAbs d current) p = None /\
             startsWith p (rootAbs ++ NodePath.sep) = true /\
             p <> rootAbs /\
             Fs.children (cleanupLoop fuel rootAbs d current) p = [])) as H.
  { intros p.
    destruct (proj2 (cleanupLoop_safe fuel rootAbs d current p))
      as [H | (H1 & H2 & H3 & H4)]; [left; exact H | right].
    repeat split; try assumption.
    intros ->. apply startsWith_longer in H3. discriminate. }
  split; [exact H|]. split.
  - intros p bytes Hp. destruct (H p) as [E | (E & _)]; congruence.
  - destruct (H rootAbs) as [E | (_ & _ & _ & E & _)]; congruence.
Qed.

(** *** The chain of directories a deletion leaves empty *)

Lemma dropWhile_all (f : codeunit -> bool) (a b : jsstring) (x : codeunit) :
  Forall (fun c => f c = true) a -> f x = false ->
  dropWhile f (a ++ x :: b) = x :: b.
Proof.
  intros Ha Hx. induction Ha as [|c a Hc _ IH]; simpl.
  - rewrite Hx. reflexivity.
  - rewrite Hc. exact IH.
Qed.

Lemma proper_rev_notSlash (c : jsstring) :
  properSegment c -> Forall (fun x => NodePath.notSlash x = true) (rev c).
Proof.
  intros (_ & _ & _ & Hs). apply Forall_rev. apply Forall_forall.
  intros x Hx. unfold NodePath.notSlash, NodePath.isSlash.
  apply negb_true_iff, N.eqb_neq. intros ->. contradiction.
Qed.

(** [path.dirname] of a normalised absolute path with two segments or more
    drops the last one. *)
Lemma dirname_under (L : list jsstring) (c : jsstring) :
  Forall properSegment L -> L <> [] -> properSegment c ->
  NodePath.dirname ((SLASH :: join NodePath.sep L) ++ SLASH :: c)
  = SLASH :: join NodePath.sep L.
Proof.
  intros HL HLne Hc.
  change ((SLASH :: join NodePath.sep L) ++ SLASH :: c)
    with (SLASH :: (join NodePath.sep L ++ SLASH :: c)).
  unfold NodePath.dirname.
  change (NodePath.isSlash SLASH) with true. cbv iota.
  rewrite rev_app_distr.
  change (rev (SLASH :: c)) with (rev c ++ [SLASH]).
  rewrite <- app_assoc.
  change ([SLASH] ++ rev (join NodePath.sep L))
    with (SLASH :: rev (join NodePath.sep L)).
  pose proof (proper_rev_notSlash c Hc) as Hrc.
  destruct (rev c) as [|y rc] eqn:Erc.
  { exfalso. destruct Hc as (Hne & _). apply Hne.
    rewrite <- (rev_involutive c), Erc. reflexivity. }
  assert (NodePath.isSlash y = false) as Hy.
  { inversion Hrc as [|? ? Hy _]; subst. apply negb_true_iff. exact Hy. }
  assert (dropWhile NodePath.isSlash
            ((y :: rc) ++ SLASH :: rev (join NodePath.sep L))
          = (y :: rc) ++ SLASH :: rev (join NodePath.sep L)) as ->.
  { simpl. rewrite Hy. reflexivity. }
  change ((y :: rc) ++ SLASH :: rev (join NodePath.sep L))
    with (y :: (rc ++ SLASH :: rev (join NodePath.sep L))).
  cbv iota.
  change (y :: (rc ++ SLASH :: rev (join NodePath.sep L)))
    with ((y :: rc) ++ SLASH :: rev (join NodePath.sep L)).
  rewrite (dropWhile_all NodePath.notSlash (y :: rc)
             (rev (join NodePath.sep L)) SLASH Hrc eq_refl).
  assert (falsy (rev (join NodePath.sep L)) = false) as ->.
  { destruct (join_proper_truthy L HLne HL) as [Hf _].
    destruct (join NodePath.sep L) as [|z j]; [discriminate|].
    simpl. destruct (rev j); reflexivity. }
  simpl andb. cbv iota. rewrite rev_involutive. reflexivity.
Qed.

Lemma firstn_succ (i : nat) (l : list jsstring) :
  (i < List.length l)%nat -> firstn (S i) l = firstn i l ++ [nth i l []].
Proof.
  revert i; induction l as [|x l IH]; intros i Hi; [simpl in Hi; lia|].
  destruct i; [reflexivity|]. simpl in Hi.
  change (firstn (S (S i)) (x :: l)) with (x :: firstn (S i) l).
  rewrite IH by lia. reflexivity.
Qed.

Lemma join_length (l : list jsstring) :
  Forall properSegment l ->
  (List.length l <= List.length (join NodePath.sep l))%nat.
Proof.
  induction 1 as [|p l Hp Hl IH]; [simpl; lia|].
  destruct Hp as (Hne & _).
  destruct l as [|q l].
  - simpl. destruct p; [congruence | simpl; lia].
  - change (join NodePath.sep (p :: q :: l))
      with (p ++ SLASH :: join NodePath.sep (q :: l)).
    rewrite length_app. simpl in *. lia.
Qed.

Lemma join_longer (l m : list jsstring) :
  Forall properSegment m -> m <> [] ->
  (List.length (join NodePath.sep l)
   < List.length (join NodePath.sep (l ++ m)))%nat.
Proof.
  intros Hm Hne.
  assert (0 < List.length (join NodePath.sep m))%nat as Hpos.
  { pose proof (join_length m Hm). destruct m; [congruence|].
    simpl in *. lia. }
  destruct l as [|p l]; [exact Hpos|].
  rewrite (join_app NodePath.sep (p :: l) m) by congruence.
  rewrite !length_app. lia.
Qed.

Lemma lookup_not_created (fuel : nat) (rootAbs : jsstring) (d : Fs.fs)
  (current p : jsstring) :
  Fs.lookup d p = None ->
  Fs.lookup (cleanupLoop fuel rootAbs d current) p = None.
Proof.
  intros H. destruct (proj2 (cleanupLoop_safe fuel rootAbs d current p))
    as [E | (E & _)]; congruence.
Qed.

Section Chain.
Variable R : list jsstring.
Variable dirs : list jsstring.
Hypothesis HR : Forall properSegment R.
Hypothesis HRne : R <> [].
Hypothesis Hdirs : Forall properSegment dirs.

Let rootAbs : jsstring := SLASH :: join NodePath.sep R.
Let dirAt (k : nat) : jsstring :=
  rootAbs ++ NodePath.sep ++ join NodePath.sep (firstn k dirs).

Lemma dirAt_form (k : nat) :
  (1 <= k)%nat -> dirs <> [] ->
  dirAt k = SLASH :: join NodePath.sep (R ++ firstn k dirs).
Proof.
  intros Hk Hne. unfold dirAt, rootAbs.
  rewrite (join_app NodePath.sep R (firstn k dirs) HRne).
  - reflexivity.
  - destruct dirs; [congruence|]. destruct k; [lia | discriminate].
Qed.

Lemma dirAt_distinct (k i : nat) :
  (k < i <= List.length dirs)%nat -> dirAt i <> dirAt k.
Proof.
  intros Hki E. unfold dirAt in E. apply app_inv_head in E.
  apply app_inv_head in E.
  apply (f_equal (@List.length _)) in E.
  set (F := firstn i dirs) in *.
  assert (firstn k dirs = firstn k F) as Hk.
  { unfold F. rewrite firstn_firstn. f_equal. lia. }
  assert (Forall properSegment F) as HF.
  { unfold F. rewrite <- (firstn_skipn i dirs) in Hdirs.
    apply Forall_app in Hdirs. tauto. }
  assert (List.length F = i) as HlenF.
  { unfold F. rewrite length_firstn. lia. }
  rewrite Hk in E. rewrite <- (firstn_skipn k F) in E at 1.
  rewrite <- (firstn_skipn k F) in HF. apply Forall_app in HF.
  destruct HF as [_ Hp].
  assert (skipn k F <> []) as Hne.
  { intros E'. apply (f_equal (@List.length _)) in E'.
    rewrite length_skipn in E'. simpl in E'. lia. }
  pose proof (join_longer (firstn k F) (skipn k F) Hp Hne). lia.
Qed.

Lemma dirname_dirAt (i : nat) :
  (1 <= i)%nat -> (S i <= List.length dirs)%nat ->
  NodePath.dirname (dirAt (S i)) = dirAt i.
Proof.
  intros Hi Hle.
  assert (dirs <> []) as Hne
    by (destruct dirs; [simpl in Hle; lia | discriminate]).
  rewrite (dirAt_form i Hi Hne).
  unfold dirAt, rootAbs. rewrite (firstn_succ i dirs) by lia.
  assert (Forall properSegment (firstn i dirs)) as Hf.
  { rewrite <- (firstn_skipn i dirs) in Hdirs. apply Forall_app in Hdirs.
    tauto. }
  assert (firstn i dirs <> []) as Hfne.
  { destruct dirs; [congruence|]. destruct i; [lia | discriminate]. }
  assert (properSegment (nth i dirs [])) as Hn.
  { rewrite Forall_forall in Hdirs. apply Hdirs. apply nth_In. lia. }
  rewrite (join_app NodePath.sep (firstn i dirs) [nth i dirs []]) by
    (congruence || discriminate).
  change (join NodePath.sep [nth i dirs []]) with (nth i dirs []).
  replace ((SLASH :: join NodePath.sep R) ++ NodePath.sep
           ++ join NodePath.sep (firstn i dirs) ++ NodePath.sep
           ++ nth i dirs [])
    with ((SLASH :: join NodePath.sep (R ++ firstn i dirs))
          ++ SLASH :: nth i dirs []).
  - apply dirname_under.
    + apply Forall_app. split; assumption.
    + destruct R; [congruence | discriminate].
    + assumption.
  - rewrite (join_app NodePath.sep R (firstn i dirs) HRne Hfne).
    unfold NodePath.sep. simpl. rewrite <- !app_assoc. reflexivity.
Qed.

(** The loop started at the directory of depth [i] removes every directory
    of the chain from depth [i] up to depth [j0 + 1]. *)
Lemma cleanupLoop_chain (j0 i fuel : nat) (d : Fs.fs) :
  (i <= List.length dirs)%nat -> (i <= fuel)%nat ->
  (forall k, (j0 < k <= i)%nat ->
     Fs.lookup d (dirAt k) = Some Fs.Dir /\
     forall e, In e d -> Fs.childName (dirAt k) (fst e) <> None ->
               (k < i)%nat /\ fst e = dirAt (S k)) ->
  forall k, (j0 < k <= i)%nat ->
    Fs.lookup (cleanupLoop fuel rootAbs d (dirAt i)) (dirAt k) = None.
Proof.
  revert fuel d; induction i as [|i IH]; intros fuel d Hlen Hfuel Hyp k Hk;
    [lia|].
  destruct fuel as [|fuel]; [lia|].
  destruct (Hyp (S i) ltac:(lia)) as [Hdir Hkids].
  cbn [cleanupLoop].
  assert (startsWith (dirAt (S i)) (rootAbs ++ NodePath.sep)
          && negb (eqs (dirAt (S i)) rootAbs) = true) as ->.
  { apply andb_true_iff. split.
    - unfold dirAt. rewrite app_assoc. apply startsWith_app.
    - apply negb_true_iff, eqs_neq. unfold dirAt. apply app_neq_self.
      discriminate. }
  unfold Fs.readdir, Fs.rmdir. rewrite Hdir.
  assert (Fs.children d (dirAt (S i)) = []) as ->.
  { apply children_nil. intros e He.
    destruct (Fs.childName (dirAt (S i)) (fst e)) eqn:E; [|reflexivity].
    destruct (Hkids e He) as [Hlt _]; [congruence | lia]. }
  destruct (Nat.eq_dec k (S i)) as [-> | Hne].
  - apply lookup_not_created. rewrite lookup_remove, eqs_refl. reflexivity.
  - assert (1 <= i)%nat as Hi by lia.
    rewrite (dirname_dirAt i Hi Hlen).
    apply IH; [lia | lia | | lia].
    intros k' Hk'. destruct (Hyp k' ltac:(lia)) as [Hd' Hk''].
    split.
    + rewrite lookup_remove.
      assert (eqs (dirAt (S i)) (dirAt k') = false) as ->; [|exact Hd'].
      apply eqs_neq. apply dirAt_distinct. lia.
    + intros e He Hc. pose proof (remove_incl _ _ _ He) as He'.
      destruct (Hk'' e He' Hc) as [Hlt Hfst]. split; [|exact Hfst].
      destruct (Nat.eq_dec k' i) as [-> | ?]; [|lia].
      exfalso. unfold Fs.remove in He. apply filter_In in He.
      destruct He as [_ He]. rewrite Hfst, eqs_refl in He. discriminate.
Qed.

End Chain.

Lemma lookup_In (d : Fs.fs) (p : jsstring) (n : Fs.node) :
  Fs.lookup d p = Some n -> In (p, n) d.
Proof.
  induction d as [|[q m] d IH]; simpl; [discriminate|].
  destruct (eqs q p) eqn:E.
  - intros H; injection H as ->. apply eqs_spec in E. subst. left; reflexivity.
  - intros H. right. apply IH; assumption.
Qed.

(** X6.  With an absolute working directory and a root that does not
    resolve to [/]: for a file path made of the resolved root, directories
    [dirs] and a name, when every directory deeper than depth [j0] is there
    and holds nothing but the next directory of the path (the deepest one
    holds nothing: the file has been unlinked), [cleanupEmptyDirs] removes
    all of them.  A directory that holds a regular file is never removed. *)
Theorem cleanupEmptyDirs_removes_chain (P : Platform) (root : jsstring)
  (dirs : list jsstring) (name : jsstring) (j0 : nat) (d : Fs.fs) :
  cwdAbsolute P ->
  NodePath.resolve P [root] <> [SLASH] ->
  Forall properSegment (dirs ++ [name]) ->
  let rootAbs := NodePath.resolve P [root] in
  let dirAt k := rootAbs ++ NodePath.sep ++ join NodePath.sep (firstn k dirs) in
  let absFilePath :=
    rootAbs ++ NodePath.sep ++ join NodePath.sep (dirs ++ [name]) in
  (forall k, (j0 < k <= List.length dirs)%nat ->
     Fs.lookup d (dirAt k) = Some Fs.Dir /\
     forall e, In e d -> Fs.childName (dirAt k) (fst e) <> None ->
               (k < List.length dirs)%nat /\ fst e = dirAt (S k)) ->
  (forall k, (j0 < k <= List.length dirs)%nat ->
     Fs.lookup (cleanupEmptyDirs P d absFilePath root) (dirAt k) = None) /\
  (forall dir f bytes,
     Fs.lookup d f = Some (Fs.File bytes) ->
     Fs.childName dir f <> None ->
     Fs.lookup (cleanupEmptyDirs P d absFilePath root) dir = Fs.lookup d dir).
Proof.
  intros Hcwd Hroot Hsegs. cbv zeta. unfold cleanupEmptyDirs.
  destruct (resolve_form P [root] Hcwd) as (R & HR & HrootAbs).
  assert (R <> []) as HRne.
  { intros ->. apply Hroot. exact HrootAbs. }
  rewrite HrootAbs. clear Hroot HrootAbs.
  set (rootAbs := SLASH :: join NodePath.sep R).
  set (absFilePath :=
         rootAbs ++ NodePath.sep ++ join NodePath.sep (dirs ++ [name])).
  intros Hyp.
  apply Forall_app in Hsegs. destruct Hsegs as [Hdirs Hname].
  inversion Hname as [|? ? Hn _]; subst.
  split.
  - intros k Hk.
    assert (dirs <> []) as Hne
      by (destruct dirs; [simpl in Hk; lia | discriminate]).
    assert (NodePath.dirname absFilePath
            = rootAbs ++ NodePath.sep
              ++ join NodePath.sep (firstn (List.length dirs) dirs)) as ->.
    { unfold absFilePath, rootAbs. rewrite firstn_all.
      rewrite (join_app NodePath.sep dirs [name])
        by (congruence || discriminate).
      change (join NodePath.sep [name]) with name.
      replace ((SLASH :: join NodePath.sep R) ++ NodePath.sep
               ++ join NodePath.sep dirs ++ NodePath.sep ++ name)
        with ((SLASH :: join NodePath.sep (R ++ dirs)) ++ SLASH :: name).
      - rewrite dirname_under.
        + rewrite (join_app NodePath.sep R dirs HRne Hne). reflexivity.
        + apply Forall_app. split; assumption.
        + destruct R; [congruence | discriminate].
        + assumption.
      - rewrite (join_app NodePath.sep R dirs HRne Hne).
        unfold NodePath.sep. simpl. rewrite <- !app_assoc. reflexivity. }
    apply (cleanupLoop_chain R dirs HR HRne Hdirs j0 (List.length dirs)).
    + lia.
    + unfold absFilePath. rewrite !length_app.
      pose proof (join_length (dirs ++ [name])
                    ltac:(apply Forall_app; split; assumption)) as Hl.
      rewrite length_app in Hl. simpl in *. lia.
    + exact Hyp.
    + exact Hk.
  - intros dir f bytes Hf Hc.
    set (d' := cleanupLoop _ _ d _).
    destruct (proj2 (cleanupLoop_safe (S (List.length absFilePath)) rootAbs d
                       (NodePath.dirname absFilePath) dir))
      as [E | (_ & _ & _ & Hch)]; [exact E|].
    fold d' in Hch. exfalso.
    assert (Fs.lookup d' f = Some (Fs.File bytes)) as Hf'.
    { destruct (proj2 (cleanupLoop_safe (S (List.length absFilePath)) rootAbs d
                         (NodePath.dirname absFilePath) f))
        as [E | (E & _)]; [fold d' in E; congruence | congruence]. }
    apply lookup_In in Hf'.
    apply (proj1 (children_nil d' dir) Hch) in Hf'. contradiction.
Qed.

End CleanupDirs.

(* ------------------------------------------------------------------ *)
(** ** Strings, extensions and urls *)

Section StringUtils.
Import Strings Mime Url Props RegexProps.

(** X7.  [escapeRegexLiteral] returns a pattern without an unescaped syntax
    character, and the pattern stands for the input, unit by unit; so two
    different inputs never give the same pattern, and an input without
    syntax characters is returned as it is. *)
Theorem escapeRegexLiteral_literal (s : jsstring) :
  literalOfPattern (escapeRegexLiteral s) = Some s /\
  (forall t, escapeRegexLiteral t = escapeRegexLiteral s -> t = s) /\
  (Forall (fun c => isRegexSyntax c = false) s -> escapeRegexLiteral s = s).
Proof.
  assert (forall u, literalOfPattern (escapeRegexLiteral u) = Some u) as Hlit.
  { intros u. induction u as [|c u IH]; [reflexivity|].
    unfold escapeRegexLiteral in *. cbn [flat_map].
    destruct (isRegexSyntax c) eqn:Hc.
    - cbn [app literalOfPattern]. rewrite N.eqb_refl, Hc, IH. reflexivity.
    - cbn [app literalOfPattern]. rewrite Hc, IH.
      destruct (N.eqb_spec c BACKSLASH) as [->|_]; [discriminate|].
      reflexivity. }
  split; [apply Hlit|]. split.
  - intros t E. pose proof (Hlit t) as Ht. rewrite E, Hlit in Ht. congruence.
  - induction 1 as [|c u Hc _ IH]; [reflexivity|].
    unfold escapeRegexLiteral in *. cbn [flat_map]. rewrite Hc, IH.
    reflexivity.
Qed.

Lemma dropWhile_snoc_keep (f : codeunit -> bool) (a : jsstring) (c : codeunit) :
  f c = false -> dropWhile f (a ++ [c]) <> [].
Proof.
  intros Hc. induction a as [|x a IH]; simpl.
  - rewrite Hc. discriminate.
  - destruct (f x); [exact IH | discriminate].
Qed.

(** A string that starts with a unit that is not white space does not trim
    to nothing. *)
Lemma trim_keeps (c : codeunit) (s : jsstring) :
  isWhiteSpace c = false -> truthy (trim (c :: s)) = true.
Proof.
  intros Hc. unfold trim. cbn [dropWhile]. rewrite Hc.
  unfold dropWhileEnd. cbn [rev].
  pose proof (dropWhile_snoc_keep isWhiteSpace (rev s) c Hc) as H.
  destruct (dropWhile isWhiteSpace (rev s ++ [c])) as [|y r]; [congruence|].
  unfold truthy. cbn [rev]. destruct (rev r); reflexivity.
Qed.

(** X8.  What [normalizeExt] returns starts with a dot, is the input or the
    input with a dot in front, and is left as it is by [normalizeExt]; the
    answer is [null] exactly for a missing or blank input. *)
Theorem normalizeExt_dotted (e : option jsstring) :
  (forall r,
     normalizeExt e = Some r ->
     startsWith r [DOT] = true /\
     normalizeExt (Some r) = Some r /\
     (e = Some r \/ exists raw, e = Some raw /\ r = DOT :: raw)) /\
  (normalizeExt e = None <->
   forall raw, e = Some raw -> trim raw = []).
Proof.
  unfold normalizeExt, getStringOrUndefined. split.
  - intros r. destruct e as [raw|]; [|discriminate].
    destruct (truthy (trim raw)) eqn:Ht; [|discriminate].
    assert (forall x, truthy (trim (DOT :: x)) = true) as Hdot
      by (intros x; apply trim_keeps; reflexivity).
    destruct (startsWith raw [DOT]) eqn:Hs; intros H; injection H as <-.
    + rewrite Ht, Hs. split; [reflexivity|]. split; [reflexivity|].
      left; reflexivity.
    + rewrite Hdot. cbn [startsWith]. rewrite N.eqb_refl.
      split; [reflexivity|]. split; [reflexivity|].
      right. exists raw. split; reflexivity.
  - destruct e as [raw|].
    + destruct (truthy (trim raw)) eqn:Ht.
      * split; [destruct (startsWith raw [DOT]); discriminate|].
        intros H. rewrite (H raw eq_refl) in Ht. discriminate.
      * split; [|reflexivity]. intros _ raw' E. injection E as <-.
        unfold truthy in Ht. destruct (trim raw); [reflexivity | discriminate].
    + split; [discriminate | reflexivity].
Qed.

Lemma dropWhile_nil (f : codeunit -> bool) (s : jsstring) :
  dropWhile f s = [] -> Forall (fun c => f c = true) s.
Proof.
  induction s as [|x s IH]; simpl; [constructor|].
  destruct (f x) eqn:E; [|discriminate]. intros H. constructor; auto.
Qed.

(** A string trims to something exactly when it has a unit that is not
    white space. *)
Lemma trim_truthy (s : jsstring) :
  truthy (trim s) = true <-> exists x, In x s /\ isWhiteSpace x = false.
Proof.
  split.
  - intros H. destruct (trim_sub s) as (p & q & E).
    pose proof (trim_trimmed s) as [Hs _].
    destruct (trim s) as [|y t]; [discriminate|].
    exists y. split; [|exact Hs]. rewrite E. apply in_or_app. right.
    left; reflexivity.
  - intros (x & Hin & Hx). destruct (trim s) eqn:E; [|reflexivity].
    exfalso. unfold trim, dropWhileEnd in E.
    apply (f_equal (@rev codeunit)) in E. rewrite rev_involutive in E.
    simpl in E. apply dropWhile_nil in E. apply Forall_rev in E.
    rewrite rev_involutive in E.
    pose proof (dropWhile_startsNot isWhiteSpace s) as Hst.
    destruct (dropWhile_suffix isWhiteSpace s) as [p Hp].
    destruct (dropWhile isWhiteSpace s) as [|y t] eqn:Ed.
    + apply dropWhile_nil in Ed. rewrite Forall_forall in Ed.
      rewrite (Ed x Hin) in Hx. discriminate.
    + inversion E as [|? ? Hy _]; subst. simpl in Hst. congruence.
Qed.

Lemma trim_truthy_app (a b : jsstring) :
  truthy (trim a) = true -> truthy (trim (a ++ b)) = true.
Proof.
  rewrite !trim_truthy. intros (x & Hin & Hx). exists x.
  split; [apply in_or_app; left; assumption | assumption].
Qed.

Lemma afterFirst_prefix (m r : jsstring) :
  afterFirst (m ++ r) m = Some r.
Proof.
  destruct (m ++ r) eqn:E; cbn [afterFirst]; rewrite <- E;
    rewrite startsWith_app; f_equal; apply skipn_app_l || idtac.
  all: rewrite skipn_app, skipn_all, Nat.sub_diag; reflexivity.
Qed.

Lemma afterFirst_none (s m : jsstring) :
  includes s m = false -> afterFirst s m = None.
Proof.
  induction s as [|x s IH]; cbn [includes afterFirst]; intros H;
    apply orb_false_iff in H; destruct H as [H1 H2]; rewrite H1.
  - reflexivity.
  - apply IH; exact H2.
Qed.

Lemma beforeQuery_cut (a q : jsstring) :
  ~ In 63 a -> (q = [] \/ startsWith q [63] = true) ->
  beforeQuery (a ++ q) = a.
Proof.
  intros Ha [-> | Hq]; unfold beforeQuery.
  - rewrite app_nil_r, split_no_sep_id by assumption. reflexivity.
  - destruct q as [|c q]; [discriminate|]. cbn [startsWith] in Hq.
    rewrite andb_true_r in Hq. apply N.eqb_eq in Hq. subst c.
    rewrite split_app_sep by assumption. reflexivity.
Qed.

(** X9.  For a marker that starts with a separator, a url made of the
    marker, an object path and nothing more or a query string is read back
    as the object path without its leading separators, decoded when it can
    be; it is [null] when nothing is left.  The url that [upload] makes
    without a base url, [/uploads/] followed by the object path, is of this
    form. *)
Theorem extractObjectPathFromUrl_marker (P : Platform)
  (marker obj query : jsstring) (baseUrl : option jsstring) :
  startsWith marker [SLASH] = true ->
  ~ In 63 marker -> ~ In 63 obj ->
  query = [] \/ startsWith query [63] = true ->
  extractObjectPathFromUrl P (Some (marker ++ obj ++ query)) marker baseUrl
  = if falsy (dropWhile NodePath.isSlash obj) then None
    else Some (decodeOrRaw P (dropWhile NodePath.isSlash obj)).
Proof.
  intros Hm Hqm Hqo Hq.
  destruct marker as [|c marker]; [discriminate|].
  cbn [startsWith] in Hm. rewrite andb_true_r in Hm. apply N.eqb_eq in Hm.
  subst c.
  unfold extractObjectPathFromUrl, getStringOrUndefined.
  change ((SLASH :: marker) ++ obj ++ query)
    with (SLASH :: (marker ++ obj ++ query)).
  rewrite (trim_keeps SLASH) by reflexivity.
  change (hasScheme (SLASH :: marker ++ obj ++ query)) with false. cbv iota.
  change (SLASH :: (marker ++ obj ++ query))
    with ((SLASH :: marker) ++ obj ++ query).
  rewrite app_assoc, beforeQuery_cut; [|  | assumption].
  - rewrite afterFirst_prefix. reflexivity.
  - intros Hin. apply in_app_or in Hin. tauto.
Qed.

(** X10.  When the marker occurs nowhere in the path of the url, a url made
    of the base url and a rest is read back as the rest without its leading
    separators and without its query string, decoded when it can be; it is
    [null] when nothing is left.  The url that [upload] makes with a base
    url, the base url, a separator and the object path, is of this form. *)
Theorem extractObjectPathFromUrl_baseUrl (P : Platform)
  (marker base rest : jsstring) :
  truthy (trim base) = true ->
  includes (beforeQuery (base ++ rest)) marker = false ->
  (forall p,
     urlPathname P (base ++ rest) = Ok p -> includes p marker = false) ->
  extractObjectPathFromUrl P (Some (base ++ rest)) marker (Some base)
  = if falsy (beforeQuery (dropWhile NodePath.isSlash rest)) then None
    else Some (decodeOrRaw P (beforeQuery (dropWhile NodePath.isSlash rest))).
Proof.
  intros Hb Hraw Hurl.
  pose proof (trim_truthy_app base rest Hb) as Ht.
  unfold extractObjectPathFromUrl, getStringOrUndefined. rewrite Ht, Hb.
  assert (afterFirst
            (if hasScheme (base ++ rest)
             then match urlPathname P (base ++ rest) with
                  | Ok p => p
                  | Throw _ => beforeQuery (base ++ rest)
                  end
             else beforeQuery (base ++ rest)) marker = None) as ->.
  { apply afterFirst_none. destruct (hasScheme (base ++ rest)); [|exact Hraw].
    destruct (urlPathname P (base ++ rest)) eqn:E; [|exact Hraw].
    apply Hurl. reflexivity. }
  rewrite startsWith_app.
  rewrite skipn_app, skipn_all, Nat.sub_diag. reflexivity.
Qed.

End StringUtils.

(* ------------------------------------------------------------------ *)
(** ** Signed urls *)

Section SignedUrls.
Import Provider SignedUrl Props GateProps.

Lemma encodeSextet_alphabet (n : N) :
  isBase64UrlUnit (Buffer.encodeSextet n) = true.
Proof.
  destruct (N.lt_ge_cases n 64) as [Hlt | Hge].
  - exact (below_64 (fun n => isBase64UrlUnit (Buffer.encodeSextet n))
             eq_refl n Hlt).
  - unfold Buffer.encodeSextet.
    destruct (N.ltb_spec n 26); [lia|].
    destruct (N.ltb_spec n 52); [lia|].
    destruct (N.ltb_spec n 62); [lia|].
    destruct (N.eqb_spec n 62); [lia|]. reflexivity.
Qed.

Lemma toBase64Url_alphabet_bounded (n : nat) (bs : list N) :
  (List.length bs <= n)%nat ->
  Forall (fun c => isBase64UrlUnit c = true) (Buffer.toBase64Url bs).
Proof.
  revert bs; induction n as [|n IH]; intros bs Hlen.
  - destruct bs; [constructor | simpl in Hlen; lia].
  - destruct bs as [|b0 [|b1 [|b2 rest]]]; cbn [Buffer.toBase64Url];
      repeat (constructor; [apply encodeSextet_alphabet|]);
      try constructor.
    apply IH. simpl in Hlen. lia.
Qed.

(** Every token is made of units of the base64url alphabet. *)
Lemma toBase64Url_alphabet (bs : list N) :
  Forall (fun c => isBase64UrlUnit c = true) (Buffer.toBase64Url bs).
Proof. apply toBase64Url_alphabet_bounded with (n := List.length bs); lia. Qed.

Lemma toBase64Url_length_32 (bs : list N) :
  List.length bs = 32%nat -> List.length (Buffer.toBase64Url bs) = 43%nat.
Proof.
  intros H.
  do 33 (destruct bs as [|? bs]; [try discriminate H|]);
    [reflexivity | discriminate H].
Qed.

Lemma base64UrlUnit_unreserved (c : codeunit) :
  isBase64UrlUnit c = true -> Uri.isUnreserved c = true.
Proof.
  unfold isBase64UrlUnit, Uri.isUnreserved. intros H.
  apply orb_true_iff in H. destruct H as [H | H].
  - apply orb_true_iff in H. destruct H as [H | H].
    + rewrite H. reflexivity.
    + apply N.eqb_eq in H. subst. reflexivity.
  - apply N.eqb_eq in H. subst. reflexivity.
Qed.

Lemma encode_unreserved (s : jsstring) :
  Forall (fun c => Uri.isUnreserved c = true) s ->
  Uri.encodeURIComponent s = Ok s.
Proof.
  induction 1 as [|c s Hc _ IH]; [reflexivity|].
  cbn [Uri.encodeURIComponent]. rewrite Hc, IH. reflexivity.
Qed.

Lemma encode_token (P : Platform) (secret requestPath : jsstring)
  (expiresAt : Z) :
  Uri.encodeURIComponent (signPrivateUrl P secret requestPath expiresAt)
  = Ok (signPrivateUrl P secret requestPath expiresAt).
Proof.
  apply encode_unreserved. unfold signPrivateUrl.
  eapply Forall_impl; [|apply toBase64Url_alphabet].
  apply base64UrlUnit_unreserved.
Qed.

(** X11.  A token that [signPrivateUrl] makes holds letters, digits,
    hyphens and underscores only, whatever the secret, the path and the
    expiry are, so that [encodeURIComponent] leaves it as it is; with a
    digest of 32 bytes it has 43 units, and it never is the empty string. *)
Theorem signPrivateUrl_token_shape (P : Platform)
  (secret requestPath : jsstring) (expiresAt : Z) :
  Forall (fun c => isBase64UrlUnit c = true)
    (signPrivateUrl P secret requestPath expiresAt) /\
  Uri.encodeURIComponent (signPrivateUrl P secret requestPath expiresAt)
  = Ok (signPrivateUrl P secret requestPath expiresAt) /\
  (hmacIsDigest P ->
   List.length (signPrivateUrl P secret requestPath expiresAt) = 43%nat).
Proof.
  split; [apply toBase64Url_alphabet|]. split; [apply encode_token|].
  intros Hd. apply toBase64Url_length_32. apply Hd.
Qed.

(** *** Numbers as decimal strings *)

Lemma beforeQuery_no_query (s : jsstring) : ~ In 63 (Url.beforeQuery s).
Proof.
  unfold Url.beforeQuery. pose proof (split_no_sep 63 s) as H.
  destruct (split 63 s) as [|h t]; [intros []|].
  inversion H; subst. assumption.
Qed.

Lemma ttl_at_least_one (ttl : option TtlOption) (t : Z) :
  privateTTLOf ttl = Some t -> (1 <= t)%Z.
Proof.
  destruct ttl as [[f| | |]|]; cbn; intros H; inversion H; subst; lia.
Qed.

Lemma ttl_window (t nowMs : Z) :
  (1 <= t)%Z ->
  (nowMs < (nowMs / 1000 + t) * 1000 <= nowMs + t * 1000)%Z.
Proof.
  intros Ht.
  pose proof (Z.div_mod nowMs 1000 ltac:(lia)).
  pose proof (Z.mod_pos_bound nowMs 1000 ltac:(lia)).
  lia.
Qed.

(** X12.  With private mode on and a secret, for a file whose url, cut
    before its query string, does not start with [http], at a time at or
    after the epoch, with a lifetime that is finite and an expiry that
    JavaScript holds exactly: [getSignedUrl] returns that url followed by
    [?token=], the token signed for it and for the expiry, [&expires=] and
    the expiry in decimal, where the expiry is the current second plus the
    lifetime.  The lifetime is at least one second, so the expiry lies
    ahead of the time of signing, by the lifetime at most.  A request for
    that path that presents this token and this expiry, and no valid bearer
    credential, is served by the gate as long as the time is before the
    expiry, and answered 403 from then on. *)
Theorem getSignedUrl_accepted (P : Platform) (c : Config)
  (ttl : option TtlOption) (privateTTL nowMs : Z) (file : File)
  (raw : jsstring) :
  hmacIsDigest P ->
  privateEnable c = true -> privateSecretOf c <> [] ->
  url file = Some raw -> raw <> [] ->
  startsWith (Url.beforeQuery raw) (str "http") = false ->
  privateTTLOf ttl = Some privateTTL ->
  (0 <= nowMs)%Z ->
  exactSeconds (nowMs / 1000 + privateTTL) ->
  let path := Url.beforeQuery raw in
  let expiresAt := (nowMs / 1000 + privateTTL)%Z in
  let token := signPrivateUrl P (privateSecretOf c) path expiresAt in
  getSignedUrl P c privateTTL nowMs file
  = Ok (path ++ str "?token=" ++ token ++ str "&expires="
        ++ numberToString expiresAt) /\
  (nowMs < expiresAt * 1000 <= nowMs + privateTTL * 1000)%Z /\
  (forall e r absPath,
     reqPath r = path ->
     queryToken r = Some token ->
     queryExpires r = Some (numberToString expiresAt) ->
     namesPrivateFile P c e r absPath ->
     bearerAllows P e r = false ->
     gate P c e r =
       if (now e <? expiresAt * 1000)%Z
       then Serve absPath (NodePath.extname absPath)
       else Status 403).
Proof.
  intros Hd Hen Hs Hurl Hraw Hhttp Httl _ _. cbv zeta. split; [|split].
  - unfold getSignedUrl. rewrite Hurl, Hen, Hhttp.
    assert (falsy (privateSecretOf c) = false) as ->
      by (destruct (privateSecretOf c); [congruence | reflexivity]).
    assert (falsy raw = false) as ->
      by (destruct raw; [congruence | reflexivity]).
    simpl orb. cbv iota. rewrite encode_token. reflexivity.
  - apply ttl_window. exact (ttl_at_least_one ttl privateTTL Httl).
  - intros e r absPath Hp Ht He Hn Hb.
    rewrite (gate_on_private_file P c e r absPath Hn), Hb.
    assert (truthy (privateSecretOf c) = true) as ->
      by (destruct (privateSecretOf c); [congruence | reflexivity]).
    simpl negb. simpl andb. cbv iota.
    rewrite (hmacAllows_signed P c e r
               (nowMs / 1000 + privateTTL)%Z Hd Hs).
    + destruct (now e <? _)%Z; reflexivity.
    + exists (numberToString (nowMs / 1000 + privateTTL)%Z).
      split; [exact He|]. split; [apply parseInt10_numberToString|].
      rewrite Ht, Hp. reflexivity.
Qed.

(** X13.  Signing again the url that [getSignedUrl] returned, at the same
    time, gives the same url: the query string of a signed url is replaced,
    not added to.  With private mode off or without a secret the url of the
    file is returned as it is. *)
Theorem getSignedUrl_resign (P : Platform) (c : Config) (privateTTL : Z)
  (nowMs : Z) (file : File) (u : jsstring) :
  getSignedUrl P c privateTTL nowMs file = Ok u ->
  (forall file',
     url file' = Some u -> getSignedUrl P c privateTTL nowMs file' = Ok u) /\
  (privateEnable c = false \/ privateSecretOf c = [] ->
   u = orEmpty (url file)).
Proof.
  unfold orEmpty. intros H.
  assert (forall f, getSignedUrl P c privateTTL nowMs f =
            let raw := match url f with Some u0 => u0 | None => [] end in
            if negb (privateEnable c) then Ok raw
            else if falsy (privateSecretOf c) then Ok raw
            else if falsy raw then Ok raw
            else
              match (if startsWith (Url.beforeQuery raw) (str "http")
                     then urlPathname P (Url.beforeQuery raw)
                     else Ok (Url.beforeQuery raw)) with
              | Throw x => Throw x
              | Ok requestPath =>
                  Ok (Url.beforeQuery raw ++ str "?token="
                      ++ signPrivateUrl P (privateSecretOf c) requestPath
                           (nowMs / 1000 + privateTTL)
                      ++ str "&expires="
                      ++ numberToString (nowMs / 1000 + privateTTL))
              end) as Hdef.
  { intros f. unfold getSignedUrl. cbv zeta.
    destruct (negb (privateEnable c)); [reflexivity|].
    destruct (falsy (privateSecretOf c)); [reflexivity|].
    destruct (falsy _); [reflexivity|]. simpl orb. cbv iota.
    destruct (if startsWith _ _ then _ else _); [|reflexivity].
    rewrite encode_token. reflexivity. }
  rewrite Hdef in H. cbv zeta in H.
  set (raw := match url file with Some u0 => u0 | None => [] end) in *.
  split.
  - intros file' Hf. rewrite Hdef, Hf. cbv beta iota zeta.
    destruct (negb (privateEnable c)); [congruence|].
    destruct (falsy (privateSecretOf c)); [congruence|].
    destruct (falsy raw) eqn:Hraw.
    + injection H as <-. rewrite Hraw. reflexivity.
    + destruct (if startsWith (Url.beforeQuery raw) (str "http")
                then urlPathname P (Url.beforeQuery raw)
                else Ok (Url.beforeQuery raw)) as [requestPath|x] eqn:Hreq;
        [|discriminate].
      remember (str "?token="
                ++ signPrivateUrl P (privateSecretOf c) requestPath
                     (nowMs / 1000 + privateTTL)
                ++ str "&expires="
                ++ numberToString (nowMs / 1000 + privateTTL)) as tail eqn:Et.
      assert (startsWith tail [63] = true) as Htail
        by (rewrite Et; reflexivity).
      assert (u = Url.beforeQuery raw ++ tail) as -> by congruence.
      assert (falsy (Url.beforeQuery raw ++ tail) = false) as ->.
      { destruct tail; [discriminate|].
        destruct (Url.beforeQuery raw); reflexivity. }
      rewrite (beforeQuery_cut (Url.beforeQuery raw));
        [|apply beforeQuery_no_query | right; exact Htail].
      rewrite Hreq, <- Et. reflexivity.
  - intros [Hoff | Hoff]; rewrite Hoff in H.
    + simpl in H. congruence.
    + destruct (negb (privateEnable c)); simpl in H; congruence.
Qed.

End SignedUrls.

(* ------------------------------------------------------------------ *)
(** ** What the gate serves *)

Section GateFacts.
Import Provider Props GateProps.

(** The uploads root is a resolved path. *)
Lemma uploadPath_resolved (P : Platform) (c : Config) :
  cwdAbsolute P -> NodePath.resolve P [uploadPath P c] = uploadPath P c.
Proof.
  intros Hcwd. destruct (uploadPath_form P c Hcwd) as (segs & Hsegs & E).
  apply (resolve_resolved P (segs ++ [str "uploads"])); [|exact E].
  apply Forall_app. split; [assumption|]. constructor; [|constructor].
  repeat split; try discriminate.
  intros Hin; vm_compute in Hin; intuition discriminate.
Qed.

Lemma upload_inside (P : Platform) (c : Config) (rel abs : jsstring) :
  cwdAbsolute P ->
  PathUtils.safeResolveUnderRoot P (uploadPath P c) rel = Some abs ->
  strictlyInside (uploadPath P c) abs.
Proof.
  intros Hcwd H. apply (safeResolve_inside P _ _ _ Hcwd) in H.
  rewrite (uploadPath_resolved P c Hcwd) in H. exact H.
Qed.







Lemma namesPrivateFile_unique (P : Platform) (c : Config) (e : GateEnv)
  (r : Request) (a b : jsstring) :
  namesPrivateFile P c e r a -> namesPrivateFile P c e r b -> a = b.
Proof. intros (_ & _ & Ha & _) (_ & _ & Hb & _). congruence. Qed.



Lemma startsWith_skipn (s p : jsstring) :
  startsWith s p = true -> s = p ++ skipn (List.length p) s.
Proof.
  revert s; induction p as [|x p IH]; intros s H; [reflexivity|].
  destruct s as [|y s]; [discriminate|]. cbn [startsWith] in H.
  apply andb_true_iff in H. destruct H as [Hx Hp].
  apply N.eqb_eq in Hx. subst y. cbn [app List.length skipn].
  f_equal. apply IH. exact Hp.
Qed.

(** X16.  The document id that the gate compares with the user's is the
    second of the segments that the name of the private folder and the
    rest of the request path have together.  When the folder name is one
    segment, as by default, it is the first segment after the folder.  When
    the folder name has two segments or more, as in [secure/private], it is
    the second segment of the folder name, the same for every request:
    there the owner check compares the user's document id with a part of
    the folder name, and no part of the path after the folder enters it. *)
Theorem documentIdInPath_second_segment (c : Config) (r : Request) :
  startsWith (reqPath r) (privateUrlPrefix c) = true ->
  let folderSegments := filter truthy (split SLASH (privateFolderNorm c)) in
  let rest := skipn (List.length (privateUrlPrefix c)) (reqPath r) in
  documentIdInPath r
  = nth 1 (folderSegments ++ filter truthy (split SLASH rest)) [] /\
  (List.length folderSegments = 1%nat ->
   documentIdInPath r = hd [] (filter truthy (split SLASH rest))) /\
  ((2 <= List.length folderSegments)%nat ->
   documentIdInPath r = nth 1 folderSegments [] /\
   forall r',
     startsWith (reqPath r') (privateUrlPrefix c) = true ->
     documentIdInPath r' = documentIdInPath r).
Proof.
  intros Hp. cbv zeta.
  assert (forall q,
            startsWith (reqPath q) (privateUrlPrefix c) = true ->
            documentIdInPath q
            = nth 1 (filter truthy (split SLASH (privateFolderNorm c))
                     ++ filter truthy
                          (split SLASH
                             (skipn (List.length (privateUrlPrefix c))
                                (reqPath q)))) []) as Hall.
  { intros q Hq. unfold documentIdInPath, pathAfterUploads.
    rewrite (startsWith_skipn _ _ Hq) at 1.
    set (rest := skipn (List.length (privateUrlPrefix c)) (reqPath q)).
    unfold privateUrlPrefix.
    change ([SLASH] ++ UPLOADS_FOLDER_NAME ++ [SLASH] ++ privateFolderNorm c
            ++ [SLASH])
      with (([SLASH] ++ UPLOADS_FOLDER_NAME ++ [SLASH])
            ++ (privateFolderNorm c ++ [SLASH])).
    rewrite <- app_assoc, skipn_app, skipn_all, Nat.sub_diag.
    cbn [skipn app]. rewrite <- app_assoc. cbn [app].
    rewrite split_app, filter_app. reflexivity. }
  split; [exact (Hall r Hp)|]. split.
  - intros Hlen. rewrite (Hall r Hp).
    destruct (filter truthy (split SLASH (privateFolderNorm c)))
      as [|f [|g t]]; try discriminate Hlen.
    cbn [app nth]. destruct (filter truthy _); reflexivity.
  - intros Hlen.
    assert (forall q,
              startsWith (reqPath q) (privateUrlPrefix c) = true ->
              documentIdInPath q
              = nth 1 (filter truthy (split SLASH (privateFolderNorm c))) [])
      as Hconst.
    { intros q Hq. rewrite (Hall q Hq).
      destruct (filter truthy (split SLASH (privateFolderNorm c)))
        as [|f [|g t]]; cbn [List.length] in Hlen; try lia.
      reflexivity. }
    split; [exact (Hconst r Hp)|].
    intros r' Hr'. rewrite (Hconst r' Hr'), (Hconst r Hp). reflexivity.
Qed.

End GateFacts.

(* ------------------------------------------------------------------ *)
(** ** Where uploads go, and deleting them again *)

Section UploadFacts.
Import PathUtils Props SegmentProps UploadProps.

Lemma safe_proper (s : jsstring) :
  safeSegment s -> s <> [] -> properSegment s.
Proof.
  intros Hs Hne. pose proof (safeSegment_not_dots s Hs) as [H1 H2].
  repeat split; try assumption. apply safeSegment_no_slash; assumption.
Qed.

Lemma endsWith_snoc (s : jsstring) (c : codeunit) :
  endsWith (s ++ [c]) [c] = true.
Proof.
  unfold endsWith. rewrite rev_app_distr. simpl. rewrite N.eqb_refl.
  reflexivity.
Qed.

Lemma endsWith_last (s : jsstring) (c x : codeunit) :
  x <> c -> endsWith (s ++ [x]) [c] = false.
Proof.
  intros Hx. unfold endsWith. rewrite rev_app_distr. simpl.
  destruct (N.eqb_spec c x); [congruence | reflexivity].
Qed.

Lemma join_last_unit (l : list jsstring) (last : jsstring) :
  last <> [] -> ~ In SLASH last ->
  endsWith (join [SLASH] (l ++ [last])) [SLASH] = false /\
  join [SLASH] (l ++ [last]) <> [].
Proof.
  intros Hne Hs.
  destruct (@exists_last _ last Hne) as (pre & x & ->).
  assert (x <> SLASH) as Hx.
  { intros ->. apply Hs. apply in_or_app. right. left; reflexivity. }
  destruct l as [|p l].
  - simpl. split; [apply endsWith_last; assumption|].
    destruct pre; discriminate.
  - rewrite join_snoc by discriminate. rewrite !app_assoc. split.
    + apply endsWith_last; assumption.
    + intros E. apply app_eq_nil in E. destruct E as [_ E]. discriminate.
Qed.

(** The object path of an upload without a prefix: the segments of the
    sanitised hint, then the file name. *)
Lemma objectPath_form (P : Platform) (pre rawPath filename : jsstring) :
  pre = [] ->
  exists segs,
    Forall (fun s => safeSegment s /\ s <> []) segs /\
    Provider.join
      [pre; if truthy rawPath then sanitizePathDir P rawPath else [];
       filename]
    = join [SLASH] (segs ++ [filename]).
Proof.
  intros ->.
  assert (exists segs last,
            Forall (fun s => safeSegment s /\ s <> []) segs /\
            safeSegment last /\
            (if truthy rawPath then sanitizePathDir P rawPath else [])
            = join [SLASH] (segs ++ [last])) as (segs & last & Hs & Hl & ->).
  { destruct (truthy rawPath); [apply sanitizePathDir_segments|].
    exists [], []. split; [constructor|]. split;
      [apply safeSegment_nil | reflexivity]. }
  cbn [Provider.join]. change (eqs [] []) with true.
  rewrite orb_true_r. cbv iota. cbn [app].
  destruct last as [|x last].
  - destruct segs as [|s segs].
    + exists []. split; [constructor | reflexivity].
    + exists (s :: segs). split; [assumption|].
      rewrite join_snoc by discriminate. rewrite app_nil_r.
      rewrite endsWith_snoc. cbn [orb].
      rewrite join_snoc by discriminate. rewrite <- app_assoc. reflexivity.
  - exists (segs ++ [x :: last]). split.
    + apply Forall_app. split; [assumption|].
      constructor; [|constructor]. split; [assumption | discriminate].
    + assert (x :: last <> []) as Hxl by (intros E; discriminate E).
      pose proof (join_last_unit segs (x :: last) Hxl
                    (safeSegment_no_slash _ Hl)) as [He Hne].
      rewrite He. apply eqs_neq in Hne. rewrite Hne. cbn [orb].
      rewrite (join_snoc [SLASH] (segs ++ [x :: last]) filename)
        by (intros E; apply app_eq_nil in E; destruct E; discriminate).
      rewrite <- app_assoc. reflexivity.
Qed.

(** *** Frames of the disk operations *)

Lemma lookup_app (d e : Fs.fs) (q : jsstring) :
  Fs.lookup (d ++ e) q
  = match Fs.lookup d q with
    | Some n => Some n
    | None => Fs.lookup e q
    end.
Proof.
  induction d as [|[k n] d IH]; simpl; [reflexivity|].
  destruct (eqs k q); [reflexivity | exact IH].
Qed.

Lemma keptOrMade_refl (d : Fs.fs) (p : jsstring) : keptOrMade d d p.
Proof. left; reflexivity. Qed.

Lemma keptOrMade_trans (d1 d2 d3 : Fs.fs) (p : jsstring) :
  keptOrMade d1 d2 p -> keptOrMade d2 d3 p -> keptOrMade d1 d3 p.
Proof.
  unfold keptOrMade. intros [H1 | [H1 H1']] [H2 | [H2 H2']].
  - left; congruence.
  - right; split; congruence.
  - right; split; congruence.
  - congruence.
Qed.

Lemma keptOrMade_mkdir (d : Fs.fs) (p q : jsstring) :
  Fs.lookup d p = None -> keptOrMade d (d ++ [(p, Fs.Dir)]) q.
Proof.
  intros Hp. unfold keptOrMade. rewrite lookup_app.
  destruct (Fs.lookup d q) eqn:Hq; [left; reflexivity|].
  simpl. destruct (eqs p q); [right; split; reflexivity | left; reflexivity].
Qed.

Lemma ensureDir_frame (fuel : nat) (d d' : Fs.fs) (p q : jsstring) :
  Fs.ensureDir fuel d p = Ok d' -> keptOrMade d d' q.
Proof.
  revert d' p; induction fuel as [|fuel IH]; intros d' p; simpl.
  - destruct (Fs.lookup d p) as [[?|]|]; try discriminate.
    intros H; injection H as <-. apply keptOrMade_refl.
  - destruct (Fs.lookup d p) as [[?|]|] eqn:Hp; try discriminate.
    + intros H; injection H as <-. apply keptOrMade_refl.
    + destruct (eqs (NodePath.dirname p) p).
      * intros H; injection H as <-. apply keptOrMade_mkdir; assumption.
      * destruct (Fs.ensureDir fuel d (NodePath.dirname p)) as [d1|] eqn:E;
          [|discriminate].
        intros H; injection H as <-.
        pose proof (IH d1 _ E) as H1.
        unfold keptOrMade in *. rewrite lookup_app.
        destruct (Fs.lookup d1 q) eqn:Hq1.
        -- exact H1.
        -- simpl. destruct (eqs p q) eqn:Epq.
           ++ right. split; [|reflexivity].
              destruct H1 as [H1 | [_ H1]]; congruence.
           ++ destruct H1 as [H1 | [_ H1]]; [left | ]; congruence.
Qed.

Lemma lookup_replace_other (d : Fs.fs) (p q : jsstring) (n : Fs.node) :
  q <> p ->
  Fs.lookup (map (fun e => if eqs (fst e) p then (p, n) else e) d) q
  = Fs.lookup d q.
Proof.
  intros Hq. induction d as [|[k m] d IH]; simpl; [reflexivity|].
  destruct (eqs k p) eqn:E; simpl.
  - apply eqs_spec in E. subst k.
    assert (eqs p q = false) as -> by (apply eqs_neq; congruence).
    exact IH.
  - destruct (eqs k q); [reflexivity | exact IH].
Qed.

Lemma writeFile_frame (d d' : Fs.fs) (p q : jsstring) (data : list N) :
  Fs.writeFile d p data = Ok d' -> q <> p -> Fs.lookup d' q = Fs.lookup d q.
Proof.
  unfold Fs.writeFile.
  destruct (Fs.lookup d (NodePath.dirname p)) as [[?|]|]; try discriminate.
  destruct (Fs.lookup d p) as [[?|]|] eqn:E; try discriminate;
    intros H Hq; injection H as <-.
  - apply lookup_replace_other; assumption.
  - rewrite lookup_app. destruct (Fs.lookup d q); [reflexivity|].
    simpl. assert (eqs p q = false) as -> by (apply eqs_neq; congruence).
    reflexivity.
Qed.

(** Where [path.join] puts the object of an upload. *)
Lemma stored_location (P : Platform) (c : Provider.Config)
  (segs : list jsstring) :
  cwdAbsolute P -> Forall properSegment segs -> segs <> [] ->
  NodePath.join [Provider.uploadPath P c; join NodePath.sep segs]
  = Provider.uploadPath P c ++ NodePath.sep ++ join NodePath.sep segs /\
  safeResolveUnderRoot P (Provider.uploadPath P c) (join NodePath.sep segs)
  = Some (Provider.uploadPath P c ++ NodePath.sep ++ join NodePath.sep segs).
Proof.
  intros Hcwd Hs Hne.
  destruct (uploadPath_form P c Hcwd) as (U & HU & E). rewrite E.
  assert (Forall properSegment (U ++ [str "uploads"])) as HU'.
  { apply Forall_app. split; [assumption|]. constructor; [|constructor].
    repeat split; try discriminate.
    intros Hin; vm_compute in Hin; intuition discriminate. }
  assert (U ++ [str "uploads"] <> []) as HUne by (destruct U; discriminate).
  split.
  - apply nodeJoin_under; assumption.
  - apply safeResolve_proper; assumption.
Qed.

(** [upload], step by step, over the name and the url defined above. *)
Lemma upload_steps (P : Platform) (c : Provider.Config) (uuid : jsstring)
  (file : Provider.File) (d : Fs.fs) :
  Provider.upload P c uuid file d =
    let rawPath := match Provider.path file with Some p => p | None => [] end in
    let dynamicPath :=
      if truthy rawPath then sanitizePathDir P rawPath else [] in
    if Provider.strictPathDir c && truthy rawPath && falsy dynamicPath
    then Throw (Error (str "Invalid file.path (sanitizes to empty)"))
    else
      let objectPath :=
        Provider.join [Provider.prefixOf c; dynamicPath;
                       storedName c uuid file] in
      let stored := NodePath.join [Provider.uploadPath P c; objectPath] in
      match Fs.ensureDir (S (List.length (NodePath.dirname stored))) d
              (NodePath.dirname stored) with
      | Throw x => Throw x
      | Ok d1 =>
          match Provider.content file with
          | None =>
              Throw (Error (str "File must have either stream or buffer"))
          | Some bytes =>
              match Fs.writeFile d1 stored bytes with
              | Throw x => Throw x
              | Ok d2 => Ok (urlOf c objectPath, d2)
              end
          end
      end.
Proof. reflexivity. Qed.

(** X17.  With an absolute working directory and no prefix, when the name
    the file is stored under is a proper segment, the path hint decides
    nothing but a chain of directories inside the uploads root: whatever
    [file.path] holds, a successful [upload] writes the payload to the
    uploads root followed by the segments of the sanitised hint and the
    name, a path strictly inside the root; the url it returns is made from
    the same object path; and on the disk every other path holds what it
    held before, or a directory made for the file where there was
    nothing. *)
Theorem upload_confined (P : Platform) (c : Provider.Config)
  (uuid : jsstring) (file : Provider.File) (d : Fs.fs) :
  cwdAbsolute P ->
  Provider.prefixOf c = [] ->
  properSegment (storedName c uuid file) ->
  exists segs,
    Forall (fun s => safeSegment s /\ s <> []) segs /\
    let objectPath := join NodePath.sep (segs ++ [storedName c uuid file]) in
    let stored := Provider.uploadPath P c ++ NodePath.sep ++ objectPath in
    strictlyInside (Provider.uploadPath P c) stored /\
    forall u d',
      Provider.upload P c uuid file d = Ok (u, d') ->
      u = urlOf c objectPath /\
      (exists bytes,
         Provider.content file = Some bytes /\
         Fs.lookup d' stored = Some (Fs.File bytes)) /\
      forall p, p <> stored -> keptOrMade d d' p.
Proof.
  intros Hcwd Hpre Hname.
  set (rawPath := match Provider.path file with Some p => p | None => [] end).
  destruct (objectPath_form P (Provider.prefixOf c) rawPath
              (storedName c uuid file) Hpre) as (segs & Hsegs & Hobj).
  change [SLASH] with NodePath.sep in Hobj.
  exists segs. split; [assumption|]. cbv zeta.
  assert (Forall properSegment (segs ++ [storedName c uuid file])) as Hall.
  { apply Forall_app. split; [|constructor; [assumption | constructor]].
    eapply Forall_impl; [|exact Hsegs]. intros s [Hs Hne].
    apply safe_proper; assumption. }
  assert (segs ++ [storedName c uuid file] <> []) as Hne
    by (destruct segs; discriminate).
  destruct (stored_location P c _ Hcwd Hall Hne) as [Hloc _].
  split.
  - exists (segs ++ [storedName c uuid file]).
    split; [assumption|]. split; [assumption | reflexivity].
  - intros u d'. rewrite upload_steps. cbv zeta. fold rawPath.
    destruct (Provider.strictPathDir c && truthy rawPath
              && falsy (if truthy rawPath then sanitizePathDir P rawPath
                        else [])); [discriminate|].
    rewrite Hobj, Hloc.
    destruct (Fs.ensureDir _ d _) as [d1|] eqn:He; [|discriminate].
    destruct (Provider.content file) as [bytes|]; [|discriminate].
    destruct (Fs.writeFile d1 _ bytes) as [d2|] eqn:Hw; [|discriminate].
    intros H. injection H as <- <-. split; [reflexivity|]. split.
    + exists bytes. split; [reflexivity|].
      eapply writeFile_lookup; eassumption.
    + intros p Hp. eapply keptOrMade_trans.
      * eapply ensureDir_frame; eassumption.
      * left. eapply writeFile_frame; eassumption.
Qed.

(** *** What [delete] touches *)

Lemma firstDirectHit_resolved (P : Platform) (c : Provider.Config)
  (d : Fs.fs) (l : list jsstring) (abs : jsstring) :
  Provider.firstDirectHit P c d l = Some abs ->
  exists rel, safeResolveUnderRoot P (Provider.uploadPath P c) rel = Some abs.
Proof.
  unfold Provider.firstDirectHit. intros H. apply hd_flat_map in H.
  destruct H as (o & _ & Hin). unfold Provider.directHit in Hin.
  destruct (falsy _); [destruct Hin|].
  destruct (safeResolveUnderRoot _ _ _) as [a|] eqn:E; [|destruct Hin].
  destruct (Fs.existsSync d a); [|destruct Hin].
  destruct Hin as [<- | []]. eauto.
Qed.

Lemma firstScanHit_resolved (P : Platform) (c : Provider.Config)
  (d : Fs.fs) (file : Provider.File) (abs : jsstring) :
  Provider.firstScanHit P c d file = Some abs ->
  exists rel, safeResolveUnderRoot P (Provider.uploadPath P c) rel = Some abs.
Proof.
  unfold Provider.firstScanHit. intros H. apply hd_flat_map in H.
  destruct H as (dir & _ & Hin). unfold Provider.scanDir in Hin.
  destruct (Fs.readdir d dir) as [entries|]; [|destruct Hin].
  apply in_flat_map in Hin. destruct Hin as (entry & _ & Hin).
  destruct (Provider.filenameMatches _ _ _ _); [|destruct Hin].
  destruct (safeResolveUnderRoot _ _ _) as [a|] eqn:E; [|destruct Hin].
  destruct (Fs.existsSync d a); [|destruct Hin].
  destruct Hin as [<- | []]. eauto.
Qed.

(** What the shared tail of [delete] does with a hit under the root. *)
Lemma removeHit_safe (P : Platform) (c : Provider.Config) (DB : Type)
  (S0 : Provider.Strapi DB) (fuel : nat) (file : Provider.File) (d : Fs.fs)
  (db : DB) (abs : jsstring) (r : Provider.Deleted DB) :
  cwdAbsolute P ->
  Provider.removeHit P c S0 fuel file d db abs = Some r ->
  (Provider.outcome _ r = Ok None /\
   (exists bytes, Fs.lookup d abs = Some (Fs.File bytes)) /\
   Fs.lookup (Provider.diskAfter _ r) abs = None /\
   (forall p, p <> abs ->
      keptOrCleaned (Provider.uploadPath P c) d (Provider.diskAfter _ r) p) /\
   (Provider.cleanupEmptyDirs c = false ->
    Provider.diskAfter _ r = Fs.remove d abs)) \/
  (Provider.outcome _ r = Throw IOError /\
   Provider.diskAfter _ r = d /\ Provider.dbAfter _ r = db /\
   Provider.foldersRequested _ r = []).
Proof.
  intros Hcwd. unfold Provider.removeHit, Fs.unlink.
  destruct (Fs.lookup d abs) as [[bytes|]|] eqn:Hl.
  2,3: intros H; injection H as <-; right; repeat split; reflexivity.
  destruct (Provider.ended _); [|discriminate].
  intros H; injection H as <-. left. cbn [Provider.outcome Provider.diskAfter].
  split; [reflexivity|]. split; [eauto|].
  assert (Fs.lookup (Fs.remove d abs) abs = None) as Hgone
    by (rewrite lookup_remove, eqs_refl; reflexivity).
  assert (forall p, p <> abs ->
            Fs.lookup (Fs.remove d abs) p = Fs.lookup d p) as Hother.
  { intros p Hp. rewrite lookup_remove.
    assert (eqs abs p = false) as -> by (apply eqs_neq; congruence).
    reflexivity. }
  destruct (Provider.cleanupEmptyDirs c).
  - unfold cleanupEmptyDirs. rewrite (uploadPath_resolved P c Hcwd).
    split; [apply lookup_not_created; assumption|]. split; [|discriminate].
    intros p Hp. unfold keptOrCleaned.
    destruct (proj2 (cleanupLoop_safe (S (List.length abs))
                       (Provider.uploadPath P c) (Fs.remove d abs)
                       (NodePath.dirname abs) p))
      as [E | (E1 & E2 & E3 & _)].
    + left. rewrite E. apply Hother; assumption.
    + right. rewrite <- (Hother p Hp). repeat split; assumption.
  - split; [assumption|]. split; [|reflexivity].
    intros p Hp. left. apply Hother; assumption.
Qed.

(** X18.  With an absolute working directory, whatever the descriptor, the
    disk and the database hold: when [delete] resolves without a value it
    has removed one regular file, at a path strictly inside the uploads
    root; every other path holds what it held, or, with [cleanupEmptyDirs]
    on, nothing where it held a directory under the root.  On every other
    outcome, [File doesn't exist] or the rejection of [unlink], the disk and
    the database are as they were and no folder deletion was requested. *)
Theorem delete_safe (P : Platform) (c : Provider.Config) (DB : Type)
  (S0 : Provider.Strapi DB) (fuel : nat) (file : Provider.File) (d : Fs.fs)
  (db : DB) (r : Provider.Deleted DB) :
  cwdAbsolute P ->
  Provider.delete P c S0 fuel file d db = Some r ->
  (Provider.outcome _ r = Ok None /\
   exists abs,
     strictlyInside (Provider.uploadPath P c) abs /\
     (exists bytes, Fs.lookup d abs = Some (Fs.File bytes)) /\
     Fs.lookup (Provider.diskAfter _ r) abs = None /\
     (forall p, p <> abs ->
        keptOrCleaned (Provider.uploadPath P c) d (Provider.diskAfter _ r) p) /\
     (Provider.cleanupEmptyDirs c = false ->
      Provider.diskAfter _ r = Fs.remove d abs)) \/
  ((Provider.outcome _ r = Ok (Some Provider.notFoundMessage) \/
    Provider.outcome _ r = Throw IOError) /\
   Provider.diskAfter _ r = d /\ Provider.dbAfter _ r = db /\
   Provider.foldersRequested _ r = []).
Proof.
  intros Hcwd. unfold Provider.delete.
  assert (forall abs,
            (exists rel, safeResolveUnderRoot P (Provider.uploadPath P c) rel
                         = Some abs) ->
            Provider.removeHit P c S0 fuel file d db abs = Some r ->
            (Provider.outcome _ r = Ok None /\
             exists abs,
               strictlyInside (Provider.uploadPath P c) abs /\
               (exists bytes, Fs.lookup d abs = Some (Fs.File bytes)) /\
               Fs.lookup (Provider.diskAfter _ r) abs = None /\
               (forall p, p <> abs ->
                  keptOrCleaned (Provider.uploadPath P c) d
                    (Provider.diskAfter _ r) p) /\
               (Provider.cleanupEmptyDirs c = false ->
                Provider.diskAfter _ r = Fs.remove d abs)) \/
            ((Provider.outcome _ r = Ok (Some Provider.notFoundMessage) \/
              Provider.outcome _ r = Throw IOError) /\
             Provider.diskAfter _ r = d /\ Provider.dbAfter _ r = db /\
             Provider.foldersRequested _ r = [])) as Hhit.
  { intros abs [rel Hrel] H.
    destruct (removeHit_safe P c DB S0 fuel file d db abs r Hcwd H)
      as [(H1 & H2 & H3 & H4 & H5) | (H1 & H2)].
    - left. split; [assumption|]. exists abs.
      split; [eapply upload_inside; eassumption|]. repeat split; assumption.
    - right. split; [right; assumption | assumption]. }
  destruct (Provider.firstDirectHit P c d _) as [abs|] eqn:Hd.
  - apply Hhit. eapply firstDirectHit_resolved; eassumption.
  - destruct (Provider.firstScanHit P c d file) as [abs|] eqn:Hs.
    + apply Hhit. eapply firstScanHit_resolved; eassumption.
    + intros H; injection H as <-. right.
      split; [left; reflexivity|]. repeat split.
Qed.

(** *** Deleting what was uploaded *)

Lemma setAdd_hd (x h : jsstring) (l : list jsstring) :
  hd_error l = Some h -> hd_error (Provider.setAdd x l) = Some h.
Proof.
  unfold Provider.setAdd. destruct (existsb (eqs x) l); [auto|].
  destruct l; [discriminate | auto].
Qed.

Lemma setAddTruthy_hd (x : option jsstring) (h : jsstring)
  (l : list jsstring) :
  hd_error l = Some h -> hd_error (Provider.setAddTruthy x l) = Some h.
Proof.
  unfold Provider.setAddTruthy. destruct x as [s|]; [|auto].
  destruct (truthy s); [apply setAdd_hd | auto].
Qed.

Lemma fold_left_hd (f : list jsstring -> jsstring -> list jsstring)
  (l : list jsstring) (acc : list jsstring) (h : jsstring) :
  (forall a x, hd_error a = Some h -> hd_error (f a x) = Some h) ->
  hd_error acc = Some h -> hd_error (fold_left f l acc) = Some h.
Proof.
  intros Hf. revert acc; induction l as [|x l IH]; intros acc Hacc;
    [exact Hacc|].
  simpl. apply IH. apply Hf. exact Hacc.
Qed.

Lemma dotted_truthy (e : jsstring) :
  startsWith e [DOT] = true -> truthy (trim e) = true /\ truthy e = true.
Proof.
  destruct e as [|x e]; [discriminate|]. cbn [startsWith].
  rewrite andb_true_r. intros H. apply N.eqb_eq in H. subst x.
  split; [apply trim_keeps; reflexivity | reflexivity].
Qed.

(** The extension of the descriptor is the first candidate. *)
Lemma extCandidates_hd (P : Platform) (c : Provider.Config)
  (file : Provider.File) (e : jsstring) :
  Provider.ext file = Some e -> startsWith e [DOT] = true ->
  hd_error (Provider.extCandidates P c file) = Some e.
Proof.
  intros He Hdot. destruct (dotted_truthy e Hdot) as [Ht Hne].
  unfold Provider.extCandidates. cbv zeta.
  assert (hd_error (Provider.setAddTruthy
                      (Mime.normalizeExt (Provider.ext file)) []) = Some e)
    as H0.
  { rewrite He. unfold Mime.normalizeExt, Strings.getStringOrUndefined.
    rewrite Ht, Hdot. unfold Provider.setAddTruthy. rewrite Hne.
    reflexivity. }
  match goal with
  | |- hd_error (match ?s with [] => _ | _ => _ end) = _ =>
      remember s as S eqn:ES
  end.
  assert (hd_error S = Some e) as Hs
    by (rewrite ES; do 4 apply setAddTruthy_hd; exact H0).
  destruct S; [discriminate | exact Hs].
Qed.

(** The first candidate of [delete] is the object path of [upload]. *)
Lemma objectPaths_hd (P : Platform) (c : Provider.Config)
  (file : Provider.File) (e name : jsstring) :
  Provider.ext file = Some e -> startsWith e [DOT] = true ->
  name = Provider.hash file ++ e ->
  hd_error (Provider.objectPaths P c file)
  = Some (Provider.join
            [Provider.prefixOf c;
             if truthy (Provider.orEmpty (Provider.path file))
             then sanitizePathDir P (Provider.orEmpty (Provider.path file))
             else [];
             name]).
Proof.
  intros He Hdot ->.
  pose proof (extCandidates_hd P c file e He Hdot) as Hx.
  unfold Provider.objectPaths. cbv zeta.
  destruct (Provider.extCandidates P c file) as [|e0 rest]; [discriminate|].
  injection Hx as ->.
  repeat apply setAddTruthy_hd. cbn [fold_left].
  apply fold_left_hd.
  - intros a x Ha. cbv beta zeta.
    repeat first
      [ apply setAdd_hd
      | match goal with
        | |- hd_error (if ?b then _ else _) = _ => destruct b
        end ];
      exact Ha.
  - do 2 apply setAdd_hd.
    match goal with
    | |- hd_error (if ?b then _ else _) = _ => destruct b
    end; [apply setAdd_hd|]; reflexivity.
Qed.

Lemma plainName_proper (s : jsstring) : plainName s -> properSegment s.
Proof.
  intros (HF & Hne & Hs). repeat split.
  - assumption.
  - intros ->. simpl in Hs. discriminate.
  - intros ->. simpl in Hs. discriminate.
  - intros Hin. rewrite Forall_forall in HF. apply HF in Hin.
    apply dirUnit_facts in Hin. destruct Hin as (_ & _ & H & _).
    apply H. reflexivity.
Qed.

(** An object path made of safe segments and a plain name is left as it is
    by [normalizeRelativeSlashPath]. *)
Lemma objectPath_normal (segs : list jsstring) (name : jsstring) :
  Forall (fun s => safeSegment s /\ s <> []) segs -> plainName name ->
  normalizeRelativeSlashPath (join NodePath.sep (segs ++ [name]))
  = join NodePath.sep (segs ++ [name]).
Proof.
  intros Hsegs (HF & Hne & Hs).
  assert (Forall (fun p => Forall (fun c => isDirUnit c = true) p /\ p <> [])
            (segs ++ [name])) as Hall.
  { apply Forall_app. split; [|constructor; [split; assumption | constructor]].
    eapply Forall_impl; [|exact Hsegs]. intros s [(H & _) H'].
    split; assumption. }
  assert (forall (Q : codeunit -> Prop),
            Q SLASH -> (forall c, isDirUnit c = true -> Q c) ->
            Forall Q (join NodePath.sep (segs ++ [name]))) as Hunits.
  { intros Q HQ1 HQ2.
    apply Forall_join; [constructor; [exact HQ1 | constructor]|].
    eapply Forall_impl; [|exact Hall]. intros p [Hp _].
    eapply Forall_impl; [|exact Hp]. exact HQ2. }
  apply normalizeRelativeSlashPath_fixed.
  - apply all_outside_trimmed. apply Hunits; [reflexivity|].
    intros c Hc. apply dirUnit_facts in Hc. tauto.
  - intros Hin.
    pose proof (Hunits (fun c => c <> BACKSLASH) ltac:(discriminate)
                  ltac:(intros c Hc; apply dirUnit_facts in Hc; tauto)) as H.
    rewrite Forall_forall in H. apply (H _ Hin). reflexivity.
  - apply join_trimmed. eapply Forall_impl; [|exact Hall].
    intros p [Hp Hpne]. split; [|assumption].
    apply all_outside_trimmed. eapply Forall_impl; [|exact Hp].
    intros c Hc. apply dirUnit_facts in Hc.
    destruct Hc as (_ & _ & H & _). unfold NodePath.isSlash.
    apply N.eqb_neq. exact H.
Qed.

(** X19.  With an absolute working directory, no prefix, file names that
    are not renamed, a plain name (letters, digits, dots, underscores and
    hyphens; not empty; no dot in front) and an extension that starts with a
    dot: once [upload] has stored a file, [delete], called with a descriptor
    of the same hash, extension and path, whatever its other fields are,
    finds it as its first candidate, removes it and resolves; every other
    regular file stays, and without directory cleanup nothing else
    changes. *)
Theorem upload_then_delete (P : Platform) (c : Provider.Config)
  (uuid : jsstring) (file : Provider.File) (d : Fs.fs) (e : jsstring) :
  cwdAbsolute P ->
  Provider.prefixOf c = [] ->
  Provider.renameToUuid c = false ->
  Provider.cleanupEmptyAdminFolders c = false ->
  Provider.ext file = Some e -> startsWith e [DOT] = true ->
  plainName (Provider.hash file ++ e) ->
  forall u d1,
    Provider.upload P c uuid file d = Ok (u, d1) ->
    exists stored bytes,
      strictlyInside (Provider.uploadPath P c) stored /\
      Fs.lookup d1 stored = Some (Fs.File bytes) /\
      forall (file' : Provider.File) (DB : Type) (S0 : Provider.Strapi DB)
             (fuel : nat) (db : DB),
        Provider.hash file' = Provider.hash file ->
        Provider.ext file' = Provider.ext file ->
        Provider.path file' = Provider.path file ->
        exists d2,
          Provider.delete P c S0 fuel file' d1 db
          = Some {| Provider.outcome := Ok None;
                    Provider.diskAfter := d2;
                    Provider.dbAfter := db;
                    Provider.foldersRequested := [] |} /\
          Fs.lookup d2 stored = None /\
          (forall p b,
             p <> stored -> Fs.lookup d1 p = Some (Fs.File b) ->
             Fs.lookup d2 p = Some (Fs.File b)) /\
          (Provider.cleanupEmptyDirs c = false -> d2 = Fs.remove d1 stored).
Proof.
  intros Hcwd Hpre Hren Hfold He Hdot Hname u d1 Hup.
  set (rawPath := Provider.orEmpty (Provider.path file)).
  assert (storedName c uuid file = Provider.hash file ++ e) as Hsn.
  { unfold storedName. rewrite Hren, He. reflexivity. }
  rewrite <- Hsn in Hname.
  set (name := storedName c uuid file) in *.
  destruct (objectPath_form P (Provider.prefixOf c) rawPath name Hpre)
    as (segs & Hsegs & Hobj).
  change [SLASH] with NodePath.sep in Hobj.
  assert (Forall properSegment (segs ++ [name])) as Hall.
  { apply Forall_app. split.
    - eapply Forall_impl; [|exact Hsegs]. intros s [Hs Hne].
      apply safe_proper; assumption.
    - constructor; [apply plainName_proper; assumption | constructor]. }
  assert (segs ++ [name] <> []) as Hne by (destruct segs; discriminate).
  destruct (stored_location P c _ Hcwd Hall Hne) as [Hloc Hres].
  rewrite upload_steps in Hup. cbv zeta in Hup.
  change (match Provider.path file with Some p => p | None => [] end)
    with rawPath in Hup.
  fold name in Hup.
  destruct (Provider.strictPathDir c && truthy rawPath
            && falsy (if truthy rawPath then sanitizePathDir P rawPath
                      else [])); [discriminate|].
  rewrite Hobj, Hloc in Hup.
  set (obj := join NodePath.sep (segs ++ [name])) in *.
  set (stored := Provider.uploadPath P c ++ NodePath.sep ++ obj) in *.
  destruct (Fs.ensureDir _ d _) as [d0|] eqn:Hens; [|discriminate].
  destruct (Provider.content file) as [bytes|]; [|discriminate].
  destruct (Fs.writeFile d0 stored bytes) as [dw|] eqn:Hw; [|discriminate].
  injection Hup as _ <-.
  pose proof (writeFile_lookup _ _ _ _ Hw) as Hstored.
  exists stored, bytes. split.
  { exists (segs ++ [name]).
    split; [assumption|]. split; [assumption | reflexivity]. }
  split; [exact Hstored|].
  intros file' DB S0 fuel db Hh Hx Hp.
  assert (Provider.firstDirectHit P c dw (Provider.objectPaths P c file')
          = Some stored) as Hhit.
  { pose proof (objectPaths_hd P c file' e name ltac:(congruence) Hdot
                  ltac:(rewrite Hh; exact Hsn)) as Hhd.
    rewrite Hp in Hhd. fold rawPath in Hhd. rewrite Hobj in Hhd.
    unfold Provider.firstDirectHit.
    destruct (Provider.objectPaths P c file') as [|o rest]; [discriminate|].
    injection Hhd as ->. cbn [flat_map].
    unfold Provider.directHit at 1.
    assert (normalizeRelativeSlashPath obj = obj) as ->
      by (apply objectPath_normal; assumption).
    assert (falsy obj = false) as ->.
    { destruct (join_proper_truthy _ Hne Hall) as [Hf _]. exact Hf. }
    rewrite Hres. unfold Fs.existsSync. fold stored. rewrite Hstored.
    reflexivity. }
  rewrite (delete_first_hit P c DB S0 fuel file' dw db stored Hhit).
  unfold Fs.isFile. rewrite Hstored.
  unfold Provider.maybeCleanupEmptyAdminFolders. rewrite Hfold.
  cbn [negb Provider.ended Provider.finalDb Provider.requested].
  eexists. split; [reflexivity|].
  assert (Fs.lookup (Fs.remove dw stored) stored = None) as Hgone
    by (rewrite lookup_remove, eqs_refl; reflexivity).
  assert (forall p, p <> stored ->
            Fs.lookup (Fs.remove dw stored) p = Fs.lookup dw p) as Hother.
  { intros p Hpne. rewrite lookup_remove.
    assert (eqs stored p = false) as -> by (apply eqs_neq; congruence).
    reflexivity. }
  destruct (Provider.cleanupEmptyDirs c).
  - split; [apply lookup_not_created; assumption|]. split; [|discriminate].
    intros p b Hpne Hb. unfold cleanupEmptyDirs.
    destruct (proj2 (cleanupLoop_safe (S (List.length stored))
                       (NodePath.resolve P [Provider.uploadPath P c])
                       (Fs.remove dw stored)
                       (NodePath.dirname stored) p))
      as [E | (E1 & _)].
    + rewrite E, Hother; assumption.
    + rewrite Hother in E1 by assumption. congruence.
  - split; [assumption|]. split; [|reflexivity].
    intros p b Hpne Hb. rewrite Hother; assumption.
Qed.

End UploadFacts.

(* ------------------------------------------------------------------ *)
(** ** Folders and the mapping of the upload service *)

Section FolderFacts.
Import PathUtils Provider UploadService FolderProps.
Context {DB User : Type} (S0 : FolderStore DB User).

Lemma ensure_parts (P : Platform) (input : jsstring) :
  exists parts,
    Forall (fun p => folderName p /\ p <> []) parts /\
    sanitizeAdminFolderPath P input = Js.join [SLASH] parts /\
    filter truthy (map trim (split SLASH (sanitizeAdminFolderPath P input)))
    = parts.
Proof.
  destruct (sanitizeAdminFolderPath_shape P input) as (parts & Hparts & E).
  exists parts. split; [assumption|]. split; [assumption|]. rewrite E.
  destruct parts as [|p0 rest]; [reflexivity|].
  rewrite split_join.
  - clear E. induction Hparts as [|p ps [Hp Hne] _ IH]; [reflexivity|].
    cbn [map filter]. destruct Hp as (_ & _ & Ht & _).
    rewrite (trimmed_trim p Ht).
    destruct p; [congruence|]. cbn. f_equal. exact IH.
  - discriminate.
  - eapply Forall_impl; [|exact Hparts]. intros p [Hp _].
    apply folderName_no_slash; assumption.
Qed.

Lemma ensureLoop_calls
  (create : DB -> jsstring -> option N -> option User -> result N * DB)
  (user : option User) (parts : list jsstring) :
  forall parent db,
    incl (map fst (walkedCalls (ensureLoop S0 create user parts parent db)))
         parts /\
    (List.length (walkedCalls (ensureLoop S0 create user parts parent db))
     <= List.length parts)%nat.
Proof.
  induction parts as [|name rest IH]; intros parent db; cbn [ensureLoop].
  - cbn. split; [apply incl_refl | lia].
  - destruct (findByName S0 db name parent) as [existing|x].
    + destruct (existingId existing) as [id|].
      * destruct (IH (Some id) db) as [H1 H2]. split.
        -- apply incl_tl. exact H1.
        -- cbn [List.length]. lia.
      * destruct (create db name parent user) as [[id|x] db'].
        -- destruct (IH (Some id) db') as [H1 H2]. cbn. split.
           ++ apply incl_cons; [left; reflexivity | apply incl_tl; exact H1].
           ++ lia.
        -- cbn. split.
           ++ apply incl_cons; [left; reflexivity | apply incl_nil_l].
           ++ lia.
    + cbn. split; [apply incl_nil_l | lia].
Qed.

Lemma truthyId_cases (o : option N) (id : N) :
  truthyId o = Some id <-> o = Some id /\ id <> 0.
Proof.
  unfold truthyId. split.
  - destruct o as [[|p]|]; intros H; inversion H; subst.
    split; [reflexivity | discriminate].
  - intros [-> Hne]. destruct id; [congruence | reflexivity].
Qed.

(** X20.  [ensureUploadFolderFromPath] hands the folder service nothing but
    segments of the sanitised path: every name in a [create] call is a
    segment of [sanitizeAdminFolderPath(folderPath)], a folder name that is
    not empty and has no separator, and there are no more calls than
    segments.  A path that sanitises to nothing is rejected with
    [Invalid folder path] before the database is touched, and so is any
    path when the folder service has no [create].  The id the call resolves
    to is never 0. *)
Theorem ensureUploadFolderFromPath_names (P : Platform) (user : option User)
  (folderPath : jsstring) (db : DB) :
  let r := ensureUploadFolderFromPath S0 P user folderPath db in
  let sanitized := sanitizeAdminFolderPath P folderPath in
  (sanitized = [] ->
   r = {| leaf := Throw (Error (str "Invalid folder path"));
          foldersAfter := db; createCalls := [] |}) /\
  (createFolder S0 = None ->
   (exists x, leaf r = Throw x) /\ foldersAfter r = db /\ createCalls r = [])
  /\
  Forall (fun call =>
            In (fst call) (split SLASH sanitized) /\
            folderName (fst call) /\ fst call <> [] /\
            ~ In SLASH (fst call)) (createCalls r) /\
  (List.length (createCalls r) <= List.length (split SLASH sanitized))%nat /\
  (forall id, leaf r = Ok id -> id <> 0).
Proof.
  cbv zeta. unfold ensureUploadFolderFromPath.
  destruct (ensure_parts P folderPath) as (parts & Hparts & E & ->).
  destruct parts as [|p0 rest].
  - cbn [leaf foldersAfter createCalls].
    split; [reflexivity|]. split; [intros _; eauto|].
    split; [constructor|]. split; [cbn; lia|]. discriminate.
  - assert (sanitizeAdminFolderPath P folderPath <> []) as Hne.
    { rewrite E. inversion Hparts as [|? ? [_ Hp0] _]; subst.
      destruct p0; [congruence|]. destruct rest; discriminate. }
    assert (split SLASH (sanitizeAdminFolderPath P folderPath) = p0 :: rest)
      as Hsplit.
    { rewrite E. apply split_join; [discriminate|].
      eapply Forall_impl; [|exact Hparts]. intros p [Hp _].
      apply folderName_no_slash; assumption. }
    rewrite Hsplit. split; [congruence|].
    destruct (createFolder S0) as [create|].
    + split; [discriminate|].
      cbn [leaf foldersAfter createCalls].
      destruct (ensureLoop_calls create user (p0 :: rest) None db)
        as [Hincl Hlen].
      split; [|split; [exact Hlen|]].
      * apply Forall_forall. intros call Hin.
        assert (In (fst call) (p0 :: rest)) as Hseg.
        { apply Hincl. apply in_map. exact Hin. }
        split; [exact Hseg|].
        rewrite Forall_forall in Hparts. destruct (Hparts _ Hseg) as [Hf Hn].
        split; [exact Hf|]. split; [exact Hn|].
        apply folderName_no_slash; exact Hf.
      * intros id. destruct (lastParent _) as [parent|x]; [|discriminate].
        destruct (truthyId parent) as [i|] eqn:Ht; [|discriminate].
        intros H; inversion H; subst. apply truthyId_cases in Ht. tauto.
    + cbn [leaf foldersAfter createCalls].
      split; [intros _; eauto|]. split; [constructor|].
      split; [cbn; lia | discriminate].
Qed.

Lemma existingId_found (existing : option FolderRow) (id : N) :
  existingId existing = Some id ->
  exists row, existing = Some row /\ truthyId (folderId row) = Some id.
Proof.
  destruct existing as [row|]; [|discriminate]. intros H. exists row.
  split; [reflexivity | exact H].
Qed.

Lemma ensureLoop_preserves (Hco : coherent S0)
  (create : DB -> jsstring -> option N -> option User -> result N * DB)
  (Hcreate : createFolder S0 = Some create)
  (user : option User) (name' : jsstring) (parent' : option N)
  (row : FolderRow) (parts : list jsstring) :
  forall parent db p,
    lastParent (ensureLoop S0 create user parts parent db) = Ok p ->
    findByName S0 db name' parent' = Ok (Some row) ->
    findByName S0 (walkedDb (ensureLoop S0 create user parts parent db))
      name' parent' = Ok (Some row).
Proof.
  destruct Hco as [Hids Hmk].
  induction parts as [|name rest IH]; intros parent db p; cbn [ensureLoop].
  - intros _ H. exact H.
  - destruct (findByName S0 db name parent) as [existing|x] eqn:Hfind;
      [|discriminate].
    destruct (existingId existing) as [id|] eqn:Hid.
    + apply IH.
    + assert (existing = None) as ->.
      { destruct existing as [r|]; [|reflexivity]. exfalso.
        apply (Hids _ _ _ _ Hfind). exact Hid. }
      destruct (create db name parent user) as [[id|x] db'] eqn:Hc;
        [|discriminate].
      cbn [lastParent walkedDb]. intros Hl Hrow.
      destruct (Hmk _ _ _ _ _ _ _ Hcreate Hfind Hc) as (_ & _ & Hother).
      apply (IH _ _ p Hl). rewrite Hother; [exact Hrow|].
      intros Heq. inversion Heq; subst. rewrite Hfind in Hrow. discriminate.
Qed.

Lemma ensureLoop_again (Hco : coherent S0)
  (create : DB -> jsstring -> option N -> option User -> result N * DB)
  (Hcreate : createFolder S0 = Some create)
  (user user' : option User) (parts : list jsstring) :
  forall parent db p,
    lastParent (ensureLoop S0 create user parts parent db) = Ok p ->
    ensureLoop S0 create user' parts parent
      (walkedDb (ensureLoop S0 create user parts parent db))
    = {| lastParent := Ok p;
         walkedDb := walkedDb (ensureLoop S0 create user parts parent db);
         walkedCalls := [] |}.
Proof.
  pose proof Hco as [Hids Hmk].
  induction parts as [|name rest IH]; intros parent db p.
  - cbn. intros ->. reflexivity.
  - cbn [ensureLoop].
    destruct (findByName S0 db name parent) as [existing|x] eqn:Hfind;
      [|discriminate].
    destruct (existingId existing) as [id|] eqn:Hid.
    + intros Hl.
      destruct (existingId_found _ _ Hid) as (row & -> & Hrow).
      rewrite (ensureLoop_preserves Hco create Hcreate user name parent row
                 rest _ _ p Hl Hfind).
      cbn [existingId]. rewrite Hrow. apply IH. exact Hl.
    + assert (existing = None) as ->.
      { destruct existing as [r|]; [|reflexivity]. exfalso.
        apply (Hids _ _ _ _ Hfind). exact Hid. }
      destruct (create db name parent user) as [[id|x] db'] eqn:Hc;
        [|discriminate].
      cbn [lastParent walkedDb]. intros Hl.
      destruct (Hmk _ _ _ _ _ _ _ Hcreate Hfind Hc)
        as (Hne & (row & Hrow & Hrid) & _).
      rewrite (ensureLoop_preserves Hco create Hcreate user name parent row
                 rest _ _ p Hl Hrow).
      cbn [existingId]. rewrite Hrid.
      assert (truthyId (Some id) = Some id) as ->.
      { apply truthyId_cases. split; [reflexivity | exact Hne]. }
      apply IH. exact Hl.
Qed.

(** X21.  Over a coherent folder store, [ensureUploadFolderFromPath] is
    idempotent: once a call has resolved to a folder id, the same path run
    again on the database it left, for whatever user, finds every folder,
    creates none, leaves the database as it is and resolves to the same
    id. *)
Theorem ensureUploadFolderFromPath_again (P : Platform)
  (user user' : option User) (folderPath : jsstring) (db : DB) (id : N)
  (Hco : coherent S0)
  (Hfirst : leaf (ensureUploadFolderFromPath S0 P user folderPath db) = Ok id) :
  let db1 :=
    foldersAfter (ensureUploadFolderFromPath S0 P user folderPath db) in
  ensureUploadFolderFromPath S0 P user' folderPath db1
  = {| leaf := Ok id; foldersAfter := db1; createCalls := [] |}.
Proof.
  cbv zeta. revert Hfirst. unfold ensureUploadFolderFromPath.
  destruct (filter truthy _) as [|p0 rest]; [discriminate|].
  destruct (createFolder S0) as [create|] eqn:Hcreate; [|discriminate].
  cbn [leaf foldersAfter createCalls].
  destruct (lastParent (ensureLoop S0 create user (p0 :: rest) None db))
    as [parent|x] eqn:Hl; [|discriminate].
  destruct (truthyId parent) as [i|] eqn:Ht; [|discriminate].
  intros H; inversion H; subst i.
  rewrite (ensureLoop_again Hco create Hcreate user user' (p0 :: rest)
             None db parent Hl).
  cbn [lastParent walkedDb walkedCalls]. rewrite Ht. reflexivity.
Qed.

Lemma ensureUploadFolderFromPath_shape_id (P : Platform) (user : option User)
  (folderPath : jsstring) (db : DB) (id : N) :
  leaf (ensureUploadFolderFromPath S0 P user folderPath db) = Ok id -> id <> 0.
Proof.
  unfold ensureUploadFolderFromPath.
  destruct (filter truthy _) as [|p0 rest]; [discriminate|].
  destruct (createFolder S0) as [create|]; [|discriminate].
  cbn [leaf]. destruct (lastParent _) as [parent|x]; [|discriminate].
  destruct (truthyId parent) as [i|] eqn:Ht; [|discriminate].
  intros H; inversion H; subst. apply truthyId_cases in Ht. tauto.
Qed.

End FolderFacts.

Section MappingFacts.
Import PathUtils Provider UploadService FolderProps.
Context {DB User Others : Type} (S0 : FolderStore DB User).
Context (noOthers : Others).

Lemma setFolder_all (id : N) (fi : FileInfo Others) :
  allInFolder id (setFolder noOthers id fi).
Proof.
  destruct fi as [|i|l]; cbn; try reflexivity.
  induction l as [|e l IH]; cbn; constructor; [eauto | exact IH].
Qed.

Lemma fieldString_truthy (f : Field) (s : jsstring) :
  fieldString f = Some s -> falsy s = false.
Proof.
  destruct f as [| |t]; cbn; try discriminate.
  destruct (truthy (trim t)) eqn:Ht; [|discriminate].
  intros H; inversion H; subst. destruct s; [discriminate | reflexivity].
Qed.

Lemma privateFolderNorm_truthy (c : Config) :
  privateEnable c = true -> falsy (privateFolderNorm c) = false.
Proof.
  intros H. unfold privateFolderNorm. rewrite H.
  destruct (falsy (trim _)) eqn:E; [reflexivity | exact E].
Qed.

Lemma patchFolderNorm_truthy (f : jsstring) : falsy (patchFolderNorm f) = false.
Proof.
  unfold patchFolderNorm.
  destruct (falsy (trim _)) eqn:E; [reflexivity | exact E].
Qed.

Lemma patchFolderNorm_fixed (c : Config) :
  privateEnable c = true ->
  trimmedOf NodePath.isSlash (privateFolderNorm c) ->
  patchFolderNorm (privateFolderNorm c) = privateFolderNorm c.
Proof.
  intros Hen Ht. unfold patchFolderNorm, stripSlashes.
  rewrite (trimmed_dropBoth _ _ Ht).
  assert (trim (privateFolderNorm c) = privateFolderNorm c) as ->.
  { unfold privateFolderNorm. rewrite Hen.
    destruct (falsy (trim _)) eqn:E; [reflexivity|].
    apply trimmed_trim. apply trim_trimmed. }
  rewrite (privateFolderNorm_truthy c Hen). reflexivity.
Qed.

Ltac mapping_case :=
  cbn [changed dataAfter mappedDb mappedCalls dataPathDir dataPath
       dataFileInfo];
  repeat match goal with
         | |- _ /\ _ => split
         | |- _ <-> _ => split
         | |- _ -> _ => intro
         | |- ~ _ => intro
         | H : _ /\ _ |- _ => destruct H
         | H : _ \/ _ |- _ => destruct H
         | H : exists _, _ |- _ => destruct H
         end;
  try discriminate; try congruence; try reflexivity;
  try (exfalso;
       match goal with
       | E : ?f = [], H : falsy ?f = false |- _ =>
           rewrite E in H; discriminate
       end);
  try (match goal with
       | H : Some _ = Some _ |- _ => inversion H; subst
       end;
       eexists;
       split; [eassumption|];
       split; [eapply ensureUploadFolderFromPath_shape_id; eassumption|];
       split; [reflexivity | apply setFolder_all]).

(** X22.  [applyPathMapping] on data that is not private.  It reports no
    change exactly when neither [path] nor [pathDir] is a string with
    something but white space in it, and then touches neither the data nor
    the database.  Without such a [path] no folder is created and the
    database stays as it is.  When it reports a change, [data.pathDir] is
    gone, and [data.path] is precisely [sanitizePathDir] of [pathDir] (of
    [path] when there is no [pathDir] and [usePathAsPathDir] is set), or is
    gone when that is empty; under [strictPathDir] a [pathDir] that
    sanitises to nothing makes the call throw instead.  Every [fileInfo]
    object is then in the folder that [ensureUploadFolderFromPath] resolved
    for [path], whose id is not 0. *)
Theorem applyPathMapping_public (P : Platform) (c : Config)
  (user : option User) (data : UploadData Others) (db : DB)
  (Hpublic : privateEnable c && dataPrivate data = false) :
  let m := applyPathMapping S0 noOthers P c user data db in
  let pathDir := fieldString (dataPathDir data) in
  let path := fieldString (dataPath data) in
  let source :=
    match pathDir with
    | Some raw => raw
    | None => if usePathAsPathDir c then orEmpty path else []
    end in
  let fsPath := if truthy source then sanitizePathDir P source else [] in
  (changed m = Ok false <-> pathDir = None /\ path = None) /\
  (changed m = Ok false ->
   dataAfter m = data /\ mappedDb m = db /\ mappedCalls m = []) /\
  (path = None -> mappedDb m = db /\ mappedCalls m = []) /\
  (strictPathDir c = true -> pathDir <> None -> fsPath = [] ->
   (path = None \/
    exists a id, path = Some a /\
      leaf (ensureUploadFolderFromPath S0 P user a db) = Ok id) ->
   changed m = Throw (Error (str "Invalid pathDir (sanitizes to empty)"))) /\
  (changed m = Ok true ->
   dataPathDir (dataAfter m) = Absent /\
   dataPath (dataAfter m) = (if truthy fsPath then Str fsPath else Absent) /\
   (strictPathDir c = true -> pathDir <> None -> fsPath <> []) /\
   (path = None -> dataFileInfo (dataAfter m) = dataFileInfo data) /\
   (forall a, path = Some a ->
      exists id,
        leaf (ensureUploadFolderFromPath S0 P user a db) = Ok id /\
        id <> 0 /\
        dataFileInfo (dataAfter m)
        = setFolder noOthers id (dataFileInfo data) /\
        allInFolder id (dataFileInfo (dataAfter m)))).
Proof.
  cbv zeta. unfold applyPathMapping. rewrite Hpublic.
  cbv beta iota zeta.
  destruct (fieldString (dataPath data)) as [a|] eqn:Hpath.
  - rewrite (fieldString_truthy _ _ Hpath). cbn [andb negb orEmpty].
    destruct (leaf (ensureUploadFolderFromPath S0 P user a db))
      as [id|x] eqn:Hleaf;
      destruct (fieldString (dataPathDir data)) as [raw|] eqn:Hdir;
      cbn [negb andb];
      try set (fsPath := if truthy raw then sanitizePathDir P raw else []);
      destruct (strictPathDir c) eqn:Hstrict; cbn [andb];
      try destruct (falsy fsPath) eqn:Hfs;
      mapping_case.
  - cbn [andb].
    destruct (fieldString (dataPathDir data)) as [raw|] eqn:Hdir;
      cbn [negb andb];
      try set (fsPath := if truthy raw then sanitizePathDir P raw else []);
      destruct (strictPathDir c) eqn:Hstrict; cbn [andb];
      try destruct (falsy fsPath) eqn:Hfs;
      mapping_case.
Qed.

(** X23.  [applyPathMapping] on private data, with [privateEnable] set.
    It never reports no change: it throws, or it reports a change.  Without
    a [pathDir] that is a string with something but white space in it, or
    with one that [sanitizePathDir] empties, it throws before the data or
    the database is touched.  Otherwise the folder path is the private
    folder, a separator and the sanitised [pathDir]: [data.path] is set to
    it, [data.pathDir] is gone, [ensureUploadFolderFromPath] is run on it,
    and the call reports a change exactly when that resolves to a folder,
    in which every [fileInfo] object then is.  The private folder is never
    empty, and it is the folder of the provider's private URLs whenever
    that one neither starts nor ends with a separator. *)
Theorem applyPathMapping_private (P : Platform) (c : Config)
  (user : option User) (data : UploadData Others) (db : DB)
  (Henabled : privateEnable c = true) (Hprivate : dataPrivate data = true) :
  let m := applyPathMapping S0 noOthers P c user data db in
  let folder := patchFolderNorm (privateFolderNorm c) in
  changed m <> Ok false /\
  (fieldString (dataPathDir data) = None ->
   (exists x, changed m = Throw x) /\
   dataAfter m = data /\ mappedDb m = db /\ mappedCalls m = []) /\
  (forall raw, fieldString (dataPathDir data) = Some raw ->
     let documentId := sanitizePathDir P raw in
     let e := ensureUploadFolderFromPath S0 P user
                (folder ++ [SLASH] ++ documentId) db in
     (documentId = [] ->
      (exists x, changed m = Throw x) /\
      dataAfter m = data /\ mappedDb m = db /\ mappedCalls m = []) /\
     (documentId <> [] ->
      mappedDb m = foldersAfter e /\ mappedCalls m = createCalls e /\
      dataPathDir (dataAfter m) = Absent /\
      dataPath (dataAfter m) = Str (folder ++ [SLASH] ++ documentId) /\
      (forall x, leaf e = Throw x -> changed m = Throw x) /\
      (forall id, leaf e = Ok id ->
         changed m = Ok true /\ id <> 0 /\
         dataFileInfo (dataAfter m)
         = setFolder noOthers id (dataFileInfo data) /\
         allInFolder id (dataFileInfo (dataAfter m))))) /\
  folder <> [] /\
  (trimmedOf NodePath.isSlash (privateFolderNorm c) ->
   folder = privateFolderNorm c).
Proof.
  cbv zeta. unfold applyPathMapping. rewrite Henabled, Hprivate.
  cbv beta iota zeta. cbn [andb negb].
  rewrite (privateFolderNorm_truthy c Henabled).
  assert (patchFolderNorm (privateFolderNorm c) <> []) as Hfolder.
  { pose proof (patchFolderNorm_truthy (privateFolderNorm c)) as H.
    destruct (patchFolderNorm _); [discriminate | congruence]. }
  assert (forall d : jsstring,
            falsy (patchFolderNorm (privateFolderNorm c) ++ [SLASH] ++ d)
            = false) as Hadmin.
  { intros d. destruct (patchFolderNorm _); [congruence | reflexivity]. }
  destruct (fieldString (dataPathDir data)) as [raw|] eqn:Hdir.
  - destruct (falsy (sanitizePathDir P raw)) eqn:Hdoc.
    + cbn [changed dataAfter mappedDb mappedCalls].
      split; [discriminate|]. split; [discriminate|].
      split;
        [|split; [exact Hfolder | apply patchFolderNorm_fixed; exact Henabled]].
      intros raw' Hraw'. inversion Hraw'; subst raw'. split.
      * intros _. split; [eauto|]. repeat split; reflexivity.
      * intros Hne. destruct (sanitizePathDir P raw);
          [congruence | discriminate].
    + rewrite Hadmin. cbn [andb orEmpty].
      destruct (leaf (ensureUploadFolderFromPath S0 P user
                        (patchFolderNorm (privateFolderNorm c) ++ [SLASH]
                         ++ sanitizePathDir P raw) db)) as [id|x] eqn:Hleaf;
        cbn [changed dataAfter mappedDb mappedCalls dataPathDir dataPath
             dataFileInfo].
      * split; [discriminate|]. split; [discriminate|].
        split;
          [|split; [exact Hfolder
                   | apply patchFolderNorm_fixed; exact Henabled]].
        intros raw' Hraw'. inversion Hraw'; subst raw'. split.
        -- intros E. rewrite E in Hdoc. discriminate.
        -- intros _. rewrite Hleaf.
           split; [reflexivity|]. split; [reflexivity|].
           split; [reflexivity|]. split; [reflexivity|].
           split; [discriminate|].
           intros id' Hid'. inversion Hid'; subst id'.
           split; [reflexivity|].
           split; [eapply ensureUploadFolderFromPath_shape_id; exact Hleaf|].
           split; [reflexivity | apply setFolder_all].
      * split; [discriminate|]. split; [discriminate|].
        split;
          [|split; [exact Hfolder
                   | apply patchFolderNorm_fixed; exact Henabled]].
        intros raw' Hraw'. inversion Hraw'; subst raw'. split.
        -- intros E. rewrite E in Hdoc. discriminate.
        -- intros _. rewrite Hleaf.
           split; [reflexivity|]. split; [reflexivity|].
           split; [reflexivity|]. split; [reflexivity|].
           split; [|discriminate].
           intros x' Hx'. inversion Hx'; subst x'. reflexivity.
  - cbn [changed dataAfter mappedDb mappedCalls].
    split; [discriminate|].
    split; [intros _; split; [eauto | repeat split; reflexivity]|].
    split; [discriminate|].
    split; [exact Hfolder | apply patchFolderNorm_fixed; exact Henabled].
Qed.

End MappingFacts.

Section FolderTableFacts.
Import Provider UploadService FolderProps FolderTable.

Lemma find_app_none {A : Type} (f : A -> bool) (l l' : list A) :
  find f l = None -> find f (l ++ l') = find f l'.
Proof.
  induction l as [|x l IH]; cbn; [reflexivity|].
  destruct (f x); [discriminate | exact IH].
Qed.

Lemma find_app_some {A : Type} (f : A -> bool) (l l' : list A) (x : A) :
  find f l = Some x -> find f (l ++ l') = Some x.
Proof.
  induction l as [|y l IH]; cbn; [discriminate|].
  destruct (f y); [trivial | exact IH].
Qed.

Lemma sameParent_spec (a b : option N) : sameParent a b = true <-> a = b.
Proof.
  destruct a as [x|], b as [y|]; cbn; try (split; congruence).
  rewrite N.eqb_eq. split; congruence.
Qed.

Lemma table_coherent : coherent store.
Proof.
  split.
  - intros t name parent row. cbn.
    destruct (find _ t) as [r|]; cbn; [|discriminate].
    intros H; inversion H; subst. cbn. discriminate.
  - intros create t name parent user id t' Hc Hfind Hmk.
    cbn in Hc. inversion Hc; subst create. clear Hc.
    inversion Hmk; subst id t'. clear Hmk.
    cbn in Hfind.
    destruct (find (isRow name parent) t) as [r|] eqn:Hf; [discriminate|].
    split; [discriminate|]. split.
    + eexists. cbn. rewrite (find_app_none _ _ _ Hf). cbn.
      assert (isRow name parent (nextId t, name, parent) = true) as ->.
      { unfold isRow. cbn. apply andb_true_intro. split.
        - apply eqs_spec. reflexivity.
        - apply sameParent_spec. reflexivity. }
      cbn. split; reflexivity.
    + intros name' parent' Hne. cbn.
      destruct (find (isRow name' parent') t) as [r|] eqn:Hf'.
      * rewrite (find_app_some _ _ _ _ Hf'). reflexivity.
      * rewrite (find_app_none _ _ _ Hf'). cbn.
        destruct (isRow name' parent' (nextId t, name, parent)) eqn:Hrow;
          [|reflexivity].
        exfalso. apply Hne. unfold isRow in Hrow. cbn in Hrow.
        apply andb_prop in Hrow. destruct Hrow as [H1 H2].
        apply eqs_spec in H1. apply sameParent_spec in H2. congruence.
Qed.

End FolderTableFacts.

(* ------------------------------------------------------------------ *)
(** ** More statements at work on the concrete platform *)

Section FurtherInstances.
Import Provider Props.

Lemma safeResolveUnderRoot_accepts_witness :
  PathUtils.safeResolveUnderRoot Model.posix (str "public/uploads")
    (str "a/b.png")
  = Some (str "/srv/app/public/uploads/a/b.png").
Proof.
  exact (proj1 (safeResolveUnderRoot_accepts Model.posix
                  (str "public/uploads") eq_refl)
           ltac:(discriminate) [str "a"; str "b.png"] ltac:(discriminate)
           ltac:(repeat constructor; try discriminate;
                 vm_compute; intuition discriminate)).
Defined.

Lemma cleanupEmptyDirs_safe_witness :
  Fs.lookup
    (PathUtils.cleanupEmptyDirs Model.posix Examples.cafeDirs
       (str "/srv/app/public/uploads/Cafe/Arvore/abc123.png")
       (str "public/uploads"))
    (str "/srv/app/public/uploads")
  = Some Fs.Dir.
Proof.
  refine (proj2 (proj2 (cleanupEmptyDirs_safe Model.posix Examples.cafeDirs
                          (str "/srv/app/public/uploads/Cafe/Arvore/abc123.png")
                          (str "public/uploads") _))).
  exists [str "srv"; str "app"; str "public"; str "uploads"; str "Cafe";
          str "Arvore"; str "abc123.png"].
  split; [|reflexivity].
  repeat constructor; try discriminate; vm_compute; intuition discriminate.
Defined.

Lemma cleanupEmptyDirs_removes_chain_witness :
  let after :=
    PathUtils.cleanupEmptyDirs Model.posix Examples.cafeDirs
      (str "/srv/app/public/uploads/Cafe/Arvore/abc123.png")
      (str "public/uploads") in
  Fs.lookup after (str "/srv/app/public/uploads/Cafe") = None /\
  Fs.lookup after (str "/srv/app/public/uploads/Cafe/Arvore") = None.
Proof.
  assert (forall k, (0 < k <= 2)%nat -> k = 1%nat \/ k = 2%nat) as Hk
    by (intros; lia).
  pose proof (proj1 (cleanupEmptyDirs_removes_chain Model.posix
                       (str "public/uploads") [str "Cafe"; str "Arvore"]
                       (str "abc123.png") 0 Examples.cafeDirs eq_refl
                       ltac:(discriminate)
                       ltac:(repeat constructor; try discriminate;
                             vm_compute; intuition discriminate)
                       ltac:(intros k Hr; destruct (Hk k Hr) as [-> | ->];
                             (split; [reflexivity|]);
                             intros e [<- | [<- | [<- | []]]] Hc;
                             vm_compute in Hc; try congruence;
                             split; [cbn; lia | reflexivity]))) as H.
  split; [exact (H 1%nat ltac:(cbn; lia)) | exact (H 2%nat ltac:(cbn; lia))].
Defined.

Lemma extractObjectPathFromUrl_marker_witness :
  Url.extractObjectPathFromUrl Model.posix
    (Some (str "/uploads/Cafe/Arvore/abc123.png?token=x")) (str "/uploads/")
    None
  = Some (str "Cafe/Arvore/abc123.png").
Proof.
  exact (extractObjectPathFromUrl_marker Model.posix (str "/uploads/")
           (str "Cafe/Arvore/abc123.png") (str "?token=x") None eq_refl
           ltac:(vm_compute; intuition discriminate)
           ltac:(vm_compute; intuition discriminate)
           (or_intror eq_refl)).
Defined.

Lemma extractObjectPathFromUrl_baseUrl_witness :
  Url.extractObjectPathFromUrl Model.posix
    (Some (str "https://cdn.example.com/Cafe/abc123.png?v=2"))
    (str "/uploads/") (Some (str "https://cdn.example.com"))
  = Some (str "Cafe/abc123.png").
Proof.
  exact (extractObjectPathFromUrl_baseUrl Model.posix (str "/uploads/")
           (str "https://cdn.example.com") (str "/Cafe/abc123.png?v=2")
           eq_refl eq_refl
           ltac:(intros p Hp; vm_compute in Hp; discriminate)).
Defined.

Lemma getSignedUrl_accepted_witness :
  SignedUrl.getSignedUrl Model.posix Model.privateConfig 60 1700000000000
    Examples.privateFile
  = Ok Examples.signedUrl.
Proof.
  exact (proj1 (getSignedUrl_accepted Model.posix Model.privateConfig None
                  60 1700000000000 Examples.privateFile Model.privatePath
                  posix_digest eq_refl ltac:(discriminate) eq_refl
                  ltac:(discriminate) eq_refl eq_refl
                  ltac:(discriminate) ltac:(vm_compute; discriminate))).
Defined.

Lemma getSignedUrl_resign_witness :
  SignedUrl.getSignedUrl Model.posix Model.privateConfig 60 1700000000000
    Examples.signedFile
  = Ok Examples.signedUrl.
Proof.
  exact (proj1 (getSignedUrl_resign Model.posix Model.privateConfig 60
                  1700000000000 Examples.privateFile Examples.signedUrl
                  ltac:(vm_compute; reflexivity))
           Examples.signedFile eq_refl).
Defined.



Lemma documentIdInPath_second_segment_witness :
  documentIdInPath Examples.nestedRequest = str "private".
Proof.
  exact (proj1 (proj2 (proj2 (documentIdInPath_second_segment
                                Examples.nestedPrivateConfig
                                Examples.nestedRequest eq_refl))
                  ltac:(vm_compute; lia))).
Defined.

Lemma upload_confined_witness :
  exists segs,
    Forall (fun s => SegmentProps.safeSegment s /\ s <> []) segs /\
    let objectPath :=
      Js.join NodePath.sep
        (segs ++ [UploadProps.storedName Model.defaultConfig []
                    Model.cafeFile]) in
    let stored :=
      uploadPath Model.posix Model.defaultConfig ++ NodePath.sep
      ++ objectPath in
    strictlyInside (uploadPath Model.posix Model.defaultConfig) stored /\
    forall u d',
      upload Model.posix Model.defaultConfig [] Model.cafeFile
        Model.emptyUploads = Ok (u, d') ->
      u = UploadProps.urlOf Model.defaultConfig objectPath /\
      (exists bytes,
         content Model.cafeFile = Some bytes /\
         Fs.lookup d' stored = Some (Fs.File bytes)) /\
      forall p, p <> stored -> UploadProps.keptOrMade Model.emptyUploads d' p.
Proof.
  exact (upload_confined Model.posix Model.defaultConfig [] Model.cafeFile
           Model.emptyUploads eq_refl eq_refl
           ltac:(vm_compute; intuition discriminate)).
Defined.

Lemma upload_then_delete_witness :
  exists stored bytes,
    strictlyInside (uploadPath Model.posix Model.defaultConfig) stored /\
    Fs.lookup Model.cafeDisk stored = Some (Fs.File bytes) /\
    forall (file' : File) (DB : Type) (S0 : Strapi DB) (fuel : nat) (db : DB),
      hash file' = hash Model.cafeFile ->
      ext file' = ext Model.cafeFile ->
      path file' = path Model.cafeFile ->
      exists d2,
        delete Model.posix Model.defaultConfig S0 fuel file' Model.cafeDisk db
        = Some {| outcome := Ok None; diskAfter := d2; dbAfter := db;
                  foldersRequested := [] |} /\
        Fs.lookup d2 stored = None /\
        (forall p b,
           p <> stored -> Fs.lookup Model.cafeDisk p = Some (Fs.File b) ->
           Fs.lookup d2 p = Some (Fs.File b)) /\
        (cleanupEmptyDirs Model.defaultConfig = false ->
         d2 = Fs.remove Model.cafeDisk stored).
Proof.
  exact (upload_then_delete Model.posix Model.defaultConfig []
           Model.cafeFile Model.emptyUploads (str ".png") eq_refl eq_refl
           eq_refl eq_refl eq_refl eq_refl
           ltac:(split; [|split; [discriminate | vm_compute; reflexivity]];
                 apply Forall_forall; intros c Hc; vm_compute in Hc;
                 repeat (destruct Hc as [<- | Hc]; [reflexivity|]);
                 destruct Hc)
           (str "/uploads/Cafe/Arvore/abc123.png") Model.cafeDisk
           ltac:(vm_compute; reflexivity)).
Defined.

Lemma delete_safe_witness :
  exists abs,
    strictlyInside (uploadPath Model.posix Model.defaultConfig) abs /\
    (exists bytes, Fs.lookup Model.cafeDisk abs = Some (Fs.File bytes)) /\
    Fs.lookup Examples.cafeDirs abs = None /\
    (forall p, p <> abs ->
       UploadProps.keptOrCleaned (uploadPath Model.posix Model.defaultConfig)
         Model.cafeDisk Examples.cafeDirs p) /\
    (cleanupEmptyDirs Model.defaultConfig = false ->
     Examples.cafeDirs = Fs.remove Model.cafeDisk abs).
Proof.
  destruct (delete_safe Model.posix Model.defaultConfig unit
              Model.emptyStrapi 1 Model.cafeFile Model.cafeDisk tt
              {| outcome := Ok None; diskAfter := Examples.cafeDirs;
                 dbAfter := tt; foldersRequested := [] |}
              eq_refl ltac:(vm_compute; reflexivity)) as [[_ H] | [[H | H] _]].
  - exact H.
  - discriminate H.
  - discriminate H.
Defined.

Lemma ensureUploadFolderFromPath_again_witness :
  UploadService.ensureUploadFolderFromPath FolderTable.store Model.posix
    (Some tt) (str "Clientes/Ana")
    [ (1%positive, str "Clientes", None); (2%positive, str "Ana", Some 1) ]
  = {| UploadService.leaf := Ok 2;
       UploadService.foldersAfter :=
         [ (1%positive, str "Clientes", None);
           (2%positive, str "Ana", Some 1) ];
       UploadService.createCalls := [] |}.
Proof.
  exact (ensureUploadFolderFromPath_again FolderTable.store Model.posix
           None (Some tt) (str "Clientes/Ana") [] 2 table_coherent eq_refl).
Defined.

Lemma applyPathMapping_public_witness :
  let m :=
    UploadService.applyPathMapping FolderTable.store tt Model.posix
      Model.defaultConfig None Examples.folderData [] in
  UploadService.dataPathDir (UploadService.dataAfter m)
  = UploadService.Absent /\
  UploadService.dataPath (UploadService.dataAfter m)
  = UploadService.Str (str "Cafe/Arvore").
Proof.
  destruct (proj2 (proj2 (proj2 (proj2
              (applyPathMapping_public FolderTable.store tt Model.posix
                 Model.defaultConfig None Examples.folderData [] eq_refl))))
              eq_refl) as (H1 & H2 & _).
  split; [exact H1 | exact H2].
Defined.

Lemma applyPathMapping_private_witness :
  let m :=
    UploadService.applyPathMapping FolderTable.store tt Model.posix
      Model.privateConfig None Examples.privateData [] in
  UploadService.changed m = Ok true /\
  UploadService.dataPath (UploadService.dataAfter m)
  = UploadService.Str (str "private/42").
Proof.
  destruct (proj2 (proj1 (proj2 (proj2
              (applyPathMapping_private FolderTable.store tt Model.posix
                 Model.privateConfig None Examples.privateData [] eq_refl
                 eq_refl))) (str "42") eq_refl) ltac:(discriminate))
    as (_ & _ & _ & H1 & _ & H2).
  split; [exact (proj1 (H2 2 eq_refl)) | exact H1].
Defined.

End FurtherInstances.
